(** * float-controller: task registry, event registry and watchdog drivers

  A shallow embedding of the orchestration layer of the firmware
  ([components/TaskStore.py], [components/EventStore.py],
  [drivers/NTPTime.py], [drivers/Wifi.py], [drivers/StatusLED.py]), of
  [components/hardware/Relay.py], and the properties of them that the
  specification states or that the code shows.

  The firmware runs on MicroPython's single-threaded cooperative scheduler.
  Each method is embedded as a state-passing function; a Python exception
  is a result of its own, and the heap is kept when one is raised. *)

From Stdlib Require Import ZArith List String Bool Arith Lia.
From Stdlib Require Import DecimalString DecimalZ DecimalPos.
Import ListNotations.
Open Scope string_scope.

(* ===================================================================== *)
(** * The fragment of Python that the sources use *)
(* ===================================================================== *)

Module Py.

(** The exception classes that the embedded code can meet.  [Exception_]
    is a plain [Exception("...")] raised by the firmware itself. *)
Inductive exn : Type :=
| KeyError
| TypeError
| AttributeError
| RuntimeError
| ValueError
| OSError
| Exception_ (msg : string).

(** The outcome of evaluating a piece of code: it returns a value or it
    raises. *)
Inductive result (A : Type) : Type :=
| Ret (a : A)
| Raise (e : exn).
Arguments Ret {A} a.
Arguments Raise {A} e.

(** A computation over a heap [S]: the heap after the computation is
    returned in both cases, an exception rolls nothing back. *)
Definition M (S A : Type) : Type := S -> result A * S.

Definition ret {S A} (a : A) : M S A := fun s => (Ret a, s).
Definition raise {S A} (e : exn) : M S A := fun s => (Raise e, s).
Definition bind {S A B} (m : M S A) (k : A -> M S B) : M S B :=
  fun s => match m s with
           | (Ret a, s') => k a s'
           | (Raise e, s') => (Raise e, s')
           end.
Definition get {S} : M S S := fun s => (Ret s, s).
Definition put {S} (s : S) : M S unit := fun _ => (Ret tt, s).

(** [try: m  except ...: h]: the handler runs on the heap that the
    failing body left. *)
Definition try_except {S A} (m : M S A) (h : exn -> M S A) : M S A :=
  fun s => match m s with
           | (Ret a, s') => (Ret a, s')
           | (Raise e, s') => h e s'
           end.

(** Lifting a pure lookup: [None] is the exception [e]. *)
Definition or_raise {S A} (e : exn) (o : option A) : M S A :=
  match o with Some a => ret a | None => raise e end.

(** [post c s Q]: the result of [c] on the heap [s] and the heap that it
    leaves satisfy [Q]. *)
Definition post {S A} (c : M S A) (s : S) (Q : result A -> S -> Prop) : Prop :=
  Q (fst (c s)) (snd (c s)).

Declare Scope py_scope.
Delimit Scope py_scope with py.
Notation "x <- m ;; k" := (bind m (fun x => k))
  (at level 61, m at next level, right associativity) : py_scope.
Notation "m ;;; k" := (bind m (fun _ => k))
  (at level 61, right associativity) : py_scope.

(** A value that a call returns, as far as the code looks at it. *)
Inductive pyval : Type :=
| VNone
| VCoroutine (fn : nat).

(** The second argument of [isinstance]: a class, given by the values
    that are its instances, or some object that is not a class. *)
Inductive classinfo : Type :=
| Cls (inst : pyval -> bool)
| NotAClass (v : pyval).

Definition isinstance {S} (v : pyval) (c : classinfo) : M S bool :=
  match c with
  | Cls inst => ret (inst v)
  | NotAClass _ => raise TypeError
  end.

(** Keys with a boolean equality, the way [dict] needs them. *)
Class EqKey (K : Type) : Type := { keq : K -> K -> bool }.

#[global] Instance EqKey_string : EqKey string := {| keq := String.eqb |}.

(** The boolean equality decides equality. *)
Class EqKeyOk (K : Type) `{EqKey K} : Prop :=
  keq_iff : forall a b : K, keq a b = true <-> a = b.

(** A computation that raises on no heap. *)
Definition never_raises {S A} (m : M S A) : Prop :=
  forall s, exists a s', m s = (Ret a, s').

(** A [dict]: an association list without duplicate keys, in the order in
    which a [for] loop visits the keys.  A new key goes to the end, an
    assignment to a present key keeps its place. *)
Section Dict.
Context {K V : Type} `{EqKey K}.

Definition dict : Type := list (K * V).

Fixpoint dict_get (k : K) (d : dict) : option V :=
  match d with
  | [] => None
  | (k', v) :: d' => if keq k k' then Some v else dict_get k d'
  end.

Definition dict_mem (k : K) (d : dict) : bool :=
  match dict_get k d with Some _ => true | None => false end.

Fixpoint dict_set (k : K) (v : V) (d : dict) : dict :=
  match d with
  | [] => [(k, v)]
  | (k', v') :: d' =>
      if keq k k' then (k', v) :: d' else (k', v') :: dict_set k v d'
  end.

Fixpoint dict_del (k : K) (d : dict) : dict :=
  match d with
  | [] => []
  | (k', v') :: d' => if keq k k' then d' else (k', v') :: dict_del k d'
  end.

Definition dict_keys (d : dict) : list K := map fst d.
End Dict.
Arguments dict K V : clear implicits.

End Py.

Import Py.
Open Scope py_scope.

(* ===================================================================== *)
(** * components/TaskStore.py *)
(* ===================================================================== *)

Module TaskStore.

(** A task handle is the identity of an [asyncio.Task]. *)
Definition task_id : Type := nat.

(** What [self._taskstore] holds under a key: a task (created with
    [module=None]) or the dict of a module, which holds tasks. *)
Inductive entry : Type :=
| ETask (t : task_id)
| EScope (d : dict string task_id).

(** A coroutine function handed to [create_task]: its [__name__] and
    whether calling it with given arguments builds a coroutine object or
    raises (wrong arity). *)
Record coro_fn : Type := {
  co_id : nat;
  co_name : string;
  co_accepts : list Z -> list (string * Z) -> bool
}.

(** The heap: the store itself and what the scheduler has been asked.
    [cancel_log] lists the tasks whose [cancel()] was called, latest
    first; [spawn_log] the tasks made by [asyncio.create_task], latest
    first; [cur_task] is the task that is running the caller, if any
    (MicroPython's [Task.cancel] refuses to cancel it);
    [strict_iter] tells whether the interpreter checks, at each step of a
    [for] over a dict, that the dict has kept its size (CPython does and
    raises [RuntimeError]; MicroPython does not). *)
Record state : Type := {
  taskstore : dict string entry;
  cancel_log : list task_id;
  spawn_log : list (task_id * nat);
  cur_task : option task_id;
  strict_iter : bool
}.

Definition with_store (d : dict string entry) (s : state) : state :=
  {| taskstore := d; cancel_log := cancel_log s; spawn_log := spawn_log s;
     cur_task := cur_task s; strict_iter := strict_iter s |}.

Definition T (A : Type) : Type := M state A.

(** The result of [create_task]: [True], a returned (not raised)
    [RuntimeWarning], or the returned exception. *)
Inductive create_result : Type :=
| Created
| AlreadyExists (msg : string)
| Failed (e : exn).

(** [task.cancel()]. *)
Definition cancel (t : task_id) : T unit :=
  fun s =>
    match cur_task s with
    | Some c =>
        if Nat.eqb c t then (Raise RuntimeError, s)
        else (Ret tt, {| taskstore := taskstore s;
                         cancel_log := t :: cancel_log s;
                         spawn_log := spawn_log s;
                         cur_task := cur_task s;
                         strict_iter := strict_iter s |})
    | None => (Ret tt, {| taskstore := taskstore s;
                          cancel_log := t :: cancel_log s;
                          spawn_log := spawn_log s;
                          cur_task := cur_task s;
                          strict_iter := strict_iter s |})
    end.

(** [x.cancel()] for what the store holds: a dict has no such method. *)
Definition entry_cancel (e : entry) : T unit :=
  match e with
  | ETask t => cancel t
  | EScope _ => raise AttributeError
  end.

(** [asyncio.create_task(coroutine)]: a fresh task, scheduled. *)
Definition asyncio_create_task (c : nat) : T task_id :=
  fun s =>
    let t := List.length (spawn_log s) in
    (Ret t, {| taskstore := taskstore s;
               cancel_log := cancel_log s;
               spawn_log := (t, c) :: spawn_log s;
               cur_task := cur_task s;
               strict_iter := strict_iter s |}).

(** [coro( *coro_args, **coro_kwargs)]: unpacking [None] is a
    [TypeError], and so is a call that the function does not accept. *)
Definition call_coro (coro : coro_fn) (coro_args : option (list Z))
    (coro_kwargs : option (list (string * Z))) : T nat :=
  match coro_args, coro_kwargs with
  | Some a, Some kw =>
      if co_accepts coro a kw then ret (co_id coro) else raise TypeError
  | _, _ => raise TypeError
  end.

(** [self._taskstore[k]]. *)
Definition subscript (k : string) : T entry :=
  s <- get ;; or_raise KeyError (dict_get k (taskstore s)).

(** [ts = self._taskstore[module] if module != None else self._taskstore]
    binds [ts] to an object that lives in the heap: the store itself, the
    dict of a module, or (when [module] names a task of the global scope)
    a task.  Reads and writes through [ts] act on the store. *)
Inductive ts_ref : Type :=
| TsTop
| TsScope (m : string)
| TsTask (t : task_id).

Definition resolve_ts (module : option string) : T ts_ref :=
  match module with
  | None => ret TsTop
  | Some m =>
      e <- subscript m ;;
      match e with
      | EScope _ => ret (TsScope m)
      | ETask t => ret (TsTask t)
      end
  end.

(** The dict that a [TsScope] reference points to. *)
Definition deref_scope (m : string) : T (dict string task_id) :=
  e <- subscript m ;;
  match e with
  | EScope d => ret d
  | ETask _ => raise TypeError
  end.

(** [name in ts].  A task is no container: the test is taken to raise
    [TypeError], as the subscripts of a task below do. *)
Definition ts_contains (ts : ts_ref) (name : string) : T bool :=
  match ts with
  | TsTop => s <- get ;; ret (dict_mem name (taskstore s))
  | TsScope m => d <- deref_scope m ;; ret (dict_mem name d)
  | TsTask _ => raise TypeError
  end.

(** [ts[name]]. *)
Definition ts_get (ts : ts_ref) (name : string) : T entry :=
  match ts with
  | TsTop => subscript name
  | TsScope m =>
      d <- deref_scope m ;;
      t <- or_raise KeyError (dict_get name d) ;;
      ret (ETask t)
  | TsTask _ => raise TypeError
  end.

(** [ts[name] = t]. *)
Definition ts_set (ts : ts_ref) (name : string) (t : task_id) : T unit :=
  match ts with
  | TsTop =>
      s <- get ;; put (with_store (dict_set name (ETask t) (taskstore s)) s)
  | TsScope m =>
      d <- deref_scope m ;;
      s <- get ;;
      put (with_store (dict_set m (EScope (dict_set name t d))
                         (taskstore s)) s)
  | TsTask _ => raise TypeError
  end.

(** [del ts[name]]. *)
Definition ts_del (ts : ts_ref) (name : string) : T unit :=
  match ts with
  | TsTop =>
      s <- get ;;
      if dict_mem name (taskstore s)
      then put (with_store (dict_del name (taskstore s)) s)
      else raise KeyError
  | TsScope m =>
      d <- deref_scope m ;;
      if dict_mem name d
      then s <- get ;;
           put (with_store (dict_set m (EScope (dict_del name d))
                              (taskstore s)) s)
      else raise KeyError
  | TsTask _ => raise TypeError
  end.

Definition exists_message (name : string) : string :=
  "Task " ++ name ++ " already exists, recreate was not set".

(** [ts[name] = asyncio.create_task(coro( *coro_args, **coro_kwargs))]
    followed by [return True]. *)
Definition install (coro : coro_fn) (name : string) (ts : ts_ref)
    (coro_args : option (list Z)) (coro_kwargs : option (list (string * Z)))
    : T create_result :=
  c <- call_coro coro coro_args coro_kwargs ;;
  t <- asyncio_create_task c ;;
  ts_set ts name t ;;;
  ret Created.

(** [name if name != None else coro.__name__]. *)
Definition task_name (coro : coro_fn) (name : option string) : string :=
  match name with Some n => n | None => co_name coro end.

Definition create_task (coro : coro_fn) (name : option string)
    (module : option string) (recreate : bool)
    (coro_args : option (list Z)) (coro_kwargs : option (list (string * Z)))
    : T create_result :=
  let name := task_name coro name in
  match module with
  | Some m =>
      s <- get ;;
      if negb (dict_mem m (taskstore s))
      then put (with_store (dict_set m (EScope []) (taskstore s)) s)
      else ret tt
  | None => ret tt
  end ;;;
  ts <- resolve_ts module ;;
  try_except
    (present <- ts_contains ts name ;;
     if present then
       if recreate then
         (e <- ts_get ts name ;; entry_cancel e) ;;;
         install coro name ts coro_args coro_kwargs
       else ret (AlreadyExists (exists_message name))
     else install coro name ts coro_args coro_kwargs)
    (fun e => ret (Failed e)).

(** [retrieve_task]: the bare [except] turns every failure into [None]. *)
Definition retrieve_task (name : string) (module : option string)
    : T (option entry) :=
  try_except
    (ts <- resolve_ts module ;; e <- ts_get ts name ;; ret (Some e))
    (fun _ => ret None).

(** A [for k in self._taskstore] loop whose body may delete from the
    dict.  [ks] are the keys still to visit and [n0] the size of the dict
    when the loop began.  Where the interpreter checks ([strict_iter]), a
    changed size is a [RuntimeError] at the next step, the final one
    included; where it does not, a key that is gone is passed over. *)
Fixpoint for_keys {A : Type} (n0 : nat) (ks : list string)
    (body : string -> A -> T A) (acc : A) : T A :=
  s <- get ;;
  if strict_iter s && negb (Nat.eqb (List.length (taskstore s)) n0)
  then raise RuntimeError
  else
    match ks with
    | [] => ret acc
    | k :: ks' =>
        if dict_mem k (taskstore s)
        then acc' <- body k acc ;; for_keys n0 ks' body acc'
        else for_keys n0 ks' body acc
    end.

Definition for_taskstore {A : Type} (body : string -> A -> T A) (acc : A)
    : T A :=
  s <- get ;;
  for_keys (List.length (taskstore s)) (dict_keys (taskstore s)) body acc.

(** [self.retrieve_all_tasks(d)], [self.cancel_all_tasks(d)] and
    [self.delete_all_tasks(d)]: these methods take no parameter besides
    [self], so the call with one more positional argument is a
    [TypeError] before the body runs. *)
Definition surplus_argument {A : Type} (d : dict string task_id) : T A :=
  raise TypeError.

(** The body of the loop of [retrieve_all_tasks]; [l] is the list built
    so far. *)
Definition retrieve_all_step (task : string) (l : list string)
    : T (list string) :=
  e <- subscript task ;;
  match e with
  | EScope d => sub <- surplus_argument d ;; ret (l ++ sub)%list
  | ETask _ => ret (l ++ [task])%list
  end.

Definition retrieve_all_tasks : T (option (list string)) :=
  try_except
    (l <- for_taskstore retrieve_all_step [] ;; ret (Some l))
    (fun _ => ret None).

Definition cancel_task (name : string) (module : option string) : T bool :=
  try_except
    (ts <- resolve_ts module ;;
     e <- ts_get ts name ;;
     entry_cancel e ;;;
     ret true)
    (fun _ => ret false).

(** The body of the loop of [cancel_all_tasks]. *)
Definition cancel_all_step (task : string) (_ : unit) : T unit :=
  e <- subscript task ;;
  match e with
  | EScope d => surplus_argument d
  | ETask t => cancel t
  end.

Definition cancel_all_tasks : T bool :=
  try_except
    (for_taskstore cancel_all_step tt ;;; ret true)
    (fun _ => ret false).

Definition delete_task (name : string) (module : option string) : T bool :=
  try_except
    (cancel_task name module ;;;
     ts <- resolve_ts module ;;
     ts_del ts name ;;;
     ret true)
    (fun _ => ret false).

(** The body of the loop of [delete_all_tasks]. *)
Definition delete_all_step (task : string) (_ : unit) : T unit :=
  e <- subscript task ;;
  match e with
  | EScope d => surplus_argument d
  | ETask _ =>
      cancel_task task None ;;;
      ts_del TsTop task
  end.

Definition delete_all_tasks : T bool :=
  try_except
    (for_taskstore delete_all_step tt ;;; ret true)
    (fun _ => ret false).

Definition init (strict : bool) (cur : option task_id) : state :=
  {| taskstore := []; cancel_log := []; spawn_log := [];
     cur_task := cur; strict_iter := strict |}.

(** A computation that never unbinds the key [m] of the store. *)
Definition keeps {A} (m : string) (c : T A) : Prop :=
  forall s, dict_mem m (taskstore s) = true ->
            dict_mem m (taskstore (snd (c s))) = true.

(** A coroutine function without parameters, and the store after
    [create_task(blink, "blink", module="led", coro_args=[], coro_kwargs={})]
    on a fresh one. *)
Definition blink_coro : coro_fn :=
  {| co_id := 0; co_name := "blink";
     co_accepts := fun a kw => match a, kw with [], [] => true | _, _ => false end |}.

Definition led_store : state :=
  snd (create_task blink_coro (Some "blink") (Some "led") false
         (Some []) (Some []) (init false None)).

(** ** Further operations of the registry *)

(** [retrieve_all_module_tasks]: [self._taskstore[module].keys()]; a task
    has no method [keys]. *)
Definition retrieve_all_module_tasks (module : string)
    : T (option (list string)) :=
  try_except
    (e <- subscript module ;;
     match e with
     | EScope d => ret (Some (dict_keys d))
     | ETask _ => raise AttributeError
     end)
    (fun _ => ret None).

(** The tasks that a store of the global scope holds, in order. *)
Fixpoint tasks_of (d : dict string entry) : list task_id :=
  match d with
  | [] => []
  | (_, ETask t) :: d' => t :: tasks_of d'
  | (_, EScope _) :: d' => tasks_of d'
  end.

(** A store without modules. *)
Definition flat (d : dict string entry) : Prop :=
  forall k e, In (k, e) d -> exists t, e = ETask t.

(** The reference that [module] resolves to when it names no task. *)
Definition ts_of (module : option string) : ts_ref :=
  match module with None => TsTop | Some m => TsScope m end.

(** What the [try] of [create_task] has done, from the heap [s], when it
    ends with the result [r] on the heap [s']: after [True] there is one
    more task, stored under the name, and the task stored before, if any,
    has been asked to stop; after another result no task has been created
    and the store is the same; the [try] does not raise. *)
Definition created_post (coro : coro_fn) (n : string) (module : option string)
    (recreate : bool) (coro_args : option (list Z))
    (coro_kwargs : option (list (string * Z)))
    (s : state) (r : result create_result) (s' : state) : Prop :=
  match r with
  | Ret Created =>
      (exists a kw, coro_args = Some a /\ coro_kwargs = Some kw
                    /\ co_accepts coro a kw = true)
      /\ spawn_log s' = (List.length (spawn_log s), co_id coro) :: spawn_log s
      /\ ts_get (ts_of module) n s'
         = (Ret (ETask (List.length (spawn_log s))), s')
      /\ (cancel_log s' = cancel_log s
          \/ exists t, recreate = true
                       /\ ts_get (ts_of module) n s = (Ret (ETask t), s)
                       /\ cancel_log s' = t :: cancel_log s)
  | Ret _ => spawn_log s' = spawn_log s /\ taskstore s' = taskstore s
  | Raise _ => False
  end.

(** The store after two [create_task] calls without a module, for the
    names ["blink"] and ["fade"]. *)
Definition global_store (strict : bool) : state :=
  snd (create_task blink_coro (Some "fade") None false (Some []) (Some [])
         (snd (create_task blink_coro (Some "blink") None false
                 (Some []) (Some []) (init strict None)))).

End TaskStore.

(* ===================================================================== *)
(** * components/EventStore.py *)
(* ===================================================================== *)

Module EventStore.

(** What the code uses as a dict key or subscript: a string (module and
    event names), an integer (the subscripts [0] and [1]), or an object
    hashed by identity (an [asyncio.Event] passed as a key). *)
Inductive pykey : Type :=
| KStr (s : string)
| KInt (z : Z)
| KObj (id : nat).

Definition pykey_eqb (a b : pykey) : bool :=
  match a, b with
  | KStr x, KStr y => String.eqb x y
  | KInt x, KInt y => Z.eqb x y
  | KObj x, KObj y => Nat.eqb x y
  | _, _ => false
  end.

#[global] Instance EqKey_pykey : EqKey pykey := {| keq := pykey_eqb |}.

(** A subscriber: a plain callable, which runs when called and may raise,
    or a coroutine function, whose call only builds a coroutine object. *)
Inductive action_kind : Type :=
| Plain (raises : option exn)
| Coro.

Record action : Type := {
  act_id : nat;
  act_kind : action_kind
}.

(** The tuple [(asyncio.Event(), [])] stored for an event: the flag of
    the [Event] and the subscriber list. *)
Record event_rec : Type := {
  is_set : bool;
  subscribers : list action
}.

(** [module: str | object]: a string, or an object carrying [__name__]. *)
Inductive module_ref : Type :=
| ModStr (s : string)
| ModObj (name : string).

(** [module if isinstance(module, str) else module.__name__]. *)
Definition module_name (m : module_ref) : string :=
  match m with ModStr s => s | ModObj n => n end.

(** What the parent in [self._app] offers: nothing is set ([None]), or an
    object with or without an attribute [taskstore]. *)
Inductive app_ref : Type :=
| NoApp
| App (has_taskstore : bool).

(** The heap: the store, the parent, and the log of the subscribers that
    were called (latest first). *)
Record state : Type := {
  eventstore : dict pykey (dict pykey event_rec);
  app : app_ref;
  invoked : list nat
}.

Definition with_store (d : dict pykey (dict pykey event_rec)) (s : state)
    : state :=
  {| eventstore := d; app := app s; invoked := invoked s |}.

Definition E (A : Type) : Type := M state A.

(** [self._eventstore[k]] and [scope[k]]. *)
Definition subscript (k : pykey) : E (dict pykey event_rec) :=
  s <- get ;; or_raise KeyError (dict_get k (eventstore s)).

Definition scope_subscript (k : pykey) (scope : dict pykey event_rec)
    : E event_rec :=
  or_raise KeyError (dict_get k scope).

(** [self._eventstore[module][name] = v], through the reference to the
    module's dict. *)
Definition store_event (module name : pykey) (v : event_rec) : E unit :=
  scope <- subscript module ;;
  s <- get ;;
  put (with_store (dict_set module (dict_set name v scope) (eventstore s)) s).

Definition create_event (module : module_ref) (name : string) : E bool :=
  let module := KStr (module_name module) in
  try_except
    (s <- get ;;
     (if negb (dict_mem module (eventstore s))
      then put (with_store (dict_set module [] (eventstore s)) s)
      else ret tt) ;;;
     scope <- subscript module ;;
     if dict_mem (KStr name) scope then ret false
     else store_event module (KStr name)
            {| is_set := false; subscribers := [] |} ;;;
          ret true)
    (fun _ => ret false).

(** [retrieve_event] returns the [Event] object; its flag stands for it. *)
Definition retrieve_event (module : module_ref) (name : string)
    : E (option bool) :=
  let module := KStr (module_name module) in
  try_except
    (scope <- subscript module ;;
     ev <- scope_subscript (KStr name) scope ;;
     ret (Some (is_set ev)))
    (fun _ => ret None).

Definition retrieve_all_module_events (module : module_ref)
    : E (option (list pykey)) :=
  let module := KStr (module_name module) in
  try_except
    (scope <- subscript module ;; ret (Some (dict_keys scope)))
    (fun _ => ret None).

(** [l.apppend(x)]: a list has no attribute of that name. *)
Definition list_apppend {A : Type} (l : list A) (x : A) : E (list A) :=
  raise AttributeError.

Fixpoint for_each {A B : Type} (xs : list A) (body : A -> B -> E B)
    (acc : B) : E B :=
  match xs with
  | [] => ret acc
  | x :: xs' => acc' <- body x acc ;; for_each xs' body acc'
  end.

Definition retrieve_all_events : E (option (list pykey)) :=
  try_except
    (s <- get ;;
     l <- for_each (dict_keys (eventstore s))
            (fun module l =>
               scope <- subscript module ;;
               for_each (dict_keys scope)
                 (fun event_tuple l => list_apppend l event_tuple) l) [] ;;
     ret (Some l))
    (fun _ => ret None).

(** [t.set()] where [t] is a tuple: a tuple has no such method. *)
Definition tuple_set (t : event_rec) : E unit := raise AttributeError.

Definition set_event (module : module_ref) (name : string) : E bool :=
  let module := KStr (module_name module) in
  try_except
    (scope <- subscript (KStr name) ;;
     t <- scope_subscript (KInt 0) scope ;;
     tuple_set t ;;;
     ret true)
    (fun _ => ret false).

Definition clear_event (module : module_ref) (name : string) : E bool :=
  let module := KStr (module_name module) in
  try_except
    (scope <- subscript module ;;
     ev <- scope_subscript (KStr name) scope ;;
     store_event module (KStr name)
       {| is_set := false; subscribers := subscribers ev |} ;;;
     ret true)
    (fun _ => ret false).

Definition delete_event (module : module_ref) (name : string) : E bool :=
  let module := KStr (module_name module) in
  try_except
    (scope <- subscript module ;;
     if dict_mem (KStr name) scope
     then s <- get ;;
          put (with_store
                 (dict_set module (dict_del (KStr name) scope) (eventstore s))
                 s) ;;;
          ret true
     else raise KeyError)
    (fun _ => ret false).

Definition subscribe_task (module : module_ref) (name : string)
    (task : action) : E bool :=
  let module := KStr (module_name module) in
  try_except
    (scope <- subscript module ;;
     ev <- scope_subscript (KStr name) scope ;;
     store_event module (KStr name)
       {| is_set := is_set ev; subscribers := subscribers ev ++ [task] |} ;;;
     ret true)
    (fun _ => ret false).

(** [list.remove(x)]: drops the first element equal to [x], or raises
    [ValueError]. *)
Fixpoint list_remove (x : action) (l : list action) : option (list action) :=
  match l with
  | [] => None
  | y :: l' =>
      if Nat.eqb (act_id x) (act_id y) then Some l'
      else match list_remove x l' with
           | Some r => Some (y :: r)
           | None => None
           end
  end.

Definition unsubscribe_task (module : module_ref) (name : string)
    (task : action) : E bool :=
  let module := KStr (module_name module) in
  try_except
    (scope <- subscript module ;;
     ev <- scope_subscript (KStr name) scope ;;
     l <- or_raise ValueError (list_remove task (subscribers ev)) ;;
     store_event module (KStr name)
       {| is_set := is_set ev; subscribers := l |} ;;;
     ret true)
    (fun _ => ret false).

(** What the loop variable [task] of [execute_subscribers] can be bound
    to.  The loop runs over [self._eventstore[event][1]], an element of a
    module's dict, that is a tuple: its items are the [Event] and the
    list.  [OAct] is a subscriber itself. *)
Inductive pyobj : Type :=
| OEvent (flag : bool)
| OList (l : list action)
| OAct (a : action).

Definition tuple_items (t : event_rec) : list pyobj :=
  [OEvent (is_set t); OList (subscribers t)].

(** [task()]: only a subscriber is callable; the call is logged. *)
Definition call (task : pyobj) : E pyval :=
  match task with
  | OAct a =>
      fun s =>
        let s' := {| eventstore := eventstore s; app := app s;
                     invoked := act_id a :: invoked s |} in
        match act_kind a with
        | Plain (Some e) => (Raise e, s')
        | Plain None => (Ret VNone, s')
        | Coro => (Ret (VCoroutine (act_id a)), s')
        end
  | OEvent _ | OList _ => raise TypeError
  end.

(** [self.app.taskstore.create_task(task)]: [self.app] may be [None] or
    lack the attribute; [create_task] requires [name] as well. *)
Definition app_taskstore_create_task (task : pyobj) : E unit :=
  s <- get ;;
  match app s with
  | NoApp => raise AttributeError
  | App false => raise AttributeError
  | App true => raise TypeError
  end.

(** The body of the [for] loop, for one [task]. *)
Definition run_subscriber (task : pyobj) (_ : unit) : E unit :=
  v <- call task ;;
  b <- isinstance v (NotAClass (VCoroutine 0)) ;;
  if b then app_taskstore_create_task task
  else (call task ;;; ret tt).

(** The [for] loop over the items, and the [return True] after it. *)
Definition subscribers_loop (items : list pyobj) : E bool :=
  for_each items run_subscriber tt ;;;
  ret true.

(** The [try] block of [execute_subscribers]. *)
Definition execute_subscribers_try (event : pykey) : E bool :=
  scope <- subscript event ;;
  t <- scope_subscript (KInt 1) scope ;;
  subscribers_loop (tuple_items t).

(** [try: ... except Exception as e: raise e]. *)
Definition execute_subscribers (event : pykey) : E bool :=
  try_except (execute_subscribers_try event) (fun e => raise e).

Definition init : state :=
  {| eventstore := []; app := NoApp; invoked := [] |}.

(** Two subscribers, the first of which raises, and the store after
    [create_event("wifi", "connected")] and the subscription of both. *)
Definition failing_sub : action :=
  {| act_id := 1; act_kind := Plain (Some ValueError) |}.

Definition logging_sub : action :=
  {| act_id := 2; act_kind := Plain None |}.

Definition wifi_events : state :=
  snd (subscribe_task (ModStr "wifi") "connected" logging_sub
         (snd (subscribe_task (ModStr "wifi") "connected" failing_sub
                 (snd (create_event (ModStr "wifi") "connected" init))))).



(** ** Observations of the store *)

(** The tuple stored for the event [name] of [module], if there is one:
    [self._eventstore[module][name]]. *)
Definition lookup (module name : string) (s : state) : option event_rec :=
  match dict_get (KStr module) (eventstore s) with
  | Some scope => dict_get (KStr name) scope
  | None => None
  end.

(** No event of the store has its flag up. *)
Definition all_clear (s : state) : Prop :=
  forall m scope n ev,
    In (m, scope) (eventstore s) -> In (n, ev) scope -> is_set ev = false.

(** Whether the action [a] is among [l]; actions are compared as
    [list.remove] compares them. *)
Definition subscribed (a : action) (l : list action) : bool :=
  existsb (fun b => Nat.eqb (act_id a) (act_id b)) l.

End EventStore.

(* ===================================================================== *)
(** * The clock and the scheduler, as the drivers see them *)
(* ===================================================================== *)

Module Clock.
Local Open Scope Z_scope.

(** Milliseconds since boot.  [time.ticks_ms()] reads it and
    [time.ticks_diff] is the wrap-around-safe difference of two readings,
    which for the spans met here is their difference. *)
Definition ticks_diff (a b : Z) : Z := a - b.

(** [await asyncio.sleep_ms(ms)] and [await asyncio.sleep(s)] give the
    processor away for the stated time (no time at all when the argument
    is not positive); the scheduler resumes the task when it has passed. *)
Definition after_sleep_ms (ms : Z) (now : Z) : Z := now + Z.max 0 ms.
Definition after_sleep (secs : Z) (now : Z) : Z := now + Z.max 0 (secs * 1000).

End Clock.

(* ===================================================================== *)
(** * drivers/NTPTime.py *)
(* ===================================================================== *)

Module NTPTime.
Local Open Scope Z_scope.

(** The private fields of the driver that the watchdog reads and writes. *)
Record driver : Type := {
  last_sync : Z;
  initial_sync : bool;
  sync_interval : Z;
  ntp_timeout : Z;
  max_retries : Z;
  status_code : Z
}.

(** [NTPTime.__init__], after the configuration has been read. *)
Definition new (ntp_sync_interval ntp_timeout ntp_max_retries : Z) : driver :=
  {| last_sync := 0; initial_sync := false;
     sync_interval := ntp_sync_interval; ntp_timeout := ntp_timeout;
     max_retries := ntp_max_retries; status_code := 0 |}.

(** The time source: whether the [k]-th call of [ntptime.settime()] raises
    and how long it takes.  Logging and the formatting of the next sync
    time are taken to succeed. *)
Record env : Type := {
  settime_raises : nat -> option exn;
  settime_ms : nat -> Z
}.

(** The world outside the driver: the clock, the number of calls of
    [ntptime.settime()] made so far, and the module attribute
    [ntptime.timeout]. *)
Record world : Type := {
  now : Z;
  calls : nat;
  ntptime_timeout : Z
}.

Definition sleep (secs : Z) (w : world) : world :=
  {| now := Clock.after_sleep secs (now w); calls := calls w;
     ntptime_timeout := ntptime_timeout w |}.

Definition sleep_ms (ms : Z) (w : world) : world :=
  {| now := Clock.after_sleep_ms ms (now w); calls := calls w;
     ntptime_timeout := ntptime_timeout w |}.

Section Driver.
Variable ntp : env.

(** [ntptime.timeout = self._ntp_timeout; ntptime.settime()]. *)
Definition settime (d : driver) (w : world) : option exn * world :=
  (settime_raises ntp (calls w),
   {| now := now w + Z.max 0 (settime_ms ntp (calls w));
      calls := S (calls w);
      ntptime_timeout := ntp_timeout d |}).

(** [sync_time(failures)].  The result is what the coroutine returns:
    [Some true], [Some false], or [None] for the call that retried (its
    [except] branch ends without a [return]).  [fuel] bounds the depth of
    the recursion; the outer [None] means that it did not suffice. *)
Fixpoint sync_time (fuel : nat) (failures : Z) (d : driver) (w : world)
    : option (option bool * driver * world) :=
  let d0 := {| last_sync := last_sync d; initial_sync := true;
               sync_interval := sync_interval d; ntp_timeout := ntp_timeout d;
               max_retries := max_retries d; status_code := status_code d |} in
  match settime d0 w with
  | (None, w1) =>
      Some (Some true,
            {| last_sync := now w1; initial_sync := true;
               sync_interval := sync_interval d; ntp_timeout := ntp_timeout d;
               max_retries := max_retries d; status_code := 1 |},
            w1)
  | (Some e, w1) =>
      if failures <? max_retries d0 - 1 then
        match fuel with
        | O => None
        | S fuel' =>
            match sync_time fuel' (failures + 1) d0 (sleep 5 w1) with
            | Some (_, d2, w2) => Some (None, d2, w2)
            | None => None
            end
        end
      else
        Some (Some false,
              {| last_sync := now w1; initial_sync := true;
                 sync_interval := sync_interval d; ntp_timeout := ntp_timeout d;
                 max_retries := max_retries d; status_code := 2 |},
              w1)
  end.

(** Recursion depth that [sync_time] needs from [failures] on. *)
Definition sync_fuel (d : driver) (failures : Z) : nat :=
  Z.to_nat (max_retries d - 1 - failures).

(** The test of the watchdog loop [_run]. *)
Definition sync_due (d : driver) (w : world) : bool :=
  negb (initial_sync d)
  || (Clock.ticks_diff (now w) (last_sync d) >? sync_interval d * 1000).

(** One turn of the [while True] loop of [_run]. *)
Definition run_iter (d : driver) (w : world) : option (driver * world) :=
  if sync_due d w then
    match sync_time (sync_fuel d 0) 0 d w with
    | Some (_, d', w') => Some (d', sleep_ms 100 w')
    | None => None
    end
  else Some (d, sleep_ms 100 w).

End Driver.

(** A time source that cannot be reached: every call of
    [ntptime.settime()] raises [OSError] after ten seconds. *)
Definition unreachable : env :=
  {| settime_raises := fun _ => Some OSError; settime_ms := fun _ => 10000 |}.

(** The driver with the defaults of its constructor, and the world one
    second after boot. *)
Definition default : driver := new 86400 10 5.

Definition boot : world := {| now := 1000; calls := 0; ntptime_timeout := 1 |}.

(** [n] turns of the loop of [_run]. *)
Fixpoint run (ntp : env) (n : nat) (d : driver) (w : world)
    : option (driver * world) :=
  match n with
  | O => Some (d, w)
  | S n' =>
      match run_iter ntp d w with
      | Some (d1, w1) => run ntp n' d1 w1
      | None => None
      end
  end.

(** A time source that answers from the third call on. *)
Definition flaky : env :=
  {| settime_raises := fun k => if (k <? 2)%nat then Some OSError else None;
     settime_ms := fun _ => 2000 |}.

End NTPTime.

(* ===================================================================== *)
(** * drivers/Wifi.py *)
(* ===================================================================== *)

Module Wifi.
Local Open Scope Z_scope.

(** The private fields of the driver that the station watchdog uses. *)
Record driver : Type := {
  was_connected : bool;
  retry_interval : Z;
  timeout : Z;
  max_failures : Z;
  backoff_interval : Z;
  status_code : Z
}.

(** [WifiDriver.__init__] in station mode, after the configuration. *)
Definition new (retry_interval timeout max_failures backoff_interval : Z)
    : driver :=
  {| was_connected := false; retry_interval := retry_interval;
     timeout := timeout; max_failures := max_failures;
     backoff_interval := backoff_interval; status_code := 0 |}.

Definition set_status (code : Z) (d : driver) : driver :=
  {| was_connected := was_connected d; retry_interval := retry_interval d;
     timeout := timeout d; max_failures := max_failures d;
     backoff_interval := backoff_interval d; status_code := code |}.

Definition set_connected (d : driver) : driver :=
  {| was_connected := true; retry_interval := retry_interval d;
     timeout := timeout d; max_failures := max_failures d;
     backoff_interval := backoff_interval d; status_code := 1 |}.

(** What an observer of the driver sees, with the time of each: a call of
    [sta_if.connect] (the start of a connection attempt) and a write of the
    exported status code. *)
Inductive event : Type :=
| Attempt (at_ms : Z)
| Status (at_ms : Z) (code : Z).

(** The world outside the driver: the clock and the events so far, latest
    first. *)
Record world : Type := {
  now : Z;
  trace : list event
}.

Definition sleep_ms (ms : Z) (w : world) : world :=
  {| now := Clock.after_sleep_ms ms (now w); trace := trace w |}.

Definition sleep (secs : Z) (w : world) : world :=
  {| now := Clock.after_sleep secs (now w); trace := trace w |}.

Definition emit (e : event) (w : world) : world :=
  {| now := now w; trace := e :: trace w |}.

Section Driver.
(** The interface: what [isconnected()] answers at a given time. *)
Variable isconnected : Z -> bool.

(** The polling loop of [_do_connect]; [fuel] bounds its turns. *)
Fixpoint wait_connected (fuel : nat) (start : Z) (d : driver) (w : world)
    : option world :=
  if negb (isconnected (now w))
     && (Clock.ticks_diff (now w) start <? timeout d * 1000)
  then
    match fuel with
    | O => None
    | S fuel' => wait_connected fuel' start d (sleep_ms 100 w)
    end
  else Some w.

(** Turns that the polling loop can take: the clock advances by 100 ms in
    each. *)
Definition wait_fuel (d : driver) : nat := S (Z.to_nat (timeout d * 10)).

Definition do_connect (d : driver) (w : world)
    : option (result unit * driver * world) :=
  let start := now w in
  match wait_connected (wait_fuel d) start d (emit (Attempt start) w) with
  | None => None
  | Some w1 =>
      if Clock.ticks_diff (now w1) start >=? timeout d * 1000
      then Some (Raise (Exception_ "Connection timed out"), d, w1)
      else Some (Ret tt, set_connected d, emit (Status (now w1) 1) w1)
  end.

(** [connect(failures)]; the result is as for [NTPTime.sync_time]. *)
Fixpoint connect (fuel : nat) (failures : Z) (d : driver) (w : world)
    : option (option bool * driver * world) :=
  match do_connect d w with
  | None => None
  | Some (Ret _, d1, w1) => Some (Some true, d1, w1)
  | Some (Raise e, d1, w1) =>
      if failures <? max_failures d1 then
        match fuel with
        | O => None
        | S fuel' =>
            match connect fuel' (failures + 1) d1
                    (sleep (retry_interval d1) w1) with
            | Some (_, d2, w2) => Some (None, d2, w2)
            | None => None
            end
        end
      else
        Some (Some false, set_status 2 d1,
              sleep (backoff_interval d1) (emit (Status (now w1) 2) w1))
  end.

(** Recursion depth that [connect] needs from [failures] on. *)
Definition connect_fuel (d : driver) (failures : Z) : nat :=
  Z.to_nat (max_failures d - failures).

(** One turn of the [while True] loop of [_wifi_watchdog]. *)
Definition watchdog_iter (d : driver) (w : world) : option (driver * world) :=
  match
    (if negb (isconnected (now w))
     then match connect (connect_fuel d 0) 0 d w with
          | Some (_, d1, w1) => Some (d1, w1)
          | None => None
          end
     else Some (d, w))
  with
  | None => None
  | Some (d1, w1) =>
      let (d2, w2) :=
        if isconnected (now w1) && negb (was_connected d1)
        then (set_connected d1, emit (Status (now w1) 1) w1)
        else (d1, w1) in
      Some (d2, sleep_ms 100 w2)
  end.

(** [n] turns of the watchdog loop. *)
Fixpoint watchdog (n : nat) (d : driver) (w : world) : option (driver * world) :=
  match n with
  | O => Some (d, w)
  | S n' =>
      match watchdog_iter d w with
      | Some (d1, w1) => watchdog n' d1 w1
      | None => None
      end
  end.

End Driver.

(** The attempts and the status writes of a trace, oldest first. *)
Definition history (w : world) : list event := rev (trace w).

Definition is_attempt (e : event) : bool :=
  match e with Attempt _ => true | Status _ _ => false end.

Definition attempts (tr : list event) : nat :=
  List.length (filter is_attempt tr).

(** An interface that never associates, the driver with the defaults of
    its constructor, and the world at boot. *)
Definition down (t : Z) : bool := false.

Definition default : driver := new 5 10 5 300.

Definition boot : world := {| now := 0; trace := [] |}.

(** An interface that associates three seconds after boot, and one that
    is associated throughout. *)
Definition up_after_3s (t : Z) : bool := 3000 <=? t.

Definition up (t : Z) : bool := true.

End Wifi.

(* ===================================================================== *)
(** * drivers/StatusLED.py *)
(* ===================================================================== *)

Module StatusLED.

(** The methods of the driver that serve as effects. *)
Inductive effect_fn : Type :=
| FOff
| FOn
| FBlink
| FBreathe.

(** [getattr(self, effect)] for the names of the four methods that serve
    as effects, the only names that the engine passes (those of the table
    below).  The other attributes of the driver ([set], [deinit], [pwm],
    [get_duty], ...) are not embedded: [None] is right for a name that is
    no attribute, and nothing below is stated about [set] with a name
    outside the four. *)
Definition getattr_effect (effect : string) : option effect_fn :=
  if String.eqb effect "off" then Some FOff
  else if String.eqb effect "on" then Some FOn
  else if String.eqb effect "blink" then Some FBlink
  else if String.eqb effect "breathe" then Some FBreathe
  else None.

(** The parameters of each effect after [self]; all have defaults. *)
Definition params (f : effect_fn) : list string :=
  match f with
  | FOff | FOn => []
  | FBreathe => ["steps"]
  | FBlink =>
      ["flashes"; "flash_duration"; "flash_interval"; "pause_duration"; "loop"]
  end.

(** Whether [f( *args, **kwargs)] binds: no surplus positional argument,
    and every keyword names a parameter that no positional argument has
    filled. *)
Definition accepts (f : effect_fn) (args : list Z) (kwargs : list (string * Z))
    : bool :=
  (List.length args <=? List.length (params f))%nat
  && forallb (fun kw => existsb (String.eqb (fst kw))
                          (skipn (List.length args) (params f))) kwargs.

(** A row of the table: effect name, positional and keyword arguments
    ([True] is written 1). *)
Record descriptor : Type := {
  eff_name : string;
  eff_args : list Z;
  eff_kwargs : list (string * Z)
}.

Definition StatusCodes : dict string descriptor :=
  [ ("0", {| eff_name := "off"; eff_args := []; eff_kwargs := [] |});
    ("1", {| eff_name := "blink"; eff_args := [2; 300; 200; 1000]%Z;
             eff_kwargs := [("loop", 1%Z)] |});
    ("2", {| eff_name := "breathe"; eff_args := [];
             eff_kwargs := [("steps", 4%Z)] |});
    ("3", {| eff_name := "blink"; eff_args := [3; 300; 200; 500]%Z;
             eff_kwargs := [("loop", 1%Z)] |}) ].

(** [str(n)] for an integer. *)
Definition str (n : Z) : string := DecimalString.NilZero.string_of_int (Z.to_int n).

(** What the driver does that can be seen from outside, in order: a
    cancellation request to an effect task, the creation of an effect task,
    a write of the duty cycle. *)
Inductive event : Type :=
| Cancel (t : nat)
| Spawn (t : nat) (f : effect_fn)
| Duty (duty : Z).

(** The driver: [_status_code], [_current_task], the events so far (latest
    first) and the number of tasks created. *)
Record led : Type := {
  status_code : Z;
  current_task : option nat;
  trace : list event;
  spawned : nat
}.

Definition L (A : Type) : Type := M led A.

Definition emit (e : event) : L unit :=
  fun s => (Ret tt, {| status_code := status_code s;
                       current_task := current_task s;
                       trace := e :: trace s;
                       spawned := spawned s |}).

Definition set_current (c : option nat) : L unit :=
  fun s => (Ret tt, {| status_code := status_code s;
                       current_task := c;
                       trace := trace s;
                       spawned := spawned s |}).

Definition set_status_code (code : Z) : L unit :=
  fun s => (Ret tt, {| status_code := code;
                       current_task := current_task s;
                       trace := trace s;
                       spawned := spawned s |}).

(** [f( *args, **kwargs)]: [off] and [on] run at once and return [None];
    [blink] and [breathe] are coroutine functions, the call builds a
    coroutine object and runs nothing. *)
Definition call_effect (f : effect_fn) (args : list Z)
    (kwargs : list (string * Z)) : L pyval :=
  if accepts f args kwargs then
    match f with
    | FOff => emit (Duty 0) ;;; ret VNone
    | FOn => emit (Duty 1023) ;;; ret VNone
    | FBlink => ret (VCoroutine 0)
    | FBreathe => ret (VCoroutine 1)
    end
  else raise TypeError.

(** [asyncio.create_task(v)]: a coroutine becomes a new task; anything
    else is refused. *)
Definition asyncio_create_task (v : pyval) (f : effect_fn) : L nat :=
  match v with
  | VCoroutine _ =>
      fun s => (Ret (spawned s),
                {| status_code := status_code s;
                   current_task := current_task s;
                   trace := Spawn (spawned s) f :: trace s;
                   spawned := S (spawned s) |})
  | VNone => raise TypeError
  end.

Section Driver.
(** [utilities.type_coro], the second argument of [isinstance] in [set]. *)
Variable tc : classinfo.

Definition set (effect : string) (args : list Z) (kwargs : list (string * Z))
    : L unit :=
  s <- get ;;
  match current_task s with
  | Some t => emit (Cancel t)
  | None => set_current None
  end ;;;
  f <- or_raise ValueError (getattr_effect effect) ;;
  func <- call_effect f args kwargs ;;
  b <- isinstance func tc ;;
  if b then
    c <- call_effect f args kwargs ;;
    t <- asyncio_create_task c f ;;
    set_current (Some t)
  else ret tt.

(** One turn of the [while True] loop of [_check_status_code], in which the
    shared status code reads [code]. *)
Definition check_status_code (code : Z) : L unit :=
  s <- get ;;
  if negb (Z.eqb (status_code s) code) then
    set_status_code code ;;;
    row <- or_raise KeyError (dict_get (str code) StatusCodes) ;;
    set (eff_name row) (eff_args row) (eff_kwargs row)
  else ret tt.

(** The loop, for the successive readings [codes] of the shared status
    code; an exception ends the task. *)
Fixpoint engine (codes : list Z) : L unit :=
  match codes with
  | [] => ret tt
  | code :: codes' => check_status_code code ;;; engine codes'
  end.

End Driver.

(** [StatusLED.__init__] when the shared status code reads [code]. *)
Definition new (code : Z) : led :=
  {| status_code := code; current_task := None; trace := []; spawned := 0 |}.

(** The effect tasks that have been created and not been asked to stop,
    after the events [tr] (latest first). *)
Fixpoint live (tr : list event) : list nat :=
  match tr with
  | [] => []
  | Spawn t _ :: tr' => t :: live tr'
  | Cancel t :: tr' => filter (fun u => negb (Nat.eqb u t)) (live tr')
  | Duty _ :: tr' => live tr'
  end.

(** [p] is a point in the history [tr]: the events up to some moment. *)
Definition point_of (p tr : list event) : Prop := exists later, tr = (later ++ p)%list.

(** Through the whole history [tr] at most one effect task is live, and
    each effect task was created when none was. *)
Fixpoint one_at_a_time (tr : list event) : Prop :=
  match tr with
  | [] => True
  | e :: tr' =>
      (List.length (live (e :: tr')) <= 1)%nat
      /\ match e with
         | Spawn _ _ => live tr' = []
         | Cancel _ | Duty _ => True
         end
      /\ one_at_a_time tr'
  end.

(** What holds between two turns of the engine: the history is as above
    and a live effect task is the one in [_current_task]. *)
Definition consistent (s : led) : Prop :=
  one_at_a_time (trace s)
  /\ forall t, In t (live (trace s)) -> current_task s = Some t.

(** What holds inside [set] once the old effect has been asked to stop. *)
Definition quiet (s : led) : Prop :=
  one_at_a_time (trace s) /\ live (trace s) = [].

(** Through the whole history [tr], each effect was established, by the
    creation of its task or by a write of the duty cycle, at a point where
    no effect task was live. *)
Fixpoint established_after_stop (tr : list event) : Prop :=
  match tr with
  | [] => True
  | e :: tr' =>
      match e with
      | Spawn _ _ | Duty _ => live tr' = []
      | Cancel _ => True
      end
      /\ established_after_stop tr'
  end.

(** [consistent] and [quiet], with the history as above. *)
Definition consistent_stop (s : led) : Prop :=
  consistent s /\ established_after_stop (trace s).

Definition quiet_stop (s : led) : Prop :=
  quiet s /\ established_after_stop (trace s).

(** The class of coroutine objects. *)
Definition type_coro : classinfo :=
  Cls (fun v => match v with VCoroutine _ => true | VNone => false end).

(** ** The breathing effect *)

(** One turn of the [while True] loop of [breathe], on the duty cycle that
    [self.pwm.duty()] reads and [self.fade_direction]: the direction is set
    at the two ends of the range, the duty cycle moves by [steps] in that
    direction and is kept within the range; the result is the duty cycle
    written and the direction kept. *)
Definition breathe_tick (steps : Z) (st : Z * Z) : Z * Z :=
  let (current_duty, fade_direction) := st in
  let fade_direction :=
    if Z.eqb current_duty 0 then 1%Z
    else if Z.eqb current_duty 1023 then (-1)%Z
    else fade_direction in
  let new_duty := (current_duty + fade_direction * steps)%Z in
  let new_duty :=
    if Z.gtb new_duty 1023 then 1023%Z
    else if Z.ltb new_duty 0 then 0%Z
    else new_duty in
  (new_duty, fade_direction).

(** [n] turns of that loop. *)
Fixpoint breathe_ticks (steps : Z) (n : nat) (st : Z * Z) : Z * Z :=
  match n with
  | O => st
  | S n' => breathe_ticks steps n' (breathe_tick steps st)
  end.

(** The number of turns from one end of the range to the other. *)
Definition half_period (steps : Z) : nat := Z.to_nat ((1023 + steps - 1) / steps).

(** The effect task that the table asks for under a status code: [blink]
    for 1 and 3, [breathe] for 2, none for 0, whose effect [off] runs at
    once. *)
Definition effect_task (code : Z) : option effect_fn :=
  if Z.eqb code 1 then Some FBlink
  else if Z.eqb code 2 then Some FBreathe
  else if Z.eqb code 3 then Some FBlink
  else None.

(** The events of [set] for a row of the table, latest first: the request
    to stop the task in [_current_task], then the new task or the write
    of the duty cycle. *)
Definition set_events (code : Z) (s : led) : list event :=
  (match effect_task code with
   | Some f => [Spawn (spawned s) f]
   | None => [Duty 0]
   end
   ++ match current_task s with
      | Some t => [Cancel t]
      | None => []
      end)%list.

End StatusLED.

(* ===================================================================== *)
(** * components/hardware/Relay.py *)

(** A relay on one output pin or on a group of them. *)

Module Relay.

(** The argument of [Relay]: a [machine.Pin], or a tuple or list of such
    arguments. *)
#[warnings="-register-all"]
Inductive pin : Type :=
| Pin (id : nat)
| Pins (ps : list pin).

(** The levels of the output pins of the board: [pin.value()] reads the
    level that the last [pin.value(x)] wrote. *)
Definition board : Type := nat -> bool.

Definition value (id : nat) (b : board) : bool := b id.

Definition set_value (id : nat) (x : bool) (b : board) : board :=
  fun j => if Nat.eqb j id then x else b j.

(** The relay: [_pin] and [_state], beside the board. *)
Record relay : Type := {
  _pin : pin;
  _state : bool;
  pins : board
}.

Fixpoint _get_pin (b : board) (p : pin) : bool :=
  match p with
  | Pins ps => forallb (_get_pin b) ps
  | Pin id => value id b
  end.

Fixpoint _set_pin (p : pin) (state : bool) (r : relay) : relay :=
  let r := {| _pin := _pin r; _state := state; pins := pins r |} in
  match p with
  | Pins ps => fold_left (fun r p' => _set_pin p' state r) ps r
  | Pin id => {| _pin := _pin r; _state := _state r;
                 pins := set_value id state (pins r) |}
  end.

(** [Relay(pin)] on a board. *)
Definition new (p : pin) (b : board) : relay :=
  {| _pin := p; _state := _get_pin b p; pins := b |}.

Definition on (r : relay) : relay := _set_pin (_pin r) true r.

Definition off (r : relay) : relay := _set_pin (_pin r) false r.

Definition toggle (r : relay) : relay := _set_pin (_pin r) (negb (_state r)) r.

(** The setter of the property [state]. *)
Definition set_state (state : bool) (r : relay) : relay :=
  _set_pin (_pin r) state r.

(** The pins of an argument, in the order in which [_set_pin] drives
    them. *)
Fixpoint leaves (p : pin) : list nat :=
  match p with
  | Pins ps => flat_map leaves ps
  | Pin id => [id]
  end.

(** What [_set_pin] leaves: [_state], [_pin], and the level of each pin of
    the board. *)
Definition driven (p : pin) (state : bool) (r r' : relay) : Prop :=
  _state r' = state
  /\ _pin r' = _pin r
  /\ forall id, pins r' id
                = if existsb (Nat.eqb id) (leaves p) then state else pins r id.

End Relay.

(** * Facts about the Python fragment *)
(* ===================================================================== *)

Module PyFacts.

#[global] Instance EqKeyOk_string : EqKeyOk string.
Proof. exact String.eqb_eq. Qed.

#[global] Instance EqKeyOk_pykey : EqKeyOk EventStore.pykey.
Proof.
  intros a b. destruct a as [x|x|x], b as [y|y|y]; simpl;
    try (split; discriminate).
  - rewrite String.eqb_eq. split; congruence.
  - rewrite Z.eqb_eq. split; congruence.
  - rewrite Nat.eqb_eq. split; congruence.
Qed.

Section DictFacts.
Context {K V : Type} `{EqKeyOk K}.
Implicit Types (k : K) (v : V) (d : dict K V).

Lemma keq_spec k k' : reflect (k = k') (keq k k').
Proof. apply iff_reflect. symmetry. apply keq_iff. Qed.

Lemma keq_refl k : keq k k = true.
Proof. destruct (keq_spec k k); congruence. Qed.

Lemma keq_neq k k' : k <> k' -> keq k k' = false.
Proof. intros N. destruct (keq_spec k k'); congruence. Qed.

Lemma dict_get_set_same k v d : dict_get k (dict_set k v d) = Some v.
Proof.
  induction d as [|[k' v'] d IH]; simpl.
  - now rewrite keq_refl.
  - destruct (keq_spec k k') as [->|N]; simpl.
    + now rewrite keq_refl.
    + now rewrite (keq_neq _ _ N).
Qed.

Lemma dict_get_set_other k k' v d :
  k <> k' -> dict_get k' (dict_set k v d) = dict_get k' d.
Proof.
  intros N. induction d as [|[k0 v0] d IH]; simpl.
  - rewrite keq_neq; congruence.
  - destruct (keq_spec k k0) as [->|N0]; simpl.
    + rewrite keq_neq; congruence.
    + now rewrite IH.
Qed.

Lemma dict_keys_set_present k v d :
  dict_mem k d = true -> dict_keys (dict_set k v d) = dict_keys d.
Proof.
  unfold dict_mem, dict_keys. induction d as [|[k0 v0] d IH]; simpl.
  - discriminate.
  - destruct (keq_spec k k0) as [->|N0]; simpl; intros E.
    + reflexivity.
    + now rewrite IH.
Qed.

Lemma dict_mem_get k d v : dict_get k d = Some v -> dict_mem k d = true.
Proof. unfold dict_mem. now intros ->. Qed.

Lemma dict_get_in_keys k d v : dict_get k d = Some v -> In k (dict_keys d).
Proof.
  unfold dict_keys. induction d as [|[k0 v0] d IH]; simpl; [discriminate|].
  destruct (keq_spec k k0) as [->|N0]; auto.
Qed.

Lemma dict_get_of_key k d : In k (dict_keys d) -> exists v, dict_get k d = Some v.
Proof.
  unfold dict_keys. induction d as [|[k0 v0] d IH]; simpl; [tauto|].
  intros [->|I].
  - rewrite keq_refl. eauto.
  - destruct (keq k k0); eauto.
Qed.

Lemma dict_get_In k d v : dict_get k d = Some v -> In (k, v) d.
Proof.
  induction d as [|[k0 v0] d IH]; simpl; [discriminate|].
  destruct (keq_spec k k0) as [->|N0].
  - intros [= ->]. now left.
  - auto.
Qed.

Lemma dict_get_del_other k k' d :
  k <> k' -> dict_get k' (dict_del k d) = dict_get k' d.
Proof.
  intros N. induction d as [|[k0 v0] d IH]; simpl; [reflexivity|].
  destruct (keq_spec k k0) as [->|N0]; simpl.
  - rewrite keq_neq; congruence.
  - now rewrite IH.
Qed.

Lemma dict_del_single k v : dict_del k [(k, v)] = [].
Proof. simpl. now rewrite keq_refl. Qed.

Lemma dict_get_del_same k d :
  NoDup (dict_keys d) -> dict_get k (dict_del k d) = None.
Proof.
  unfold dict_keys. induction d as [|[k0 v0] d IH]; simpl; auto.
  intros Hnd. inversion Hnd as [|? ? Hnot Hnd']; subst.
  destruct (keq_spec k k0) as [->|N]; simpl.
  - destruct (dict_get k0 d) eqn:E; auto.
    apply dict_get_in_keys in E. contradiction.
  - rewrite (keq_neq _ _ N). auto.
Qed.

Lemma In_dict_set k v d k' v' :
  In (k', v') (dict_set k v d) -> (k' = k /\ v' = v) \/ In (k', v') d.
Proof.
  induction d as [|[k0 v0] d IH]; simpl.
  - intros [[= <- <-]|[]]. auto.
  - destruct (keq_spec k k0) as [->|N]; simpl.
    + intros [[= <- <-]|Hin]; auto.
    + intros [Hin|Hin]; auto. destruct (IH Hin); auto.
Qed.

Lemma In_dict_del k d x : In x (dict_del k d) -> In x d.
Proof.
  induction d as [|[k0 v0] d IH]; simpl; auto.
  destruct (keq k k0); simpl; intuition.
Qed.

End DictFacts.

(** A [try] whose handler returns always returns. *)
Lemma try_except_returns {S A} (m : M S A) (h : exn -> M S A) :
  (forall e, never_raises (h e)) -> never_raises (try_except m h).
Proof.
  intros Hh s. unfold try_except.
  destruct (m s) as [[a|e] s']; [eauto | apply Hh].
Qed.

Lemma ret_never_raises {S A} (a : A) : never_raises (@ret S A a).
Proof. intros s. unfold ret. eauto. Qed.

(** ** Reasoning about what a computation leaves *)

Lemma post_run {S A} (c : M S A) s Q r s' :
  post c s Q -> c s = (r, s') -> Q r s'.
Proof. unfold post. intros H E. now rewrite E in H. Qed.

Lemma post_bind {S A B} (m : M S A) (k : A -> M S B) s Q :
  post m s (fun r s1 =>
              match r with
              | Ret a => post (k a) s1 Q
              | Raise e => Q (Raise e) s1
              end) ->
  post (bind m k) s Q.
Proof.
  unfold post, bind. destruct (m s) as [[a|e] s1]; simpl; auto.
Qed.

Lemma post_try {S A} (m : M S A) (h : exn -> M S A) s Q :
  post m s (fun r s1 =>
              match r with
              | Ret a => Q (Ret a) s1
              | Raise e => post (h e) s1 Q
              end) ->
  post (try_except m h) s Q.
Proof.
  unfold post, try_except. destruct (m s) as [[a|e] s1]; simpl; auto.
Qed.

Lemma post_ret {S A} (a : A) (s : S) Q : Q (Ret a) s -> post (ret a) s Q.
Proof. auto. Qed.

Lemma post_raise {S A} e (s : S) (Q : result A -> S -> Prop) :
  Q (Raise e) s -> post (raise e) s Q.
Proof. auto. Qed.

Lemma post_get {S} (s : S) Q : Q (Ret s) s -> post get s Q.
Proof. auto. Qed.

Lemma post_put {S} (s0 s : S) Q : Q (Ret tt) s0 -> post (put s0) s Q.
Proof. auto. Qed.

Lemma post_or_raise {S A} e (o : option A) (s : S) Q :
  match o with Some a => Q (Ret a) s | None => Q (Raise e) s end ->
  post (or_raise e o) s Q.
Proof. destruct o; auto. Qed.

Lemma post_weaken {S A} (c : M S A) s (Q Q' : result A -> S -> Prop) :
  post c s Q -> (forall r s', Q r s' -> Q' r s') -> post c s Q'.
Proof. unfold post. auto. Qed.

End PyFacts.

(* ===================================================================== *)
(** * The task registry *)
(* ===================================================================== *)

Module TaskStoreSpec.
Import TaskStore PyFacts.

(** Unfolds the monad; what is left is a case analysis on the store. *)
Ltac step :=
  unfold try_except, bind, ret, raise, get, put, or_raise in *; simpl in *.

Lemma cancel_frame t s :
  exists r s', cancel t s = (r, s')
    /\ taskstore s' = taskstore s /\ strict_iter s' = strict_iter s
    /\ spawn_log s' = spawn_log s /\ cur_task s' = cur_task s.
Proof.
  unfold cancel. destruct (cur_task s) as [c|] eqn:Ec.
  - destruct (Nat.eqb c t); eexists; eexists; simpl; auto.
  - eexists; eexists; simpl; auto.
Qed.

(** [cancel_task] returns a boolean and leaves the store as it is. *)
Lemma cancel_task_frame name module s :
  exists b s', cancel_task name module s = (Ret b, s')
    /\ taskstore s' = taskstore s /\ strict_iter s' = strict_iter s.
Proof.
  unfold cancel_task, resolve_ts, ts_get, deref_scope, subscript, entry_cancel.
  destruct module as [m|]; step.
  - destruct (dict_get m (taskstore s)) as [[t|d]|] eqn:Em; step; eauto.
    rewrite Em; step.
    destruct (dict_get name d) as [t|]; step; eauto.
    destruct (cancel_frame t s) as (r & s' & -> & F1 & F2 & _).
    destruct r; eauto.
  - destruct (dict_get name (taskstore s)) as [[t|d]|]; step; eauto.
    destruct (cancel_frame t s) as (r & s' & -> & F1 & F2 & _).
    destruct r; eauto.
Qed.

(** C8. [create_task] for a (module, name) that holds a task, with
    [recreate=False]: the call returns the "already exists" warning and the
    heap is the one before the call, so the stored handle is the same, no
    task has been created and none has been asked to stop. *)
Theorem create_task_existing_untouched
    (coro : coro_fn) (name module : option string)
    (coro_args : option (list Z)) (coro_kwargs : option (list (string * Z)))
    (t : task_id) (s : state) :
  fst (retrieve_task (task_name coro name) module s) = Ret (Some (ETask t)) ->
  create_task coro name module false coro_args coro_kwargs s
  = (Ret (AlreadyExists (exists_message (task_name coro name))), s).
Proof.
  set (n := task_name coro name).
  unfold create_task, retrieve_task, resolve_ts, ts_get, ts_contains,
    deref_scope, subscript.
  fold n. destruct module as [m|]; step.
  - unfold dict_mem.
    destruct (dict_get m (taskstore s)) as [[t'|d]|] eqn:Em; step;
      try discriminate.
    rewrite Em; step. rewrite Em; step. unfold dict_mem.
    destruct (dict_get n d) as [t'|]; step; [reflexivity | discriminate].
  - unfold dict_mem.
    destruct (dict_get n (taskstore s)) as [e|]; step;
      [reflexivity | discriminate].
Qed.

(** The store with the task ["blink"] of the module ["led"]: a second
    [create_task] for it, with [recreate=False]. *)
Lemma create_task_existing_untouched_witness :
  fst (retrieve_task "blink" (Some "led") led_store) = Ret (Some (ETask 0))
  /\ create_task blink_coro (Some "blink") (Some "led") false
       (Some []) (Some []) led_store
     = (Ret (AlreadyExists "Task blink already exists, recreate was not set"),
        led_store).
Proof.
  split; [reflexivity|].
  apply (create_task_existing_untouched blink_coro (Some "blink") (Some "led")
           (Some []) (Some []) 0 led_store).
  reflexivity.
Defined.

(** What [delete_task] does to a module that holds the name. *)
Lemma delete_task_present name m d s :
  dict_get m (taskstore s) = Some (EScope d) ->
  dict_mem name d = true ->
  exists s', delete_task name (Some m) s = (Ret true, s')
    /\ taskstore s' = dict_set m (EScope (dict_del name d)) (taskstore s).
Proof.
  intros Em Hn. unfold delete_task.
  destruct (cancel_task_frame name (Some m) s) as (b & s1 & Ec & F1 & F2).
  unfold resolve_ts, ts_del, deref_scope, subscript. step.
  rewrite Ec; step. rewrite F1, Em; step. rewrite F1, Em; step.
  rewrite Hn; step. rewrite F1. eauto.
Qed.

(** C10. Whenever [delete_task(name, module)] succeeds, [module] was bound
    to a dict holding [name], and afterwards it is still bound, to that
    dict without [name]; the keys of the store are the same.  When [name]
    was the only task of the module, the module is bound to the empty
    dict. *)
Theorem delete_task_keeps_module (name m : string) (s s' : state) :
  delete_task name (Some m) s = (Ret true, s') ->
  exists d,
    dict_get m (taskstore s) = Some (EScope d)
    /\ dict_mem name d = true
    /\ dict_get m (taskstore s') = Some (EScope (dict_del name d))
    /\ dict_keys (taskstore s') = dict_keys (taskstore s)
    /\ (forall t, d = [(name, t)] ->
        dict_get m (taskstore s') = Some (EScope [])).
Proof.
  unfold delete_task.
  destruct (cancel_task_frame name (Some m) s) as (b & s1 & Ec & F1 & F2).
  unfold resolve_ts, ts_del, deref_scope, subscript. step.
  rewrite Ec; step. rewrite F1.
  destruct (dict_get m (taskstore s)) as [[t|d]|] eqn:Em; step;
    try discriminate.
  rewrite F1, Em; step.
  destruct (dict_mem name d) eqn:Hn; step; try discriminate.
  intros [= <-]; simpl. rewrite F1. exists d.
  assert (G : dict_get m (dict_set m (EScope (dict_del name d)) (taskstore s))
              = Some (EScope (dict_del name d))) by apply dict_get_set_same.
  repeat split; auto.
  - apply dict_keys_set_present. eapply dict_mem_get; eassumption.
  - intros t ->. rewrite G. now rewrite dict_del_single.
Qed.

(** The only task of the module ["led"] is deleted: the module stays,
    bound to the empty dict. *)
Lemma delete_task_keeps_module_witness :
  delete_task "blink" (Some "led") led_store
  = (Ret true,
     {| taskstore := [("led", EScope [])]; cancel_log := [0];
        spawn_log := [(0, 0)]; cur_task := None; strict_iter := false |})
  /\ exists d,
       dict_get "led" (taskstore led_store) = Some (EScope d)
       /\ dict_mem "blink" d = true
       /\ dict_get "led" (taskstore (snd (delete_task "blink" (Some "led") led_store)))
          = Some (EScope (dict_del "blink" d))
       /\ dict_keys (taskstore (snd (delete_task "blink" (Some "led") led_store)))
          = dict_keys (taskstore led_store)
       /\ (forall t, d = [("blink", t)] ->
           dict_get "led" (taskstore (snd (delete_task "blink" (Some "led") led_store)))
           = Some (EScope [])).
Proof.
  split; [reflexivity|].
  apply (delete_task_keeps_module "blink" "led" led_store
           (snd (delete_task "blink" (Some "led") led_store))).
  reflexivity.
Defined.

Lemma keeps_bind {A B} m (c : T A) (k : A -> T B) :
  keeps m c -> (forall a, keeps m (k a)) -> keeps m (bind c k).
Proof.
  intros Hc Hk s Hs. unfold bind. specialize (Hc s Hs).
  destruct (c s) as [[a|e] s1]; simpl in *; auto. now apply Hk.
Qed.

Lemma keeps_try {A} m (c : T A) (h : exn -> T A) :
  keeps m c -> (forall e, keeps m (h e)) -> keeps m (try_except c h).
Proof.
  intros Hc Hh s Hs. unfold try_except. specialize (Hc s Hs).
  destruct (c s) as [[a|e] s1]; simpl in *; auto. now apply Hh.
Qed.

Lemma keeps_pure {A} m (c : T A) :
  (forall s, snd (c s) = s) -> keeps m c.
Proof. intros Hc s Hs. now rewrite Hc. Qed.

Lemma dict_mem_set (m k : string) (v : entry) (d : dict string entry) :
  dict_mem m d = true -> dict_mem m (dict_set k v d) = true.
Proof.
  unfold dict_mem. intros Hm. destruct (String.eqb_spec k m) as [->|N].
  - now rewrite dict_get_set_same.
  - now rewrite dict_get_set_other.
Qed.

Lemma subscript_pure k s : snd (subscript k s) = s.
Proof.
  unfold subscript. step. now destruct (dict_get k (taskstore s)).
Qed.

Lemma deref_scope_pure k s : snd (deref_scope k s) = s.
Proof.
  unfold deref_scope, subscript. step.
  destruct (dict_get k (taskstore s)) as [[t|d]|]; reflexivity.
Qed.

Lemma keeps_cancel m t : keeps m (cancel t).
Proof.
  intros s Hs. destruct (cancel_frame t s) as (r & s' & -> & F & _).
  simpl. now rewrite F.
Qed.

Lemma keeps_ts_set m ts name t : keeps m (ts_set ts name t).
Proof.
  destruct ts as [|m'|t']; simpl.
  - intros s Hs. step. now apply dict_mem_set.
  - intros s Hs. unfold deref_scope, subscript. step.
    destruct (dict_get m' (taskstore s)) as [[t'|d]|]; simpl; auto.
    now apply dict_mem_set.
  - now apply keeps_pure.
Qed.

Lemma keeps_install m coro name ts coro_args coro_kwargs :
  keeps m (install coro name ts coro_args coro_kwargs).
Proof.
  unfold install. apply keeps_bind.
  - apply keeps_pure. intros s. unfold call_coro.
    destruct coro_args, coro_kwargs; try reflexivity.
    now destruct (co_accepts coro l l0).
  - intros c. apply keeps_bind; [now intros s Hs|].
    intros t. apply keeps_bind; [apply keeps_ts_set|].
    intros _. now apply keeps_pure.
Qed.

(** [create_task] with a module leaves the module bound, whatever else
    happens: the binding is made before the [try]. *)
Lemma create_task_binds_module coro name m recreate coro_args coro_kwargs s :
  dict_mem m (taskstore (snd (create_task coro name (Some m) recreate
                                coro_args coro_kwargs s))) = true.
Proof.
  unfold create_task. set (n := task_name coro name).
  unfold bind at 1. unfold bind at 1. unfold get at 1.
  set (s0 := snd ((if negb (dict_mem m (taskstore s))
                   then put (with_store (dict_set m (EScope []) (taskstore s)) s)
                   else ret tt) s)).
  assert (H0 : dict_mem m (taskstore s0) = true).
  { subst s0. destruct (dict_mem m (taskstore s)) eqn:E; simpl; auto.
    unfold dict_mem. now rewrite dict_get_set_same. }
  assert (Hs : (if negb (dict_mem m (taskstore s))
                then put (with_store (dict_set m (EScope []) (taskstore s)) s)
                else ret tt) s = (Ret tt, s0)).
  { subst s0. now destruct (negb (dict_mem m (taskstore s))). }
  rewrite Hs. revert H0. generalize s0. clear. intros s0 H0.
  assert (K : keeps m
    (ts <- resolve_ts (Some m) ;;
     try_except
       (present <- ts_contains ts n ;;
        if present
        then if recreate
             then (e <- ts_get ts n ;; entry_cancel e) ;;;
                  install coro n ts coro_args coro_kwargs
             else ret (AlreadyExists (exists_message n))
        else install coro n ts coro_args coro_kwargs)
       (fun e => ret (Failed e)))).
  { apply keeps_bind.
    - apply keeps_pure. intros s. unfold resolve_ts, subscript. step.
      now destruct (dict_get m (taskstore s)) as [[t|d]|].
    - intros ts. apply keeps_try; [| intros e; now apply keeps_pure].
      apply keeps_bind.
      + apply keeps_pure. intros s. destruct ts; simpl; try reflexivity.
        unfold bind. pose proof (deref_scope_pure m0 s) as P.
        destruct (deref_scope m0 s) as [[d|e] s1]; simpl in *; now subst.
      + intros present. destruct present; [destruct recreate|];
          try apply keeps_install; try now apply keeps_pure.
        apply keeps_bind; [| intros _; apply keeps_install].
        apply keeps_bind.
        * apply keeps_pure. intros s. destruct ts; simpl; try reflexivity.
          -- apply subscript_pure.
          -- unfold bind. pose proof (deref_scope_pure m0 s) as P.
             destruct (deref_scope m0 s) as [[d|e] s1]; simpl in *; subst;
               auto.
             unfold or_raise. now destruct (dict_get n d).
        * intros e. destruct e; simpl; [apply keeps_cancel|now apply keeps_pure]. }
  apply (K s0 H0).
Qed.

(** ** The loops over the store *)

Lemma for_keys_nil {A} n0 (body : string -> A -> T A) acc s :
  List.length (taskstore s) = n0 ->
  for_keys n0 [] body acc s = (Ret acc, s).
Proof.
  intros <-. simpl. step. now rewrite Nat.eqb_refl, andb_false_r.
Qed.

Lemma for_keys_cons {A} n0 k ks (body : string -> A -> T A) acc s :
  List.length (taskstore s) = n0 ->
  for_keys n0 (k :: ks) body acc s
  = if dict_mem k (taskstore s)
    then (acc' <- body k acc ;; for_keys n0 ks body acc') s
    else for_keys n0 ks body acc s.
Proof.
  intros <-. simpl. unfold bind at 1, get. simpl.
  rewrite Nat.eqb_refl, andb_false_r.
  destruct (dict_mem k (taskstore s)); reflexivity.
Qed.

Lemma for_keys_step {A} n0 k ks (body : string -> A -> T A) acc s :
  for_keys n0 (k :: ks) body acc s
  = if strict_iter s && negb (Nat.eqb (List.length (taskstore s)) n0)
    then (Raise RuntimeError, s)
    else if dict_mem k (taskstore s)
         then match body k acc s with
              | (Ret acc', s') => for_keys n0 ks body acc' s'
              | (Raise e, s') => (Raise e, s')
              end
         else for_keys n0 ks body acc s.
Proof.
  simpl. unfold bind at 1, get. simpl.
  destruct (strict_iter s && _); [reflexivity|].
  destruct (dict_mem k (taskstore s)); reflexivity.
Qed.

(** The loop of [retrieve_all_tasks] stops with a [TypeError] at the first
    key bound to a module's dict. *)
Lemma retrieve_loop_scope m d s ks acc :
  dict_get m (taskstore s) = Some (EScope d) ->
  In m ks ->
  for_keys (List.length (taskstore s)) ks retrieve_all_step acc s
  = (Raise TypeError, s).
Proof.
  intros Em. revert acc. induction ks as [|k ks IH]; intros acc Hin.
  - destruct Hin.
  - rewrite for_keys_cons by reflexivity.
    destruct (String.eqb_spec k m) as [->|N].
    + rewrite (dict_mem_get _ _ _ Em).
      unfold retrieve_all_step, subscript, surplus_argument. step.
      now rewrite Em.
    + assert (Hin' : In m ks) by (destruct Hin; congruence).
      unfold dict_mem.
      destruct (dict_get k (taskstore s)) as [[t|d']|] eqn:Ek.
      * unfold retrieve_all_step, subscript. step. rewrite Ek; step.
        now apply IH.
      * unfold retrieve_all_step, subscript, surplus_argument. step.
        now rewrite Ek.
      * now apply IH.
Qed.

(** On a store that binds tasks only, the loop collects the keys. *)
Lemma retrieve_loop_flat s ks acc :
  (forall k e, dict_get k (taskstore s) = Some e -> exists t, e = ETask t) ->
  (forall k, In k ks -> In k (dict_keys (taskstore s))) ->
  for_keys (List.length (taskstore s)) ks retrieve_all_step acc s
  = (Ret (acc ++ ks)%list, s).
Proof.
  intros Hflat. revert acc. induction ks as [|k ks IH]; intros acc Hks.
  - rewrite for_keys_nil by reflexivity. now rewrite app_nil_r.
  - rewrite for_keys_cons by reflexivity.
    destruct (dict_get_of_key k (taskstore s)) as [e Ek];
      [apply Hks; now left|].
    rewrite (dict_mem_get _ _ _ Ek).
    destruct (Hflat _ _ Ek) as [t ->].
    unfold retrieve_all_step, subscript. step. rewrite Ek; step.
    rewrite IH by (intros; apply Hks; now right).
    now rewrite <- app_assoc.
Qed.

(** C6. When the store binds some module to its dict (as [create_task]
    with a module name does), [retrieve_all_tasks] returns [None]: the
    recursive call passes an argument that the method does not take, and
    the bare [except] answers the [TypeError] with [None].  No name is
    returned, those of the module's tasks included. *)
Theorem retrieve_all_tasks_with_module_is_none
    (m : string) (d : dict string task_id) (s : state) :
  dict_get m (taskstore s) = Some (EScope d) ->
  retrieve_all_tasks s = (Ret None, s).
Proof.
  intros Em. unfold retrieve_all_tasks, for_taskstore.
  unfold try_except, bind at 1. unfold bind at 1. unfold get at 1.
  rewrite (retrieve_loop_scope m d) by
    (auto; eapply dict_get_in_keys; eassumption).
  reflexivity.
Qed.

(** The failing input of C6: one task created under the module ["led"]. *)
Lemma retrieve_all_tasks_with_module_is_none_witness :
  fst (create_task blink_coro (Some "blink") (Some "led") false
         (Some []) (Some []) (init false None)) = Ret Created
  /\ fst (retrieve_task "blink" (Some "led") led_store) = Ret (Some (ETask 0))
  /\ retrieve_all_tasks led_store = (Ret None, led_store).
Proof.
  split; [reflexivity|]. split; [reflexivity|].
  apply (retrieve_all_tasks_with_module_is_none "led" [("blink", 0)]).
  reflexivity.
Defined.

(** For comparison: without modules the names are returned, in order. *)
Lemma retrieve_all_tasks_flat s :
  (forall k e, dict_get k (taskstore s) = Some e -> exists t, e = ETask t) ->
  retrieve_all_tasks s = (Ret (Some (dict_keys (taskstore s))), s).
Proof.
  intros Hflat. unfold retrieve_all_tasks, for_taskstore.
  unfold try_except, bind at 1. unfold bind at 1. unfold get at 1.
  now rewrite retrieve_loop_flat.
Qed.

(** The loops of [cancel_all_tasks] and [delete_all_tasks] end with an
    exception when some key is bound to a module's dict. *)
Lemma cancel_loop_scope m d n0 ks s :
  dict_get m (taskstore s) = Some (EScope d) ->
  In m ks ->
  exists e s', for_keys n0 ks cancel_all_step tt s = (Raise e, s').
Proof.
  revert s. induction ks as [|k ks IH]; intros s Em Hin; [destruct Hin|].
  rewrite for_keys_step.
  destruct (strict_iter s && negb (Nat.eqb (List.length (taskstore s)) n0));
    [eauto|].
  destruct (String.eqb_spec k m) as [->|N].
  - rewrite (dict_mem_get _ _ _ Em).
    unfold cancel_all_step, subscript, surplus_argument. step.
    rewrite Em; step. eauto.
  - assert (Hin' : In m ks) by (destruct Hin; congruence).
    unfold dict_mem.
    destruct (dict_get k (taskstore s)) as [[t|d']|] eqn:Ek.
    + unfold cancel_all_step, subscript. step. rewrite Ek; step.
      destruct (cancel_frame t s) as (r & s1 & -> & F & _).
      destruct r as [[]|e]; [|eauto]. apply IH; auto. now rewrite F.
    + unfold cancel_all_step, subscript, surplus_argument. step.
      rewrite Ek; step. eauto.
    + now apply IH.
Qed.

Lemma delete_loop_scope m d n0 ks s :
  dict_get m (taskstore s) = Some (EScope d) ->
  In m ks ->
  exists e s', for_keys n0 ks delete_all_step tt s = (Raise e, s').
Proof.
  revert s. induction ks as [|k ks IH]; intros s Em Hin; [destruct Hin|].
  rewrite for_keys_step.
  destruct (strict_iter s && negb (Nat.eqb (List.length (taskstore s)) n0));
    [eauto|].
  destruct (String.eqb_spec k m) as [->|N].
  - rewrite (dict_mem_get _ _ _ Em).
    unfold delete_all_step, subscript, surplus_argument. step.
    rewrite Em; step. eauto.
  - assert (Hin' : In m ks) by (destruct Hin; congruence).
    unfold dict_mem.
    destruct (dict_get k (taskstore s)) as [[t|d']|] eqn:Ek.
    + unfold delete_all_step, subscript. step. rewrite Ek; step.
      destruct (cancel_task_frame k None s) as (b & s1 & -> & F & _).
      unfold ts_del. step. rewrite F. unfold dict_mem. rewrite Ek; step.
      apply IH; auto. simpl. now rewrite dict_get_del_other.
    + unfold delete_all_step, subscript, surplus_argument. step.
      rewrite Ek; step. eauto.
    + now apply IH.
Qed.

(** [cancel_all_tasks] leaves the store as it is. *)
Lemma cancel_loop_frame n0 ks s :
  taskstore (snd (for_keys n0 ks cancel_all_step tt s)) = taskstore s.
Proof.
  revert s. induction ks as [|k ks IH]; intros s.
  - simpl. step. now destruct (strict_iter s && _).
  - rewrite for_keys_step.
    destruct (strict_iter s && _); [reflexivity|].
    destruct (dict_mem k (taskstore s)); [|apply IH].
    unfold cancel_all_step, subscript, surplus_argument. step.
    destruct (dict_get k (taskstore s)) as [[t|d']|]; simpl; auto.
    destruct (cancel_frame t s) as (r & s1 & -> & F & _).
    destruct r as [[]|e]; simpl; auto. now rewrite IH.
Qed.

Lemma cancel_all_tasks_frame s :
  taskstore (snd (cancel_all_tasks s)) = taskstore s.
Proof.
  unfold cancel_all_tasks, for_taskstore.
  unfold try_except, bind at 1. unfold bind at 1. unfold get at 1.
  pose proof (cancel_loop_frame (List.length (taskstore s))
                (dict_keys (taskstore s)) s) as F.
  destruct (for_keys _ _ cancel_all_step tt s) as [[u|e] s1]; exact F.
Qed.

Lemma cancel_all_tasks_empty s :
  taskstore s = [] -> cancel_all_tasks s = (Ret true, s).
Proof.
  intros Hnil. unfold cancel_all_tasks, for_taskstore, try_except.
  unfold bind at 1. unfold bind at 1. unfold get at 1.
  rewrite Hnil. cbn [dict_keys map List.length].
  rewrite for_keys_nil by now rewrite Hnil. reflexivity.
Qed.

Lemma delete_all_tasks_empty s :
  taskstore s = [] -> delete_all_tasks s = (Ret true, s).
Proof.
  intros Hnil. unfold delete_all_tasks, for_taskstore, try_except.
  unfold bind at 1. unfold bind at 1. unfold get at 1.
  rewrite Hnil. cbn [dict_keys map List.length].
  rewrite for_keys_nil by now rewrite Hnil. reflexivity.
Qed.

(** C7. [cancel_all_tasks] followed by [delete_all_tasks] returns two
    booleans on every heap, and raises nothing.  On the empty store both
    are [True]; where a module's dict is bound both are [False]. *)
Theorem cancel_all_then_delete_all_never_raise (s : state) :
  exists b1 s1 b2 s2,
    cancel_all_tasks s = (Ret b1, s1)
    /\ delete_all_tasks s1 = (Ret b2, s2)
    /\ (taskstore s = [] -> b1 = true /\ b2 = true)
    /\ (forall m d, dict_get m (taskstore s) = Some (EScope d) ->
        b1 = false /\ b2 = false).
Proof.
  destruct (try_except_returns
              (for_taskstore cancel_all_step tt ;;; ret true)
              (fun _ => ret false) (fun _ => ret_never_raises false) s)
    as (b1 & s1 & E1).
  destruct (try_except_returns
              (for_taskstore delete_all_step tt ;;; ret true)
              (fun _ => ret false) (fun _ => ret_never_raises false) s1)
    as (b2 & s2 & E2).
  fold cancel_all_tasks in E1. fold delete_all_tasks in E2.
  exists b1, s1, b2, s2. split; [exact E1|]. split; [exact E2|].
  assert (F : taskstore s1 = taskstore s).
  { pose proof (cancel_all_tasks_frame s) as F. now rewrite E1 in F. }
  split.
  - intros Hnil.
    rewrite cancel_all_tasks_empty in E1 by assumption.
    rewrite delete_all_tasks_empty in E2 by congruence.
    split; congruence.
  - intros m d Em.
    assert (Hin : In m (dict_keys (taskstore s)))
      by (eapply dict_get_in_keys; eassumption).
    unfold cancel_all_tasks, for_taskstore in E1.
    unfold delete_all_tasks, for_taskstore in E2.
    unfold try_except, bind at 1 in E1. unfold bind at 1 in E1.
    unfold get at 1 in E1.
    unfold try_except, bind at 1 in E2. unfold bind at 1 in E2.
    unfold get at 1 in E2.
    destruct (cancel_loop_scope m d (List.length (taskstore s))
                (dict_keys (taskstore s)) s Em Hin) as (e1 & t1 & L1).
    rewrite L1 in E1.
    rewrite <- F in Em, Hin.
    destruct (delete_loop_scope m d (List.length (taskstore s1))
                (dict_keys (taskstore s1)) s1 Em Hin) as (e2 & t2 & L2).
    rewrite L2 in E2. unfold ret in E1, E2. split; congruence.
Qed.

(** The store with a module, then the empty store. *)
Lemma cancel_all_then_delete_all_never_raise_witness :
  (cancel_all_tasks led_store = (Ret false, led_store)
   /\ delete_all_tasks led_store = (Ret false, led_store))
  /\ exists b1 s1 b2 s2,
       cancel_all_tasks (init true None) = (Ret b1, s1)
       /\ delete_all_tasks s1 = (Ret b2, s2)
       /\ (taskstore (init true None) = [] -> b1 = true /\ b2 = true)
       /\ (forall m d,
             dict_get m (taskstore (init true None)) = Some (EScope d) ->
             b1 = false /\ b2 = false).
Proof.
  split; [split; reflexivity|].
  apply (cancel_all_then_delete_all_never_raise (init true None)).
Defined.

(** ** Creation, lookup, cancellation and deletion together *)

Ltac wp1 :=
  lazymatch goal with
  | |- post (bind _ _) _ _ => apply post_bind
  | |- post (try_except _ _) _ _ => apply post_try
  | |- post (ret _) _ _ => apply post_ret
  | |- post (raise _) _ _ => apply post_raise
  | |- post get _ _ => apply post_get
  | |- post (put _) _ _ => apply post_put
  | |- post (or_raise _ _) _ _ => apply post_or_raise
  end.

Ltac wp := repeat (wp1; cbn beta).

Lemma post_cancel t s (Q : result unit -> state -> Prop) :
  (cur_task s = Some t -> Q (Raise RuntimeError) s) ->
  (cur_task s <> Some t ->
   Q (Ret tt) {| taskstore := taskstore s; cancel_log := t :: cancel_log s;
                 spawn_log := spawn_log s; cur_task := cur_task s;
                 strict_iter := strict_iter s |}) ->
  post (cancel t) s Q.
Proof.
  intros H1 H2. unfold post, cancel.
  destruct (cur_task s) as [c|] eqn:Ec.
  - destruct (Nat.eqb_spec c t) as [->|N]; simpl.
    + now apply H1.
    + apply H2. congruence.
  - simpl. apply H2. discriminate.
Qed.

Lemma post_spawn c s (Q : result task_id -> state -> Prop) :
  Q (Ret (List.length (spawn_log s)))
    {| taskstore := taskstore s; cancel_log := cancel_log s;
       spawn_log := (List.length (spawn_log s), c) :: spawn_log s;
       cur_task := cur_task s; strict_iter := strict_iter s |} ->
  post (asyncio_create_task c) s Q.
Proof. auto. Qed.

Lemma retrieve_of_ts_get module n e s :
  ts_get (ts_of module) n s = (Ret e, s) ->
  retrieve_task n module s = (Ret (Some e), s).
Proof.
  unfold retrieve_task, resolve_ts, ts_get, ts_of, deref_scope, subscript.
  destruct module as [m|]; step.
  - destruct (dict_get m (taskstore s)) as [[t|d]|] eqn:Em; step;
      try discriminate.
    rewrite Em; step.
    destruct (dict_get n d); step; [|discriminate]. now intros [= <-].
  - destruct (dict_get n (taskstore s)); step; [|discriminate].
    now intros [= <-].
Qed.

(** [ts_contains] and [ts_get] read only. *)
Lemma post_ts_contains ts n s (Q : result bool -> state -> Prop) :
  Q (fst (ts_contains ts n s)) s -> post (ts_contains ts n) s Q.
Proof.
  unfold post. intros HQ.
  assert (E : snd (ts_contains ts n s) = s).
  { destruct ts as [|m|t]; simpl; auto.
    unfold deref_scope, subscript. step.
    now destruct (dict_get m (taskstore s)) as [[t|d]|]. }
  now rewrite E.
Qed.

Lemma post_ts_get ts n s (Q : result entry -> state -> Prop) :
  Q (fst (ts_get ts n s)) s -> post (ts_get ts n) s Q.
Proof.
  unfold post. intros HQ.
  assert (E : snd (ts_get ts n s) = s).
  { destruct ts as [|m|t]; simpl; auto.
    - apply subscript_pure.
    - unfold deref_scope, subscript. step.
      destruct (dict_get m (taskstore s)) as [[t|d]|]; auto.
      simpl. now destruct (dict_get n d). }
  now rewrite E.
Qed.

Lemma post_resolve_ts module s (Q : result ts_ref -> state -> Prop) :
  Q (fst (resolve_ts module s)) s -> post (resolve_ts module) s Q.
Proof.
  unfold post. intros HQ.
  assert (E : snd (resolve_ts module s) = s).
  { destruct module as [m|]; simpl; auto. unfold subscript. step.
    now destruct (dict_get m (taskstore s)) as [[t|d]|]. }
  now rewrite E.
Qed.

(** When [name in ts] has an answer, [ts] is the store or a module's
    dict. *)
Lemma ts_contains_ret module n s b :
  fst (ts_contains (ts_of module) n s) = Ret b ->
  match module with
  | Some m => exists d, dict_get m (taskstore s) = Some (EScope d)
                        /\ b = dict_mem n d
  | None => b = dict_mem n (taskstore s)
  end.
Proof.
  destruct module as [m|]; simpl.
  - unfold deref_scope, subscript. step.
    destruct (dict_get m (taskstore s)) as [[t|d]|]; simpl; try discriminate.
    intros [= <-]. eauto.
  - now intros [= <-].
Qed.

(** What [install] has done when it returns, on a heap where [ts] is the
    store or a module's dict. *)
Lemma install_post coro n module coro_args coro_kwargs s :
  (forall m, module = Some m ->
             exists d, dict_get m (taskstore s) = Some (EScope d)) ->
  post (install coro n (ts_of module) coro_args coro_kwargs) s
    (fun r s' =>
       match r with
       | Ret x =>
           x = Created
           /\ (exists a kw, coro_args = Some a /\ coro_kwargs = Some kw
                            /\ co_accepts coro a kw = true)
           /\ spawn_log s' = (List.length (spawn_log s), co_id coro) :: spawn_log s
           /\ cancel_log s' = cancel_log s
           /\ ts_get (ts_of module) n s'
              = (Ret (ETask (List.length (spawn_log s))), s')
       | Raise _ => s' = s
       end).
Proof.
  intros Hm. unfold install, call_coro.
  destruct coro_args as [a|], coro_kwargs as [kw|]; wp; auto.
  destruct (co_accepts coro a kw) eqn:Ha; wp; auto.
  apply post_spawn.
  unfold ts_set, ts_get, ts_of, deref_scope, subscript.
  destruct module as [m|]; wp; simpl.
  - destruct (Hm m eq_refl) as [d Em]. rewrite Em. wp; simpl.
    repeat split; eauto.
    step. rewrite dict_get_set_same; step. now rewrite dict_get_set_same.
  - repeat split; eauto.
    step. now rewrite dict_get_set_same.
Qed.

(** The [try] block of [create_task] and its handler. *)
Lemma create_try_post coro n module (recreate : bool) coro_args coro_kwargs s :
  post (try_except
          (present <- ts_contains (ts_of module) n ;;
           if present then
             if recreate then
               (e <- ts_get (ts_of module) n ;; entry_cancel e) ;;;
               install coro n (ts_of module) coro_args coro_kwargs
             else ret (AlreadyExists (exists_message n))
           else install coro n (ts_of module) coro_args coro_kwargs)
          (fun e => ret (Failed e))) s
    (created_post coro n module recreate coro_args coro_kwargs s).
Proof.
  wp. apply post_ts_contains.
  destruct (fst (ts_contains (ts_of module) n s)) as [present|e] eqn:Ec;
    [|wp; simpl; auto].
  assert (Hm : forall m, module = Some m ->
                         exists d, dict_get m (taskstore s) = Some (EScope d)).
  { intros m ->. apply ts_contains_ret in Ec. destruct Ec as (d & Ed & _). eauto. }
  assert (Hinst : forall s0,
    spawn_log s0 = spawn_log s -> taskstore s0 = taskstore s ->
    (cancel_log s0 = cancel_log s
     \/ exists t, recreate = true
                  /\ ts_get (ts_of module) n s = (Ret (ETask t), s)
                  /\ cancel_log s0 = t :: cancel_log s) ->
    post (install coro n (ts_of module) coro_args coro_kwargs) s0
      (fun r s1 =>
         match r with
         | Ret a => created_post coro n module recreate coro_args coro_kwargs s
                      (Ret a) s1
         | Raise e =>
             post (ret (Failed e)) s1
               (created_post coro n module recreate coro_args coro_kwargs s)
         end)).
  { intros s0 Hsp Hst Hc.
    eapply post_weaken; [apply install_post; intros m E; rewrite Hst; auto|].
    intros [x|e] s1; simpl.
    - intros (-> & Hargs & H1 & H2 & H3). rewrite Hsp in *.
      repeat split; auto.
      destruct Hc as [Hc|(t & Hr & Hg & Hc)]; [left|right; exists t];
        repeat split; auto; congruence.
    - intros ->. unfold post. simpl. split; congruence. }
  destruct present; [destruct recreate|]; wp; simpl; auto.
  apply post_ts_get.
  destruct (fst (ts_get (ts_of module) n s)) as [e|e] eqn:Eg;
    [|wp; simpl; auto].
  destruct e as [t|d]; simpl; [|wp; simpl; auto].
  apply post_cancel; intros Hcur; [wp; simpl; auto|].
  apply Hinst; simpl; auto. right. exists t. repeat split; auto.
  pose proof (post_ts_get (ts_of module) n s (fun r s1 => s1 = s) eq_refl) as P.
  unfold post in P. rewrite (surjective_pairing (ts_get _ _ _)), Eg.
  simpl. now rewrite P.
Qed.

Lemma post_bind_mid {A B} (m : T A) (k : A -> T B) s R Q :
  post m s R ->
  (forall r s1, R r s1 ->
     match r with
     | Ret a => post (k a) s1 Q
     | Raise e => Q (Raise e) s1
     end) ->
  post (bind m k) s Q.
Proof. intros Hm Hk. apply post_bind. eapply post_weaken; eauto. Qed.

(** The statement before the [try] of [create_task]: it binds the module
    to an empty dict when the module is not bound, and nothing else. *)
Lemma bind_module_post (module : option string) s :
  post (match module with
        | Some m =>
            s0 <- get ;;
            if negb (dict_mem m (taskstore s0))
            then put (with_store (dict_set m (EScope []) (taskstore s0)) s0)
            else ret tt
        | None => ret tt
        end) s
    (fun r s1 =>
       r = Ret tt
       /\ (s1 = s
           \/ exists m, module = Some m
                        /\ dict_get m (taskstore s) = None
                        /\ s1 = with_store (dict_set m (EScope []) (taskstore s)) s)
       /\ (forall m, module = Some m -> dict_mem m (taskstore s1) = true)).
Proof.
  destruct module as [m|]; wp.
  - unfold dict_mem. destruct (dict_get m (taskstore s)) eqn:Em;
      cbn [negb]; wp; simpl.
    + repeat split; auto. intros ? [= <-]. unfold dict_mem. now rewrite Em.
    + repeat split; eauto. intros ? [= <-]. unfold dict_mem.
      now rewrite dict_get_set_same.
  - repeat split; auto; discriminate.
Qed.

(** What [create_task] has done when it ends: it never raises; after
    [True] the arguments were accepted, there is one more task, it is the
    one stored under the name, and either no task has been asked to stop or
    [recreate] was set and the task stored under the name before has been;
    after any other result no task has been created. *)
Lemma create_task_post coro name module (recreate : bool) coro_args coro_kwargs s :
  post (create_task coro name module recreate coro_args coro_kwargs) s
    (fun r s' =>
       match r with
       | Ret Created =>
           (exists a kw, coro_args = Some a /\ coro_kwargs = Some kw
                         /\ co_accepts coro a kw = true)
           /\ spawn_log s' = (List.length (spawn_log s), co_id coro) :: spawn_log s
           /\ retrieve_task (task_name coro name) module s'
              = (Ret (Some (ETask (List.length (spawn_log s)))), s')
           /\ (cancel_log s' = cancel_log s
               \/ exists t, recreate = true
                            /\ retrieve_task (task_name coro name) module s
                               = (Ret (Some (ETask t)), s)
                            /\ cancel_log s' = t :: cancel_log s)
       | Ret _ => spawn_log s' = spawn_log s
       | Raise _ => False
       end).
Proof.
  unfold create_task. set (n := task_name coro name).
  eapply post_bind_mid; [apply bind_module_post|].
  intros r s1 (-> & Hs1 & Hb).
  assert (Hsp : spawn_log s1 = spawn_log s /\ cancel_log s1 = cancel_log s).
  { destruct Hs1 as [->|(m & _ & _ & ->)]; auto. }
  destruct Hsp as [Hsp Hcl].
  apply post_bind. apply post_resolve_ts.
  destruct module as [m|]; simpl.
  - specialize (Hb m eq_refl). unfold dict_mem in Hb.
    unfold subscript. step.
    destruct (dict_get m (taskstore s1)) as [[t|d]|] eqn:Em;
      try discriminate; simpl.
    + wp. simpl. wp. simpl. exact Hsp.
    + eapply post_weaken; [apply (create_try_post coro n (Some m))|].
      intros [[| |]|] s'; unfold created_post; simpl; try tauto;
        try (intros [H _]; congruence).
      intros (Ha & H1 & H2 & H3). rewrite Hsp, Hcl in *.
      repeat split; auto.
      * now apply (retrieve_of_ts_get (Some m)).
      * destruct H3 as [H3|(t & Hr & Hg & H3)]; [now left|right].
        exists t. repeat split; auto.
        destruct Hs1 as [->|(m' & [= <-] & Hnone & ->)].
        -- now apply (retrieve_of_ts_get (Some m)).
        -- exfalso. revert Hg. unfold ts_get, deref_scope, subscript. step.
           rewrite dict_get_set_same. step. discriminate.
  - destruct Hs1 as [->|(m' & Hm' & _)]; [|discriminate].
    eapply post_weaken; [apply (create_try_post coro n None)|].
    intros [[| |]|] s'; unfold created_post; simpl; try tauto.
    intros (Ha & H1 & H2 & H3).
    repeat split; auto.
    + now apply (retrieve_of_ts_get None).
    + destruct H3 as [H3|(t & Hr & Hg & H3)]; [now left|right].
      exists t. repeat split; auto. now apply (retrieve_of_ts_get None).
Qed.

(** X1. A [create_task] that returns [True] has created exactly one
    task, and [retrieve_task] with the same name and module returns its
    handle. *)
Theorem create_task_then_retrieve
    (coro : coro_fn) (name module : option string) (recreate : bool)
    (coro_args : option (list Z)) (coro_kwargs : option (list (string * Z)))
    (s s' : state) :
  create_task coro name module recreate coro_args coro_kwargs s
  = (Ret Created, s') ->
  retrieve_task (task_name coro name) module s'
  = (Ret (Some (ETask (List.length (spawn_log s)))), s')
  /\ spawn_log s' = (List.length (spawn_log s), co_id coro) :: spawn_log s.
Proof.
  intros E.
  pose proof (post_run _ _ _ _ _
                (create_task_post coro name module recreate coro_args
                   coro_kwargs s) E) as (_ & H1 & H2 & _).
  auto.
Qed.

Lemma create_task_then_retrieve_witness :
  retrieve_task "blink" (Some "led") led_store = (Ret (Some (ETask 0)), led_store)
  /\ spawn_log led_store = [(0, 0)].
Proof.
  apply (create_task_then_retrieve blink_coro (Some "blink") (Some "led") false
           (Some []) (Some []) (init false None) led_store).
  reflexivity.
Defined.

(** What is stored under a name that [retrieve_task] finds a task for. *)
Lemma retrieve_task_found n module t s :
  fst (retrieve_task n module s) = Ret (Some (ETask t)) ->
  match module with
  | None => dict_get n (taskstore s) = Some (ETask t)
  | Some m => exists d, dict_get m (taskstore s) = Some (EScope d)
                        /\ dict_get n d = Some t
  end.
Proof.
  unfold retrieve_task, resolve_ts, ts_get, deref_scope, subscript.
  destruct module as [m|]; step.
  - destruct (dict_get m (taskstore s)) as [[t'|d]|] eqn:Em; step;
      try discriminate.
    rewrite Em; step. exists d. split; auto.
    destruct (dict_get n d); step; congruence.
  - destruct (dict_get n (taskstore s)); step; congruence.
Qed.

(** X2. [create_task] with [recreate=True] for a name that holds a task
    other than the running one, and arguments that the coroutine function
    accepts: the old task is asked to stop, once, a new task is created and
    its handle replaces the old one. *)
Theorem create_task_recreate_replaces
    (coro : coro_fn) (name module : option string)
    (a : list Z) (kw : list (string * Z)) (t : task_id) (s : state) :
  fst (retrieve_task (task_name coro name) module s) = Ret (Some (ETask t)) ->
  cur_task s <> Some t ->
  co_accepts coro a kw = true ->
  exists s',
    create_task coro name module true (Some a) (Some kw) s = (Ret Created, s')
    /\ cancel_log s' = t :: cancel_log s
    /\ spawn_log s' = (List.length (spawn_log s), co_id coro) :: spawn_log s
    /\ retrieve_task (task_name coro name) module s'
       = (Ret (Some (ETask (List.length (spawn_log s)))), s').
Proof.
  set (n := task_name coro name). intros Hf Hcur Hacc.
  apply retrieve_task_found in Hf.
  assert (Hc : cancel t s
               = (Ret tt, {| taskstore := taskstore s;
                             cancel_log := t :: cancel_log s;
                             spawn_log := spawn_log s;
                             cur_task := cur_task s;
                             strict_iter := strict_iter s |})).
  { unfold cancel. destruct (cur_task s) as [c|]; auto.
    destruct (Nat.eqb_spec c t); [congruence|auto]. }
  assert (E : exists s', create_task coro name module true (Some a) (Some kw) s
                         = (Ret Created, s')
                         /\ cancel_log s' = t :: cancel_log s).
  { unfold create_task, resolve_ts, ts_contains, ts_get, install, ts_set,
      deref_scope, subscript, entry_cancel, call_coro, asyncio_create_task.
    fold n. destruct module as [m|]; step.
    - destruct Hf as (d & Em & En). unfold dict_mem. rewrite Em; step.
      rewrite Em; step. rewrite Em; step. unfold dict_mem. rewrite En; step.
      rewrite Em; step. rewrite En; step. rewrite Hc; step.
      rewrite Hacc; step. rewrite Em; step. eauto.
    - unfold dict_mem. rewrite Hf; step. rewrite Hf; step.
      rewrite Hc; step. rewrite Hacc; step. eauto. }
  destruct E as (s' & E & Hlog). exists s'. split; auto. split; auto.
  pose proof (post_run _ _ _ _ _
                (create_task_post coro name module true (Some a) (Some kw) s) E)
    as (_ & H1 & H2 & _).
  auto.
Qed.

Lemma create_task_recreate_replaces_witness :
  exists s',
    create_task blink_coro (Some "blink") (Some "led") true (Some []) (Some [])
      led_store = (Ret Created, s')
    /\ cancel_log s' = 0 :: cancel_log led_store
    /\ spawn_log s' = (List.length (spawn_log led_store), co_id blink_coro)
                      :: spawn_log led_store
    /\ retrieve_task "blink" (Some "led") s'
       = (Ret (Some (ETask (List.length (spawn_log led_store)))), s').
Proof.
  apply (create_task_recreate_replaces blink_coro (Some "blink") (Some "led")
           [] [] 0 led_store).
  - reflexivity.
  - discriminate.
  - reflexivity.
Defined.

(** X3. Without [coro_args] or without [coro_kwargs] (both default to
    [None]) [create_task] creates no task, in no state: it returns the
    warning or the exception, and does not raise. *)
Theorem create_task_default_arguments_create_nothing
    (coro : coro_fn) (name module : option string) (recreate : bool)
    (coro_args : option (list Z)) (coro_kwargs : option (list (string * Z)))
    (s : state) :
  coro_args = None \/ coro_kwargs = None ->
  exists r s',
    create_task coro name module recreate coro_args coro_kwargs s = (Ret r, s')
    /\ r <> Created
    /\ spawn_log s' = spawn_log s.
Proof.
  intros Hnone.
  pose proof (create_task_post coro name module recreate coro_args
                coro_kwargs s) as P.
  unfold post in P.
  destruct (create_task coro name module recreate coro_args coro_kwargs s)
    as [[r|e] s'] eqn:E; simpl in P; [|contradiction].
  exists r, s'. split; auto.
  destruct r as [|msg|e]; auto; try (split; [discriminate|assumption]).
  destruct P as ((a & kw & Ha & Hkw & _) & _).
  destruct Hnone; congruence.
Qed.

Lemma create_task_default_arguments_create_nothing_witness :
  exists r s',
    create_task blink_coro (Some "blink") (Some "led") true None None led_store
    = (Ret r, s')
    /\ r <> Created
    /\ spawn_log s' = spawn_log led_store.
Proof.
  apply (create_task_default_arguments_create_nothing blink_coro (Some "blink")
           (Some "led") true None None led_store).
  now left.
Defined.

(** X4. With [recreate=True] that failure comes after the task stored
    under the name has been asked to stop: the call returns the
    [TypeError], and the name is left with the handle of the task that is
    being cancelled. *)
Theorem create_task_recreate_without_arguments
    (coro : coro_fn) (name module : option string)
    (coro_args : option (list Z)) (coro_kwargs : option (list (string * Z)))
    (t : task_id) (s : state) :
  fst (retrieve_task (task_name coro name) module s) = Ret (Some (ETask t)) ->
  cur_task s <> Some t ->
  coro_args = None \/ coro_kwargs = None ->
  create_task coro name module true coro_args coro_kwargs s
  = (Ret (Failed TypeError),
     {| taskstore := taskstore s; cancel_log := t :: cancel_log s;
        spawn_log := spawn_log s; cur_task := cur_task s;
        strict_iter := strict_iter s |}).
Proof.
  set (n := task_name coro name). intros Hf Hcur Hnone.
  apply retrieve_task_found in Hf.
  assert (Hc : cancel t s
               = (Ret tt, {| taskstore := taskstore s;
                             cancel_log := t :: cancel_log s;
                             spawn_log := spawn_log s;
                             cur_task := cur_task s;
                             strict_iter := strict_iter s |})).
  { unfold cancel. destruct (cur_task s) as [c|]; auto.
    destruct (Nat.eqb_spec c t); [congruence|auto]. }
  assert (Hcall : forall s0, call_coro coro coro_args coro_kwargs s0
                             = (Raise TypeError, s0)).
  { intros s0. unfold call_coro.
    destruct Hnone as [-> | ->]; [|destruct coro_args]; reflexivity. }
  unfold create_task, resolve_ts, ts_contains, ts_get, install,
    deref_scope, subscript, entry_cancel.
  fold n. destruct module as [m|]; step.
  - destruct Hf as (d & Em & En). unfold dict_mem. rewrite Em; step.
    rewrite Em; step. rewrite Em; step. unfold dict_mem. rewrite En; step.
    rewrite Em; step. rewrite En; step. rewrite Hc; step.
    now rewrite Hcall.
  - unfold dict_mem. rewrite Hf; step. rewrite Hf; step.
    rewrite Hc; step. now rewrite Hcall.
Qed.

Lemma create_task_recreate_without_arguments_witness :
  create_task blink_coro (Some "blink") (Some "led") true None None led_store
  = (Ret (Failed TypeError),
     {| taskstore := [("led", EScope [("blink", 0)])]; cancel_log := [0];
        spawn_log := [(0, 0)]; cur_task := None; strict_iter := false |}).
Proof.
  apply (create_task_recreate_without_arguments blink_coro (Some "blink")
           (Some "led") None None 0 led_store).
  - reflexivity.
  - discriminate.
  - now left.
Defined.

(** The three outcomes of [cancel_task], by what [retrieve_task] finds. *)
Lemma cancel_task_cases (name : string) (module : option string) (s : state) :
  match fst (retrieve_task name module s) with
  | Ret (Some (ETask t)) =>
      if match cur_task s with Some c => Nat.eqb c t | None => false end
      then cancel_task name module s = (Ret false, s)
      else cancel_task name module s
           = (Ret true,
              {| taskstore := taskstore s; cancel_log := t :: cancel_log s;
                 spawn_log := spawn_log s; cur_task := cur_task s;
                 strict_iter := strict_iter s |})
  | _ => cancel_task name module s = (Ret false, s)
  end.
Proof.
  unfold retrieve_task, cancel_task, resolve_ts, ts_get, deref_scope,
    subscript, entry_cancel, cancel.
  destruct module as [m|]; step.
  - destruct (dict_get m (taskstore s)) as [[t|d]|] eqn:Em; step; auto.
    rewrite Em; step.
    destruct (dict_get name d) as [t|]; step; auto.
    destruct (cur_task s) as [c|]; auto. now destruct (Nat.eqb c t).
  - destruct (dict_get name (taskstore s)) as [[t|d]|]; step; auto.
    destruct (cur_task s) as [c|]; auto. now destruct (Nat.eqb c t).
Qed.

(** X5. [cancel_task] returns [True] exactly when the name holds a task
    other than the running one; the task has then been asked to stop and
    is still registered.  In every other case it returns [False] and
    changes nothing. *)
Theorem cancel_task_outcome (name : string) (module : option string) (s : state) :
  match fst (retrieve_task name module s) with
  | Ret (Some (ETask t)) =>
      if match cur_task s with Some c => Nat.eqb c t | None => false end
      then cancel_task name module s = (Ret false, s)
      else cancel_task name module s
           = (Ret true,
              {| taskstore := taskstore s; cancel_log := t :: cancel_log s;
                 spawn_log := spawn_log s; cur_task := cur_task s;
                 strict_iter := strict_iter s |})
  | _ => cancel_task name module s = (Ret false, s)
  end.
Proof.
  unfold retrieve_task, cancel_task, resolve_ts, ts_get, deref_scope,
    subscript, entry_cancel, cancel.
  destruct module as [m|]; step.
  - destruct (dict_get m (taskstore s)) as [[t|d]|] eqn:Em; step; auto.
    rewrite Em; step.
    destruct (dict_get name d) as [t|]; step; auto.
    destruct (cur_task s) as [c|]; auto. now destruct (Nat.eqb c t).
  - destruct (dict_get name (taskstore s)) as [[t|d]|]; step; auto.
    destruct (cur_task s) as [c|]; auto. now destruct (Nat.eqb c t).
Qed.

(** [delete_task] returns [False] only when nothing is registered
    under the name, and then it has changed nothing. *)
Theorem delete_task_false_changes_nothing
    (name : string) (module : option string) (s s' : state) :
  delete_task name module s = (Ret false, s') ->
  s' = s /\ fst (retrieve_task name module s) = Ret None.
Proof.
  unfold delete_task.
  pose proof (cancel_task_cases name module s) as Hc. revert Hc.
  unfold retrieve_task, resolve_ts, ts_get, ts_del, deref_scope, subscript.
  destruct module as [m|]; step.
  - destruct (dict_get m (taskstore s)) as [[t|d]|] eqn:Em; step.
    + intros ->. step. rewrite Em; step. now intros [= <-].
    + rewrite Em; step. unfold dict_mem.
      destruct (dict_get name d) as [t|] eqn:En; step.
      * destruct (match cur_task s with Some c => Nat.eqb c t | None => false end);
          intros ->; step; rewrite Em; step; rewrite Em; step;
          unfold dict_mem; rewrite En; step; discriminate.
      * intros ->. step. rewrite Em; step. rewrite Em; step.
        unfold dict_mem. rewrite En; step. now intros [= <-].
    + intros ->. step. rewrite Em; step. now intros [= <-].
  - unfold dict_mem.
    destruct (dict_get name (taskstore s)) as [[t|d]|] eqn:En; step.
    + destruct (match cur_task s with Some c => Nat.eqb c t | None => false end);
        intros ->; step; rewrite ?En; step; discriminate.
    + intros ->. step. rewrite En; step. discriminate.
    + intros ->. step. rewrite En; step. now intros [= <-].
Qed.

Lemma delete_task_false_changes_nothing_witness :
  led_store = led_store
  /\ fst (retrieve_task "fade" (Some "led") led_store) = Ret None.
Proof.
  apply (delete_task_false_changes_nothing "fade" (Some "led") led_store led_store).
  reflexivity.
Defined.

Lemma dict_get_del_same_string {V} (k : string) (d : dict string V) :
  NoDup (dict_keys d) -> dict_get k (dict_del k d) = None.
Proof.
  unfold dict_keys. induction d as [|[k0 v0] d IH]; simpl; auto.
  intros Hnd. inversion Hnd as [|? ? Hnot Hnd']; subst.
  destruct (String.eqb_spec k k0) as [->|N]; simpl.
  - destruct (dict_get k0 d) eqn:E; auto.
    apply dict_get_in_keys in E. contradiction.
  - rewrite (proj2 (String.eqb_neq k k0) N). auto.
Qed.

(** X6. After a [delete_task] that returned [True], [retrieve_task] finds
    nothing under the name (the keys of a dict being distinct). *)
Theorem delete_task_then_retrieve
    (name : string) (module : option string) (s s' : state) :
  delete_task name module s = (Ret true, s') ->
  NoDup (dict_keys (taskstore s)) ->
  (forall m d, dict_get m (taskstore s) = Some (EScope d) ->
               NoDup (dict_keys d)) ->
  retrieve_task name module s' = (Ret None, s').
Proof.
  unfold delete_task. intros E Hnd Hnd'. revert E.
  destruct (cancel_task_frame name module s) as (b & s1 & Ec & F1 & F2).
  unfold retrieve_task, resolve_ts, ts_get, ts_del, deref_scope, subscript.
  destruct module as [m|]; step; rewrite Ec; step.
  - rewrite F1.
    destruct (dict_get m (taskstore s)) as [[t|d]|] eqn:Em; step;
      try discriminate.
    rewrite F1, Em; step.
    destruct (dict_mem name d); step; try discriminate.
    intros [= <-]; simpl. rewrite F1, dict_get_set_same; step.
    rewrite dict_get_set_same; step.
    rewrite dict_get_del_same_string by eauto. reflexivity.
  - rewrite F1.
    destruct (dict_mem name (taskstore s)); step; try discriminate.
    intros [= <-]; simpl.
    rewrite dict_get_del_same_string by auto. reflexivity.
Qed.

Lemma delete_task_then_retrieve_witness :
  retrieve_task "blink" (Some "led")
    (snd (delete_task "blink" (Some "led") led_store))
  = (Ret None, snd (delete_task "blink" (Some "led") led_store)).
Proof.
  apply (delete_task_then_retrieve "blink" (Some "led") led_store).
  - reflexivity.
  - repeat constructor. intros [].
  - intros m d. simpl.
    destruct (String.eqb m "led"); [|discriminate].
    intros [= <-]. repeat constructor. intros [].
Defined.

(** X7. [delete_task(m)] without a module, where [m] is the name of a
    module: the call returns [True] and removes the module with all that
    it holds; none of its tasks is asked to stop. *)
Theorem delete_task_of_module_name
    (m : string) (d : dict string task_id) (s : state) :
  dict_get m (taskstore s) = Some (EScope d) ->
  delete_task m None s = (Ret true, with_store (dict_del m (taskstore s)) s)
  /\ cancel_log (snd (delete_task m None s)) = cancel_log s.
Proof.
  intros Em.
  assert (E : delete_task m None s
              = (Ret true, with_store (dict_del m (taskstore s)) s)).
  { unfold delete_task, cancel_task, resolve_ts, ts_get, ts_del, subscript,
      entry_cancel. step. rewrite Em; step. unfold dict_mem. now rewrite Em. }
  split; [exact E|]. now rewrite E.
Qed.

Lemma delete_task_of_module_name_witness :
  delete_task "led" None led_store
  = (Ret true, with_store (dict_del "led" (taskstore led_store)) led_store)
  /\ cancel_log (snd (delete_task "led" None led_store)) = cancel_log led_store.
Proof.
  apply (delete_task_of_module_name "led" [("blink", 0)] led_store).
  reflexivity.
Defined.

(** A task created under a module is listed by
    [retrieve_all_module_tasks] for that module. *)
Theorem create_task_listed_in_module
    (coro : coro_fn) (name : option string) (m : string) (recreate : bool)
    (coro_args : option (list Z)) (coro_kwargs : option (list (string * Z)))
    (s s' : state) :
  create_task coro name (Some m) recreate coro_args coro_kwargs s
  = (Ret Created, s') ->
  exists names,
    retrieve_all_module_tasks m s' = (Ret (Some names), s')
    /\ In (task_name coro name) names.
Proof.
  intros E.
  pose proof (post_run _ _ _ _ _
                (create_task_post coro name (Some m) recreate coro_args
                   coro_kwargs s) E) as (_ & _ & H2 & _).
  assert (Hf : fst (retrieve_task (task_name coro name) (Some m) s')
               = Ret (Some (ETask (List.length (spawn_log s)))))
    by now rewrite H2.
  apply retrieve_task_found in Hf. destruct Hf as (d & Em & En).
  exists (dict_keys d). split.
  - unfold retrieve_all_module_tasks, subscript. step. now rewrite Em.
  - eapply dict_get_in_keys; eassumption.
Qed.

Lemma create_task_listed_in_module_witness :
  exists names,
    retrieve_all_module_tasks "led" led_store = (Ret (Some names), led_store)
    /\ In (task_name blink_coro (Some "blink")) names.
Proof.
  apply (create_task_listed_in_module blink_coro (Some "blink") "led" false
           (Some []) (Some []) (init false None) led_store).
  reflexivity.
Defined.

(** ** The bulk operations on a store without modules *)

Lemma flat_tail k e d : flat ((k, e) :: d) -> flat d.
Proof. intros H k' e' Hin. apply (H k' e'). now right. Qed.

Lemma cancel_task_top k t s :
  dict_get k (taskstore s) = Some (ETask t) ->
  cur_task s <> Some t ->
  cancel_task k None s
  = (Ret true,
     {| taskstore := taskstore s; cancel_log := t :: cancel_log s;
        spawn_log := spawn_log s; cur_task := cur_task s;
        strict_iter := strict_iter s |}).
Proof.
  intros Ek Hcur. pose proof (cancel_task_cases k None s) as H.
  unfold retrieve_task, resolve_ts, ts_get, subscript in H. step.
  rewrite Ek in H. step.
  destruct (cur_task s) as [c|]; auto.
  destruct (Nat.eqb_spec c t); [congruence|auto].
Qed.

(** One turn of the loop of [delete_all_tasks], for the first key. *)
Lemma delete_all_step_head k t d s :
  taskstore s = (k, ETask t) :: d ->
  cur_task s <> Some t ->
  delete_all_step k tt s
  = (Ret tt,
     {| taskstore := d; cancel_log := t :: cancel_log s;
        spawn_log := spawn_log s; cur_task := cur_task s;
        strict_iter := strict_iter s |}).
Proof.
  intros Hs Hcur.
  assert (Ek : dict_get k (taskstore s) = Some (ETask t)).
  { rewrite Hs. simpl. now rewrite String.eqb_refl. }
  unfold delete_all_step, subscript. step. rewrite Ek; step.
  rewrite (cancel_task_top k t s Ek Hcur). simpl.
  unfold ts_del. step. unfold dict_mem. rewrite Ek. simpl.
  rewrite Hs. simpl. now rewrite String.eqb_refl.
Qed.

(** The loop of [delete_all_tasks], where the interpreter makes no check
    on the size of the dict. *)
Lemma delete_loop_flat n0 d :
  forall s,
    taskstore s = d ->
    flat d ->
    strict_iter s = false ->
    (forall t, In t (tasks_of d) -> cur_task s <> Some t) ->
    for_keys n0 (dict_keys d) delete_all_step tt s
    = (Ret tt,
       {| taskstore := []; cancel_log := (rev (tasks_of d) ++ cancel_log s)%list;
          spawn_log := spawn_log s; cur_task := cur_task s;
          strict_iter := false |}).
Proof.
  induction d as [|[k e] d IH]; intros s Hs Hflat Hstrict Hcur.
  - simpl. step. rewrite Hstrict. simpl.
    destruct s; simpl in *; subst; reflexivity.
  - destruct (Hflat k e (or_introl eq_refl)) as [t ->].
    cbn [dict_keys map fst]. rewrite for_keys_step. rewrite Hstrict.
    cbn [andb]. rewrite Hs. unfold dict_mem. cbn [dict_get keq EqKey_string].
    rewrite String.eqb_refl.
    rewrite (delete_all_step_head k t d s Hs) by (apply Hcur; now left).
    fold (dict_keys d).
    rewrite IH; simpl; auto.
    + now rewrite <- app_assoc.
    + now apply flat_tail in Hflat.
    + intros t' Ht'. apply Hcur. now right.
Qed.

(** X8. On MicroPython, where a [for] over a dict makes no check on its
    size, [delete_all_tasks] on a store that holds tasks of the global
    scope only (the running task not among them) asks each task to stop,
    in the order of the store, removes them all and returns [True]. *)
Theorem delete_all_tasks_flat (s : state) :
  flat (taskstore s) ->
  strict_iter s = false ->
  (forall t, In t (tasks_of (taskstore s)) -> cur_task s <> Some t) ->
  delete_all_tasks s
  = (Ret true,
     {| taskstore := [];
        cancel_log := (rev (tasks_of (taskstore s)) ++ cancel_log s)%list;
        spawn_log := spawn_log s; cur_task := cur_task s;
        strict_iter := false |}).
Proof.
  intros Hflat Hstrict Hcur. unfold delete_all_tasks, for_taskstore.
  unfold try_except, bind at 1. unfold bind at 1. unfold get at 1.
  now rewrite (delete_loop_flat _ (taskstore s) s).
Qed.

Lemma delete_all_tasks_flat_witness :
  delete_all_tasks (global_store false)
  = (Ret true,
     {| taskstore := []; cancel_log := [1; 0]; spawn_log := [(1, 0); (0, 0)];
        cur_task := None; strict_iter := false |}).
Proof.
  apply (delete_all_tasks_flat (global_store false)).
  - intros k e [[= <- <-]|[[= <- <-]|[]]]; eauto.
  - reflexivity.
  - intros t _. discriminate.
Defined.

(** Under an interpreter that checks the size of a dict while a
    [for] runs over it (CPython), [delete_all_tasks] on a store whose
    first key holds a task removes that task only: the next step of the
    loop raises [RuntimeError], and the call returns [False]. *)
Theorem delete_all_tasks_size_check
    (k : string) (t : task_id) (d : dict string entry) (s : state) :
  taskstore s = (k, ETask t) :: d ->
  strict_iter s = true ->
  cur_task s <> Some t ->
  delete_all_tasks s
  = (Ret false,
     {| taskstore := d; cancel_log := t :: cancel_log s;
        spawn_log := spawn_log s; cur_task := cur_task s;
        strict_iter := true |}).
Proof.
  intros Hs Hstrict Hcur. unfold delete_all_tasks, for_taskstore.
  unfold try_except, bind at 1. unfold bind at 1. unfold get at 1.
  rewrite Hs at 2. cbn [dict_keys map fst]. rewrite for_keys_step.
  rewrite Nat.eqb_refl, andb_false_r.
  rewrite Hs at 1. unfold dict_mem. cbn [dict_get keq EqKey_string].
  rewrite String.eqb_refl.
  rewrite (delete_all_step_head k t d s Hs Hcur).
  assert (Hraise : forall ks,
    for_keys (List.length (taskstore s)) ks delete_all_step tt
      {| taskstore := d; cancel_log := t :: cancel_log s;
         spawn_log := spawn_log s; cur_task := cur_task s;
         strict_iter := strict_iter s |}
    = (Raise RuntimeError,
       {| taskstore := d; cancel_log := t :: cancel_log s;
          spawn_log := spawn_log s; cur_task := cur_task s;
          strict_iter := strict_iter s |})).
  { intros ks.
    assert (Hne : Nat.eqb (List.length d) (List.length (taskstore s)) = false).
    { apply Nat.eqb_neq. rewrite Hs. simpl. lia. }
    destruct ks; simpl; unfold bind, get; simpl; rewrite Hstrict, Hne;
      reflexivity. }
  rewrite Hraise. simpl. now rewrite Hstrict.
Qed.

Lemma delete_all_tasks_size_check_witness :
  delete_all_tasks (global_store true)
  = (Ret false,
     {| taskstore := [("fade", ETask 1)]; cancel_log := [0];
        spawn_log := [(1, 0); (0, 0)]; cur_task := None;
        strict_iter := true |}).
Proof.
  apply (delete_all_tasks_size_check "blink" 0 [("fade", ETask 1)]
           (global_store true)).
  - reflexivity.
  - reflexivity.
  - discriminate.
Defined.

Lemma dict_get_middle {V} (k : string) (v : V) (d1 d2 : dict string V) :
  ~ In k (dict_keys d1) ->
  dict_get k (d1 ++ (k, v) :: d2)%list = Some v.
Proof.
  unfold dict_keys. induction d1 as [|[k0 v0] d1 IH]; simpl; intros Hn.
  - now rewrite String.eqb_refl.
  - destruct (String.eqb_spec k k0) as [->|N]; [tauto|]. apply IH. tauto.
Qed.

(** The loop of [cancel_all_tasks] over the keys that are left, [d1]
    being the part of the store that it has passed. *)
Lemma cancel_loop_flat n0 d2 :
  forall d1 s,
    taskstore s = (d1 ++ d2)%list ->
    NoDup (dict_keys (d1 ++ d2)%list) ->
    flat d2 ->
    List.length (taskstore s) = n0 ->
    (forall t, In t (tasks_of d2) -> cur_task s <> Some t) ->
    for_keys n0 (dict_keys d2) cancel_all_step tt s
    = (Ret tt,
       {| taskstore := taskstore s;
          cancel_log := (rev (tasks_of d2) ++ cancel_log s)%list;
          spawn_log := spawn_log s; cur_task := cur_task s;
          strict_iter := strict_iter s |}).
Proof.
  induction d2 as [|[k e] d2 IH]; intros d1 s Hs Hnd Hflat Hn Hcur.
  - rewrite for_keys_nil by assumption. destruct s; reflexivity.
  - destruct (Hflat k e (or_introl eq_refl)) as [t ->].
    assert (Hk : ~ In k (dict_keys d1)).
    { unfold dict_keys in *. rewrite map_app in Hnd. simpl in Hnd.
      apply NoDup_remove_2 in Hnd. intros Hin. apply Hnd.
      apply in_or_app. now left. }
    assert (Ek : dict_get k (taskstore s) = Some (ETask t)).
    { rewrite Hs. now apply dict_get_middle. }
    cbn [dict_keys map fst]. rewrite for_keys_cons by assumption.
    rewrite (dict_mem_get _ _ _ Ek).
    unfold bind at 1. unfold cancel_all_step, subscript. step.
    rewrite Ek; step.
    assert (Hc : cancel t s
                 = (Ret tt, {| taskstore := taskstore s;
                               cancel_log := t :: cancel_log s;
                               spawn_log := spawn_log s;
                               cur_task := cur_task s;
                               strict_iter := strict_iter s |})).
    { unfold cancel. pose proof (Hcur t (or_introl eq_refl)) as Hne.
      destruct (cur_task s) as [c|]; auto.
      destruct (Nat.eqb_spec c t); [congruence|auto]. }
    rewrite Hc. fold (dict_keys d2).
    rewrite (IH (d1 ++ [(k, ETask t)])%list); simpl; auto;
      try (now rewrite <- app_assoc);
      try (now apply flat_tail in Hflat);
      try (intros t' Ht'; apply Hcur; now right).
Qed.

(** X9. [cancel_all_tasks] on a store that holds tasks of the global
    scope only (the running task not among them) asks each task to stop,
    once and in the order of the store, keeps them all registered and
    returns [True]. *)
Theorem cancel_all_tasks_flat (s : state) :
  flat (taskstore s) ->
  NoDup (dict_keys (taskstore s)) ->
  (forall t, In t (tasks_of (taskstore s)) -> cur_task s <> Some t) ->
  cancel_all_tasks s
  = (Ret true,
     {| taskstore := taskstore s;
        cancel_log := (rev (tasks_of (taskstore s)) ++ cancel_log s)%list;
        spawn_log := spawn_log s; cur_task := cur_task s;
        strict_iter := strict_iter s |}).
Proof.
  intros Hflat Hnd Hcur. unfold cancel_all_tasks, for_taskstore.
  unfold try_except, bind at 1. unfold bind at 1. unfold get at 1.
  now rewrite (cancel_loop_flat _ (taskstore s) [] s).
Qed.

Lemma cancel_all_tasks_flat_witness :
  cancel_all_tasks (global_store true)
  = (Ret true,
     {| taskstore := [("blink", ETask 0); ("fade", ETask 1)];
        cancel_log := [1; 0]; spawn_log := [(1, 0); (0, 0)];
        cur_task := None; strict_iter := true |}).
Proof.
  apply (cancel_all_tasks_flat (global_store true)).
  - intros k e [[= <- <-]|[[= <- <-]|[]]]; eauto.
  - repeat constructor; simpl; intuition discriminate.
  - intros t _. discriminate.
Defined.

End TaskStoreSpec.

(* ===================================================================== *)
(** * The event registry *)
(* ===================================================================== *)

Module EventStoreSpec.
Import EventStore PyFacts.

Ltac step :=
  unfold try_except, bind, ret, raise, get, put, or_raise in *; simpl in *.

(** [set_event] looks the event up under [name] instead of [module], then
    under the integer [0] in a dict keyed by names, and would call [set] on
    a tuple: every path ends in the bare [except]. *)
Lemma set_event_returns_false module name s :
  set_event module name s = (Ret false, s).
Proof.
  unfold set_event, subscript, scope_subscript, tuple_set. step.
  destruct (dict_get (KStr name) (eventstore s)) as [scope|]; step;
    [|reflexivity].
  destruct (dict_get (KInt 0) scope); reflexivity.
Qed.

(** A created event is there, with its flag down. *)
Lemma create_event_creates module name s s' :
  create_event module name s = (Ret true, s') ->
  retrieve_event module name s' = (Ret (Some false), s').
Proof.
  unfold create_event, retrieve_event, store_event, subscript, scope_subscript.
  set (m := KStr (module_name module)). step.
  destruct (dict_mem m (eventstore s)) eqn:Hm; step.
  - unfold dict_mem in Hm.
    destruct (dict_get m (eventstore s)) as [scope|] eqn:Em; try discriminate.
    step. destruct (dict_mem (KStr name) scope); step; try discriminate.
    rewrite Em; step. intros [= <-]; simpl.
    rewrite dict_get_set_same; step. now rewrite dict_get_set_same.
  - rewrite dict_get_set_same; step. rewrite dict_get_set_same; step.
    intros [= <-]; simpl. rewrite dict_get_set_same; step.
    now rewrite String.eqb_refl.
Qed.

(** C5. After a successful [create_event(module, name)], a call
    [set_event(module, name)] returns [False] and changes nothing: the
    event is still there with its flag down. *)
Theorem set_event_after_create_fails
    (module : module_ref) (name : string) (s s' : state) :
  create_event module name s = (Ret true, s') ->
  set_event module name s' = (Ret false, s')
  /\ retrieve_event module name s' = (Ret (Some false), s').
Proof.
  intros Hc. split.
  - apply set_event_returns_false.
  - exact (create_event_creates module name s s' Hc).
Qed.

(** The failing input of C5: [create_event("wifi", "connected")] on the
    empty store, then [set_event("wifi", "connected")]. *)
Lemma set_event_after_create_fails_witness :
  create_event (ModStr "wifi") "connected" init
  = (Ret true,
     with_store [(KStr "wifi",
                  [(KStr "connected", {| is_set := false; subscribers := [] |})])]
       init)
  /\ set_event (ModStr "wifi") "connected"
       (snd (create_event (ModStr "wifi") "connected" init))
     = (Ret false, snd (create_event (ModStr "wifi") "connected" init))
  /\ retrieve_event (ModStr "wifi") "connected"
       (snd (create_event (ModStr "wifi") "connected" init))
     = (Ret (Some false), snd (create_event (ModStr "wifi") "connected" init)).
Proof.
  split; [reflexivity|].
  apply (set_event_after_create_fails (ModStr "wifi") "connected" init).
  reflexivity.
Defined.

(** Whatever [task] is, one turn of the loop of [execute_subscribers]
    raises: [task()] does, or else [isinstance] does, whose second argument
    is a coroutine object and not a class. *)
Lemma run_subscriber_raises task s :
  exists e s', run_subscriber task tt s = (Raise e, s').
Proof.
  unfold run_subscriber, call, isinstance. step.
  destruct task as [f|l|a]; eauto.
  destruct (act_kind a) as [[e|]|]; eauto.
Qed.

(** The lookup of [execute_subscribers] and the loop after it raise on
    every heap, and no subscriber has been called: the heap is unchanged. *)
Lemma execute_subscribers_try_raises event s :
  exists e, execute_subscribers_try event s = (Raise e, s).
Proof.
  unfold execute_subscribers_try, subscript, scope_subscript,
    subscribers_loop, tuple_items. step.
  destruct (dict_get event (eventstore s)) as [scope|]; step; eauto.
  destruct (dict_get (KInt 1) scope); step; eauto.
Qed.

(** C3. [execute_subscribers] calls no subscriber at all: on every heap
    and for every argument it raises, and the heap, the log of called
    subscribers included, is the one before the call.  The store is keyed
    by module name and then by event name, the method looks its argument up
    in the store and then the integer [1] in the module's dict. *)
Theorem execute_subscribers_invokes_nothing (event : pykey) (s : state) :
  exists e, execute_subscribers event s = (Raise e, s)
            /\ invoked (snd (execute_subscribers event s)) = invoked s.
Proof.
  unfold execute_subscribers, try_except.
  destruct (execute_subscribers_try_raises event s) as [e ->].
  exists e. split; reflexivity.
Qed.

(** The failing input of C3: an event with two subscribers; neither is
    called, whether the method is given the module name or an object. *)
Lemma execute_subscribers_on_wifi_events :
  fst (retrieve_all_module_events (ModStr "wifi") wifi_events)
  = Ret (Some [KStr "connected"])
  /\ execute_subscribers (KStr "wifi") wifi_events = (Raise KeyError, wifi_events)
  /\ execute_subscribers (KObj 0) wifi_events = (Raise KeyError, wifi_events)
  /\ invoked wifi_events = [].
Proof. repeat split. Qed.




(** ** Creation, subscription and deletion *)

Lemma lookup_other m n m' n' v scope s :
  m' <> m \/ n' <> n ->
  dict_get (KStr m) (eventstore s) = Some scope ->
  lookup m' n'
    (with_store (dict_set (KStr m) (dict_set (KStr n) v scope) (eventstore s)) s)
  = lookup m' n' s.
Proof.
  intros Hne Em. unfold lookup. simpl.
  destruct (String.eqb_spec m m') as [<-|N].
  - rewrite dict_get_set_same, Em.
    destruct Hne as [H|H]; [congruence|].
    apply dict_get_set_other. congruence.
  - rewrite dict_get_set_other by congruence. reflexivity.
Qed.

(** X10. [create_event] returns [True] exactly when the module has no
    event of that name; the event is then there, clear and without
    subscribers, and every other event is as before.  On an event that
    exists it returns [False] and changes nothing, the subscribers
    included. *)
Theorem create_event_outcome (module : module_ref) (name : string) (s : state) :
  match lookup (module_name module) name s with
  | Some _ => create_event module name s = (Ret false, s)
  | None =>
      exists s',
        create_event module name s = (Ret true, s')
        /\ lookup (module_name module) name s'
           = Some {| is_set := false; subscribers := [] |}
        /\ forall m' n',
             m' <> module_name module \/ n' <> name ->
             lookup m' n' s' = lookup m' n' s
  end.
Proof.
  unfold lookup at 1, create_event, store_event, subscript.
  set (m := module_name module). step. unfold dict_mem.
  destruct (dict_get (KStr m) (eventstore s)) as [scope|] eqn:Em; step.
  - rewrite Em; step.
    destruct (dict_get (KStr name) scope) as [ev|] eqn:En; step; auto.
    rewrite Em; step. eexists. split; [reflexivity|]. split.
    + unfold lookup. simpl. rewrite dict_get_set_same.
      now rewrite dict_get_set_same.
    + intros m' n' Hne. now apply lookup_other.
  - rewrite dict_get_set_same; step. rewrite dict_get_set_same; step.
    eexists. split; [reflexivity|]. split.
    + unfold lookup. simpl. rewrite dict_get_set_same. simpl.
      now rewrite String.eqb_refl.
    + intros m' n' Hne. unfold lookup. simpl.
      destruct (String.eqb_spec m m') as [<-|N].
      * rewrite dict_get_set_same, Em. simpl.
        destruct Hne as [H|H]; [congruence|].
        destruct (String.eqb_spec n' name); [congruence|reflexivity].
      * rewrite !dict_get_set_other by congruence. reflexivity.
Qed.

(** X11. [subscribe_task] returns [True] exactly when the event exists;
    the action is then the last of its subscribers, behind those that were
    there, and every other event is as before.  Otherwise it returns
    [False] and changes nothing. *)
Theorem subscribe_task_outcome
    (module : module_ref) (name : string) (task : action) (s : state) :
  match lookup (module_name module) name s with
  | Some ev =>
      exists s',
        subscribe_task module name task s = (Ret true, s')
        /\ lookup (module_name module) name s'
           = Some {| is_set := is_set ev;
                     subscribers := (subscribers ev ++ [task])%list |}
        /\ forall m' n',
             m' <> module_name module \/ n' <> name ->
             lookup m' n' s' = lookup m' n' s
  | None => subscribe_task module name task s = (Ret false, s)
  end.
Proof.
  unfold lookup at 1, subscribe_task, store_event, subscript, scope_subscript.
  set (m := module_name module). step.
  destruct (dict_get (KStr m) (eventstore s)) as [scope|] eqn:Em; step; auto.
  destruct (dict_get (KStr name) scope) as [ev|] eqn:En; step; auto.
  rewrite Em; step. eexists. split; [reflexivity|]. split.
  - unfold lookup. simpl. rewrite dict_get_set_same.
    now rewrite dict_get_set_same.
  - intros m' n' Hne. now apply lookup_other.
Qed.

Lemma list_remove_last a l :
  subscribed a l = false -> list_remove a (l ++ [a])%list = Some l.
Proof.
  unfold subscribed. induction l as [|b l IH]; simpl.
  - now rewrite Nat.eqb_refl.
  - destruct (Nat.eqb (act_id a) (act_id b)); simpl; [discriminate|].
    intros H. now rewrite IH.
Qed.

Lemma list_remove_none a l :
  subscribed a l = false -> list_remove a l = None.
Proof.
  unfold subscribed. induction l as [|b l IH]; simpl; auto.
  destruct (Nat.eqb (act_id a) (act_id b)); simpl; [discriminate|].
  intros H. now rewrite IH.
Qed.

Lemma list_remove_length a l l' :
  list_remove a l = Some l' ->
  subscribed a l = true /\ List.length l = S (List.length l').
Proof.
  unfold subscribed. revert l'. induction l as [|b l IH]; simpl; intros l';
    [discriminate|].
  destruct (Nat.eqb (act_id a) (act_id b)); simpl.
  - now intros [= <-].
  - destruct (list_remove a l) as [r|]; [|discriminate].
    intros [= <-]. destruct (IH r eq_refl) as [H1 H2]. simpl. auto.
Qed.

(** X12. [unsubscribe_task] returns [True] exactly when the event exists
    and the action is among its subscribers; one occurrence of it, the
    first, is then gone and the other subscribers keep their order.
    Otherwise it returns [False] and changes nothing. *)
Theorem unsubscribe_task_outcome
    (module : module_ref) (name : string) (task : action) (s : state) :
  match lookup (module_name module) name s with
  | Some ev =>
      match list_remove task (subscribers ev) with
      | Some l =>
          exists s',
            unsubscribe_task module name task s = (Ret true, s')
            /\ lookup (module_name module) name s'
               = Some {| is_set := is_set ev; subscribers := l |}
            /\ List.length (subscribers ev) = S (List.length l)
            /\ forall m' n',
                 m' <> module_name module \/ n' <> name ->
                 lookup m' n' s' = lookup m' n' s
      | None =>
          subscribed task (subscribers ev) = false
          /\ unsubscribe_task module name task s = (Ret false, s)
      end
  | None => unsubscribe_task module name task s = (Ret false, s)
  end.
Proof.
  unfold lookup at 1, unsubscribe_task, store_event, subscript, scope_subscript.
  set (m := module_name module). step.
  destruct (dict_get (KStr m) (eventstore s)) as [scope|] eqn:Em; step; auto.
  destruct (dict_get (KStr name) scope) as [ev|] eqn:En; step; auto.
  destruct (list_remove task (subscribers ev)) as [l|] eqn:El; step.
  - rewrite Em; step. eexists. split; [reflexivity|]. split; [|split].
    + unfold lookup. simpl. rewrite dict_get_set_same.
      now rewrite dict_get_set_same.
    + now apply list_remove_length in El.
    + intros m' n' Hne. now apply lookup_other.
  - split; auto. destruct (subscribed task (subscribers ev)) eqn:Hs; auto.
    exfalso. clear - El Hs. unfold subscribed in Hs.
    induction (subscribers ev) as [|b l IH]; simpl in *; [discriminate|].
    destruct (Nat.eqb (act_id task) (act_id b)); [discriminate|].
    simpl in Hs. destruct (list_remove task l); [discriminate|auto].
Qed.

(** X13. Subscribing an action that is not yet subscribed and then
    unsubscribing it gives the event its subscribers back. *)
Theorem subscribe_then_unsubscribe
    (module : module_ref) (name : string) (task : action) (ev : event_rec)
    (s : state) :
  lookup (module_name module) name s = Some ev ->
  subscribed task (subscribers ev) = false ->
  exists s1 s2,
    subscribe_task module name task s = (Ret true, s1)
    /\ unsubscribe_task module name task s1 = (Ret true, s2)
    /\ lookup (module_name module) name s2 = Some ev.
Proof.
  unfold lookup, subscribe_task, unsubscribe_task, store_event, subscript,
    scope_subscript.
  set (m := module_name module). intros Hl Hs.
  destruct (dict_get (KStr m) (eventstore s)) as [scope|] eqn:Em;
    [|discriminate].
  step. rewrite Em; step. rewrite Hl; step. rewrite Em; step.
  do 2 eexists. split; [reflexivity|]. unfold with_store. simpl.
  rewrite dict_get_set_same; step. rewrite dict_get_set_same; step.
  rewrite (list_remove_last _ _ Hs); step.
  rewrite dict_get_set_same; step.
  split; [reflexivity|]. simpl.
  rewrite dict_get_set_same. rewrite dict_get_set_same. now destruct ev.
Qed.

Lemma subscribe_then_unsubscribe_witness :
  exists s1 s2,
    subscribe_task (ModStr "wifi") "connected" failing_sub
      (snd (create_event (ModStr "wifi") "connected" init)) = (Ret true, s1)
    /\ unsubscribe_task (ModStr "wifi") "connected" failing_sub s1 = (Ret true, s2)
    /\ lookup "wifi" "connected" s2 = Some {| is_set := false; subscribers := [] |}.
Proof.
  apply (subscribe_then_unsubscribe (ModStr "wifi") "connected" failing_sub
           {| is_set := false; subscribers := [] |}
           (snd (create_event (ModStr "wifi") "connected" init)));
    reflexivity.
Defined.

(** X14. [delete_event] returns [True] exactly when the event exists; the
    event is then gone with its subscribers (the names of a module being
    distinct), its module stays bound, and every other event is as before.
    Otherwise it returns [False] and changes nothing. *)
Theorem delete_event_outcome (module : module_ref) (name : string) (s : state) :
  match lookup (module_name module) name s with
  | Some _ =>
      exists s',
        delete_event module name s = (Ret true, s')
        /\ dict_mem (KStr (module_name module)) (eventstore s') = true
        /\ ((forall scope,
               dict_get (KStr (module_name module)) (eventstore s) = Some scope ->
               NoDup (dict_keys scope)) ->
            lookup (module_name module) name s' = None)
        /\ forall m' n',
             m' <> module_name module \/ n' <> name ->
             lookup m' n' s' = lookup m' n' s
  | None => delete_event module name s = (Ret false, s)
  end.
Proof.
  unfold lookup at 1, delete_event, subscript.
  set (m := module_name module). step. unfold dict_mem.
  destruct (dict_get (KStr m) (eventstore s)) as [scope|] eqn:Em; step; auto.
  destruct (dict_get (KStr name) scope) as [ev|] eqn:En; step; auto.
  eexists. split; [reflexivity|]. simpl. split; [|split].
  - now rewrite dict_get_set_same.
  - intros Hnd. unfold lookup. simpl. rewrite dict_get_set_same.
    apply dict_get_del_same. now apply Hnd.
  - intros m' n' Hne. unfold lookup. simpl.
    destruct (String.eqb_spec m m') as [<-|N].
    + rewrite dict_get_set_same, Em.
      destruct Hne as [H|H]; [congruence|].
      apply dict_get_del_other. congruence.
    + rewrite dict_get_set_other by congruence. reflexivity.
Qed.

(** The loop of [retrieve_all_events] over the modules: it returns the
    list it was given when every module is empty, and raises
    [AttributeError] at the first module that holds an event. *)
Lemma all_events_loop_empty s ks (l : list pykey) :
  (forall m, In m ks -> dict_get m (eventstore s) = Some []) ->
  for_each ks
    (fun module l =>
       scope <- subscript module ;;
       for_each (dict_keys scope)
         (fun event_tuple l => list_apppend l event_tuple) l) l s
  = (Ret l, s).
Proof.
  induction ks as [|k ks IH]; intros Hall; simpl; [reflexivity|].
  unfold subscript. step. rewrite (Hall k (or_introl eq_refl)). simpl.
  apply IH. intros m Hm. apply Hall. now right.
Qed.

Lemma all_events_loop_raises s ks (l : list pykey) m k ev rest :
  dict_get m (eventstore s) = Some ((k, ev) :: rest) ->
  In m ks ->
  (forall m', In m' ks -> dict_mem m' (eventstore s) = true) ->
  for_each ks
    (fun module l =>
       scope <- subscript module ;;
       for_each (dict_keys scope)
         (fun event_tuple l => list_apppend l event_tuple) l) l s
  = (Raise AttributeError, s).
Proof.
  intros Em. revert l. induction ks as [|k0 ks IH]; intros l Hin Hall;
    [destruct Hin|].
  simpl. unfold subscript. step.
  pose proof (Hall k0 (or_introl eq_refl)) as Hk0. unfold dict_mem in Hk0.
  destruct (dict_get k0 (eventstore s)) as [scope|] eqn:Ek0; [|discriminate].
  simpl. destruct scope as [|[k1 ev1] scope]; simpl.
  - apply IH.
    + destruct Hin as [->|Hin]; [congruence|assumption].
    + intros m' Hm'. apply Hall. now right.
  - reflexivity.
Qed.

(** X15. [retrieve_all_events] never returns an event: its result is the
    empty list when no module holds an event, and [None] as soon as one
    does ([l.apppend] is no method of a list). *)
Theorem retrieve_all_events_outcome (s : state) :
  ((forall m scope, dict_get m (eventstore s) = Some scope -> scope = []) ->
   retrieve_all_events s = (Ret (Some []), s))
  /\ (forall m k ev rest,
        dict_get m (eventstore s) = Some ((k, ev) :: rest) ->
        retrieve_all_events s = (Ret None, s)).
Proof.
  split.
  - intros Hall. unfold retrieve_all_events.
    unfold try_except, bind at 1. unfold bind at 1. unfold get at 1.
    rewrite all_events_loop_empty; [reflexivity|].
    intros m Hm. destruct (dict_get_of_key m (eventstore s) Hm) as [scope E].
    rewrite E. f_equal. eauto.
  - intros m k ev rest Em. unfold retrieve_all_events.
    unfold try_except, bind at 1. unfold bind at 1. unfold get at 1.
    rewrite (all_events_loop_raises s _ [] m k ev rest Em); [reflexivity| |].
    + eapply dict_get_in_keys; eassumption.
    + intros m' Hm'. destruct (dict_get_of_key m' (eventstore s) Hm') as [sc E].
      unfold dict_mem. now rewrite E.
Qed.

Lemma retrieve_all_events_outcome_witness :
  retrieve_all_events init = (Ret (Some []), init)
  /\ retrieve_all_events wifi_events = (Ret None, wifi_events).
Proof.
  split.
  - apply (proj1 (retrieve_all_events_outcome init)).
    intros m scope. discriminate.
  - apply (proj2 (retrieve_all_events_outcome wifi_events) (KStr "wifi")
             (KStr "connected")
             {| is_set := false; subscribers := [failing_sub; logging_sub] |} []).
    reflexivity.
Defined.

(** ** The flags *)

Lemma all_clear_store m n v scope s :
  all_clear s ->
  dict_get m (eventstore s) = Some scope ->
  is_set v = false ->
  all_clear (with_store (dict_set m (dict_set n v scope) (eventstore s)) s).
Proof.
  intros Hs Em Hv m0 sc0 n0 ev0 H1 H2. simpl in H1.
  apply In_dict_set in H1. destruct H1 as [[-> ->]|H1].
  - apply In_dict_set in H2. destruct H2 as [[-> ->]|H2]; auto.
    apply dict_get_In in Em. eapply Hs; eassumption.
  - eapply Hs; eassumption.
Qed.

Lemma all_clear_found m n ev scope s :
  all_clear s ->
  dict_get m (eventstore s) = Some scope ->
  dict_get n scope = Some ev ->
  is_set ev = false.
Proof.
  intros Hs Em En. apply dict_get_In in Em. apply dict_get_In in En.
  eapply Hs; eassumption.
Qed.

(** X16. No operation of the registry puts the flag of an event up: when
    every event of the store is clear before a call, every event is clear
    after it, and an event that [retrieve_event] returns is clear. *)
Theorem registry_keeps_events_clear (s : state) :
  all_clear s ->
  (forall module name, all_clear (snd (create_event module name s)))
  /\ (forall module name, all_clear (snd (set_event module name s)))
  /\ (forall module name, all_clear (snd (clear_event module name s)))
  /\ (forall module name, all_clear (snd (delete_event module name s)))
  /\ (forall module name task,
        all_clear (snd (subscribe_task module name task s)))
  /\ (forall module name task,
        all_clear (snd (unsubscribe_task module name task s)))
  /\ (forall event, all_clear (snd (execute_subscribers event s)))
  /\ (forall module name flag,
        fst (retrieve_event module name s) = Ret (Some flag) -> flag = false).
Proof.
  intros Hs. repeat split; intros.
  - unfold create_event, store_event, subscript. step. unfold dict_mem.
    destruct (dict_get (KStr (module_name module)) (eventstore s))
      as [scope|] eqn:Em; step.
    + rewrite Em; step.
      destruct (dict_get (KStr name) scope); step; auto.
      rewrite Em; step. now apply all_clear_store.
    + rewrite dict_get_set_same; step. rewrite dict_get_set_same; step.
      intros m0 sc0 n0 ev0 H1 H2. simpl in H1.
      apply In_dict_set in H1. destruct H1 as [[-> ->]|H1].
      * destruct H2 as [[= <- <-]|[]]. reflexivity.
      * apply In_dict_set in H1. destruct H1 as [[-> ->]|H1]; [destruct H2|].
        eapply Hs; eassumption.
  - now rewrite set_event_returns_false.
  - unfold clear_event, store_event, subscript, scope_subscript. step.
    destruct (dict_get (KStr (module_name module)) (eventstore s))
      as [scope|] eqn:Em; step; auto.
    destruct (dict_get (KStr name) scope); step; auto.
    rewrite Em; step. now apply all_clear_store.
  - unfold delete_event, subscript. step.
    destruct (dict_get (KStr (module_name module)) (eventstore s))
      as [scope|] eqn:Em; step; auto.
    destruct (dict_mem (KStr name) scope); step; auto.
    intros m0 sc0 n0 ev0 H1 H2. simpl in H1.
    apply In_dict_set in H1. destruct H1 as [[-> ->]|H1].
    + apply In_dict_del in H2. apply dict_get_In in Em.
      eapply Hs; eassumption.
    + eapply Hs; eassumption.
  - unfold subscribe_task, store_event, subscript, scope_subscript. step.
    destruct (dict_get (KStr (module_name module)) (eventstore s))
      as [scope|] eqn:Em; step; auto.
    destruct (dict_get (KStr name) scope) as [ev|] eqn:En; step; auto.
    rewrite Em; step. apply all_clear_store; auto.
    simpl. eapply all_clear_found; eassumption.
  - unfold unsubscribe_task, store_event, subscript, scope_subscript. step.
    destruct (dict_get (KStr (module_name module)) (eventstore s))
      as [scope|] eqn:Em; step; auto.
    destruct (dict_get (KStr name) scope) as [ev|] eqn:En; step; auto.
    destruct (list_remove task (subscribers ev)); step; auto.
    rewrite Em; step. apply all_clear_store; auto.
    simpl. eapply all_clear_found; eassumption.
  - unfold execute_subscribers, try_except.
    destruct (execute_subscribers_try_raises event s) as [e ->]. exact Hs.
  - revert H. unfold retrieve_event, subscript, scope_subscript. step.
    destruct (dict_get (KStr (module_name module)) (eventstore s))
      as [scope|] eqn:Em; step; try discriminate.
    destruct (dict_get (KStr name) scope) as [ev|] eqn:En; step;
      try discriminate.
    intros [= <-]. eapply all_clear_found; eassumption.
Qed.

Lemma registry_keeps_events_clear_witness :
  all_clear (snd (create_event (ModStr "wifi") "connected" init))
  /\ all_clear (snd (set_event (ModStr "wifi") "connected" init)).
Proof.
  assert (H0 : all_clear init) by (intros m scope n ev []).
  split.
  - apply (proj1 (registry_keeps_events_clear init H0)).
  - apply (proj1 (proj2 (registry_keeps_events_clear init H0))).
Defined.

End EventStoreSpec.

(* ===================================================================== *)
(** * The time-sync watchdog *)
(* ===================================================================== *)

Module NTPTimeSpec.
Import NTPTime.
Local Open Scope Z_scope.

Section AllAttemptsFail.
Variable ntp : env.
Hypothesis every_call_raises : forall k, settime_raises ntp k <> None.

(** With every call of [settime] raising, [sync_time] goes through the
    attempts that are left, and only the last of them writes the status
    code and [_last_sync]. *)
Lemma sync_time_all_fail fuel :
  forall failures d w,
    (sync_fuel d failures <= fuel)%nat ->
    exists r d' w',
      sync_time ntp fuel failures d w = Some (r, d', w')
      /\ status_code d' = 2
      /\ last_sync d' = now w'
      /\ initial_sync d' = true
      /\ sync_interval d' = sync_interval d
      /\ calls w' = (calls w + S (sync_fuel d failures))%nat.
Proof.
  induction fuel as [|fuel IH]; intros failures d w Hfuel;
    unfold sync_fuel in *; simpl; unfold settime;
    destruct (settime_raises ntp (calls w)) as [e|] eqn:Ek;
    try (exfalso; eapply every_call_raises; eassumption); simpl.
  - destruct (Z.ltb_spec failures (max_retries d - 1)) as [Hlt|Hge]; [lia|].
    do 3 eexists. split; [reflexivity|]. simpl. repeat split; lia.
  - destruct (Z.ltb_spec failures (max_retries d - 1)) as [Hlt|Hge].
    + match goal with
      | |- context [sync_time ntp fuel ?f ?d0 ?w0] =>
          destruct (IH f d0 w0) as (r & d' & w' & -> & H2 & H3 & H4 & H5 & H6)
      end.
      { unfold sync_fuel. simpl. lia. }
      do 3 eexists. split; [reflexivity|].
      unfold sync_fuel in H6. simpl in *. repeat split; auto. lia.
    + do 3 eexists. split; [reflexivity|]. simpl. repeat split; lia.
Qed.

End AllAttemptsFail.

(** C1, as the code has it.  When every attempt fails, [sync_time] makes
    [max(1, max_retries)] attempts, the exported status code becomes 2, and
    [_last_sync] is set to the clock reading at which the last attempt
    failed; from then on the watchdog loop does not synchronise until more
    than the sync interval has passed. *)
Theorem sync_time_exhausted (ntp : env) (d : driver) (w : world) :
  (forall k, settime_raises ntp k <> None) ->
  exists r d' w',
    sync_time ntp (sync_fuel d 0) 0 d w = Some (r, d', w')
    /\ status_code d' = 2
    /\ last_sync d' = now w'
    /\ calls w' = (calls w + Z.to_nat (Z.max 1 (max_retries d)))%nat
    /\ (forall w2,
          Clock.ticks_diff (now w2) (now w') <= sync_interval d * 1000 ->
          sync_due d' w2 = false).
Proof.
  intros Hfail.
  destruct (sync_time_all_fail ntp Hfail (sync_fuel d 0) 0 d w (le_n _))
    as (r & d' & w' & E & H2 & H3 & H4 & H5 & H6).
  exists r, d', w'. repeat split; auto.
  - rewrite H6. unfold sync_fuel. lia.
  - intros w2 Hw2. unfold sync_due. rewrite H4, H3, H5. simpl.
    rewrite Z.gtb_ltb. apply Z.ltb_ge. exact Hw2.
Qed.

(** The defaults against a time source that cannot be reached. *)
Lemma sync_time_exhausted_witness :
  exists r d' w',
    sync_time unreachable (sync_fuel default 0) 0 default boot = Some (r, d', w')
    /\ status_code d' = 2
    /\ last_sync d' = now w'
    /\ calls w' = (calls boot + Z.to_nat (Z.max 1 (max_retries default)))%nat
    /\ (forall w2,
          Clock.ticks_diff (now w2) (now w') <= sync_interval default * 1000 ->
          sync_due d' w2 = false).
Proof.
  apply (sync_time_exhausted unreachable default boot).
  intros k. simpl. discriminate.
Defined.

(** C1 as stated fails: five failed attempts, from [_last_sync = 0] at
    one second after boot, end with status code 2 and [_last_sync = 71000],
    the time of the last failure, in the field that the property
    [last_sync] documents as the last time the time was synced. *)
Lemma sync_time_exhausted_overwrites_last_sync :
  sync_time unreachable (sync_fuel default 0) 0 default boot
  = Some (None,
          {| last_sync := 71000; initial_sync := true;
             sync_interval := 86400; ntp_timeout := 10; max_retries := 5;
             status_code := 2 |},
          {| now := 71000; calls := 5; ntptime_timeout := 10 |})
  /\ last_sync default = 0
  /\ 71000 <> last_sync default.
Proof. repeat split. discriminate. Qed.

(** ** Success, termination and the waiting of the loop *)

(** [sync_time] from [failures] on, when the next [j] calls of [settime]
    raise and the one after them succeeds, [j] retries being allowed. *)
Lemma sync_time_success_after ntp (j : nat) :
  forall fuel failures d w,
    (j <= fuel)%nat ->
    (forall k, (k < j)%nat -> settime_raises ntp (calls w + k) <> None) ->
    settime_raises ntp (calls w + j) = None ->
    failures + Z.of_nat j <= max_retries d - 1 \/ j = O ->
    exists d' w',
      sync_time ntp fuel failures d w
      = Some (match j with O => Some true | S _ => None end, d', w')
      /\ status_code d' = 1
      /\ last_sync d' = now w'
      /\ initial_sync d' = true
      /\ calls w' = (calls w + S j)%nat.
Proof.
  induction j as [|j IH]; intros fuel failures d w Hfuel Hfail Hok Hroom.
  - rewrite Nat.add_0_r in Hok.
    destruct fuel; simpl; unfold settime; rewrite Hok; simpl;
      do 2 eexists; (split; [reflexivity|]); simpl; repeat split; lia.
  - destruct Hroom as [Hroom|Hroom]; [|discriminate].
    destruct fuel as [|fuel]; [lia|].
    simpl. unfold settime.
    pose proof (Hfail O ltac:(lia)) as H0. rewrite Nat.add_0_r in H0.
    destruct (settime_raises ntp (calls w)) as [e|] eqn:Ek; [|congruence].
    simpl.
    destruct (Z.ltb_spec failures (max_retries d - 1)) as [Hlt|Hge]; [|lia].
    match goal with
    | |- context [sync_time ntp fuel ?f ?d0 ?w0] =>
        destruct (IH fuel f d0 w0) as (d' & w' & -> & H2 & H3 & H4 & H5)
    end.
    + lia.
    + intros k Hk. unfold sleep. simpl.
      rewrite <- Nat.add_succ_r. apply Hfail. lia.
    + unfold sleep. simpl. rewrite <- Nat.add_succ_r. exact Hok.
    + left. simpl. lia.
    + do 2 eexists. split; [reflexivity|].
      unfold sleep in H5. simpl in H5. repeat split; auto. lia.
Qed.

(** X17. When the first [j] calls of [settime] raise and the next one
    succeeds, with [j < max_retries], [sync_time] ends with status code 1
    and [_last_sync] at the clock reading after the successful call, having
    made [j + 1] calls.  It returns [True] only when the first call
    succeeded: after a retry the outer call returns [None]. *)
Theorem sync_time_succeeds_after_failures
    (ntp : env) (j : nat) (d : driver) (w : world) :
  (forall k, (k < j)%nat -> settime_raises ntp (calls w + k) <> None) ->
  settime_raises ntp (calls w + j) = None ->
  Z.of_nat j < max_retries d \/ j = O ->
  exists d' w',
    sync_time ntp (sync_fuel d 0) 0 d w
    = Some (match j with O => Some true | S _ => None end, d', w')
    /\ status_code d' = 1
    /\ last_sync d' = now w'
    /\ calls w' = (calls w + S j)%nat.
Proof.
  intros Hfail Hok Hroom.
  destruct (sync_time_success_after ntp j (sync_fuel d 0) 0 d w)
    as (d' & w' & E & H1 & H2 & _ & H4); auto.
  - unfold sync_fuel. destruct Hroom; lia.
  - destruct Hroom; [left; lia | now right].
  - exists d', w'. auto.
Qed.

Lemma sync_time_succeeds_after_failures_witness :
  exists d' w',
    sync_time flaky (sync_fuel default 0) 0 default boot
    = Some (None, d', w')
    /\ status_code d' = 1
    /\ last_sync d' = now w'
    /\ calls w' = (calls boot + 3)%nat.
Proof.
  apply (sync_time_succeeds_after_failures flaky 2 default boot).
  - intros k Hk. simpl. destruct k as [|[|k]]; simpl; [discriminate..|lia].
  - reflexivity.
  - left. simpl. lia.
Defined.

(** [sync_time] ends within the attempts that are left, whatever the
    time source does. *)
Lemma sync_time_total ntp fuel :
  forall failures d w,
    (sync_fuel d failures <= fuel)%nat ->
    exists r d' w',
      sync_time ntp fuel failures d w = Some (r, d', w')
      /\ (status_code d' = 1 \/ status_code d' = 2)
      /\ last_sync d' = now w'
      /\ initial_sync d' = true
      /\ sync_interval d' = sync_interval d
      /\ max_retries d' = max_retries d
      /\ (calls w < calls w' <= calls w + S (sync_fuel d failures))%nat.
Proof.
  induction fuel as [|fuel IH]; intros failures d w Hfuel;
    unfold sync_fuel in *; simpl; unfold settime;
    destruct (settime_raises ntp (calls w)) as [e|] eqn:Ek; simpl;
    try (do 3 eexists; (split; [reflexivity|]); simpl; repeat split;
         auto; lia).
  - destruct (Z.ltb_spec failures (max_retries d - 1)) as [Hlt|Hge]; [lia|].
    do 3 eexists. split; [reflexivity|]. simpl. repeat split; auto; lia.
  - destruct (Z.ltb_spec failures (max_retries d - 1)) as [Hlt|Hge].
    + match goal with
      | |- context [sync_time ntp fuel ?f ?d0 ?w0] =>
          destruct (IH f d0 w0)
            as (r & d' & w' & -> & H2 & H3 & H4 & H5 & H6 & H7)
      end.
      { unfold sync_fuel. simpl. lia. }
      do 3 eexists. split; [reflexivity|].
      unfold sync_fuel, sleep in *. simpl in *. repeat split; auto; lia.
    + do 3 eexists. split; [reflexivity|]. simpl. repeat split; auto; lia.
Qed.

(** X18. Whatever the time source does, [sync_time()] ends after at least
    one and at most [max(1, max_retries)] calls of [settime], with status
    code 1 or 2 and [_last_sync] at the clock reading of its end. *)
Theorem sync_time_ends (ntp : env) (d : driver) (w : world) :
  exists r d' w',
    sync_time ntp (sync_fuel d 0) 0 d w = Some (r, d', w')
    /\ (status_code d' = 1 \/ status_code d' = 2)
    /\ last_sync d' = now w'
    /\ (calls w < calls w'
        <= calls w + Z.to_nat (Z.max 1 (max_retries d)))%nat.
Proof.
  destruct (sync_time_total ntp (sync_fuel d 0) 0 d w (le_n _))
    as (r & d' & w' & E & H2 & H3 & _ & _ & _ & H7).
  exists r, d', w'. repeat split; auto; try lia.
  unfold sync_fuel in H7. lia.
Qed.

(** The loop does nothing but wait while no synchronisation is due. *)
Lemma run_idle ntp (n : nat) :
  forall d w,
    initial_sync d = true ->
    now w + 100 * (Z.of_nat n - 1) - last_sync d <= sync_interval d * 1000 ->
    run ntp n d w
    = Some (d, {| now := now w + 100 * Z.of_nat n; calls := calls w;
                  ntptime_timeout := ntptime_timeout w |}).
Proof.
  induction n as [|n IH]; intros d w Hinit Hdue.
  - simpl. destruct w; simpl. do 3 f_equal. lia.
  - cbn [run]. unfold run_iter, sync_due. rewrite Hinit. cbn [negb orb].
    unfold Clock.ticks_diff.
    destruct (Z.gtb_spec (now w - last_sync d) (sync_interval d * 1000));
      [lia|].
    rewrite IH; auto.
    + unfold sleep_ms, Clock.after_sleep_ms. cbn [now calls ntptime_timeout].
      do 3 f_equal. lia.
    + unfold sleep_ms, Clock.after_sleep_ms. cbn [now]. lia.
Qed.

(** X19. After a [sync_time], successful or not, the loop of [_run] only
    waits: as long as the poll times stay within the sync interval of that
    end, its turns make no call of [settime] and change nothing in the
    driver. *)
Theorem run_waits_for_interval
    (ntp : env) (d : driver) (w : world) (n : nat) :
  exists r d' w',
    sync_time ntp (sync_fuel d 0) 0 d w = Some (r, d', w')
    /\ (100 * (Z.of_nat n - 1) <= sync_interval d * 1000 ->
        run ntp n d' w'
        = Some (d', {| now := now w' + 100 * Z.of_nat n; calls := calls w';
                       ntptime_timeout := ntptime_timeout w' |})).
Proof.
  destruct (sync_time_total ntp (sync_fuel d 0) 0 d w (le_n _))
    as (r & d' & w' & E & _ & H3 & H4 & H5 & _).
  exists r, d', w'. split; auto. intros Hn.
  apply run_idle; auto. rewrite H3, H5. lia.
Qed.

Lemma run_waits_for_interval_witness :
  exists r d' w',
    sync_time flaky (sync_fuel default 0) 0 default boot = Some (r, d', w')
    /\ (100 * (Z.of_nat 10 - 1) <= sync_interval default * 1000 ->
        run flaky 10 d' w'
        = Some (d', {| now := now w' + 100 * Z.of_nat 10; calls := calls w';
                       ntptime_timeout := ntptime_timeout w' |})).
Proof. apply (run_waits_for_interval flaky default boot 10). Defined.

End NTPTimeSpec.

(* ===================================================================== *)
(** * The network watchdog *)
(* ===================================================================== *)

Module WifiSpec.
Import Wifi.
Local Open Scope Z_scope.

Section NeverConnected.
Variable isconnected : Z -> bool.
Hypothesis never_connected : forall t, isconnected t = false.

(** The polling loop runs until the timeout has passed; its fuel
    suffices. *)
Lemma wait_connected_down fuel :
  forall start d w,
    timeout d * 1000 - (now w - start) <= 100 * Z.of_nat fuel ->
    exists w1,
      wait_connected isconnected fuel start d w = Some w1
      /\ trace w1 = trace w
      /\ timeout d * 1000 <= now w1 - start
      /\ now w <= now w1.
Proof.
  induction fuel as [|fuel IH]; intros start d w Hfuel; simpl;
    rewrite never_connected; simpl; unfold Clock.ticks_diff;
    destruct (Z.ltb_spec (now w - start) (timeout d * 1000)) as [Hlt|Hge];
    try lia.
  - exists w. repeat split; lia.
  - destruct (IH start d (sleep_ms 100 w)) as (w1 & -> & Ht & Hn & Hm).
    { unfold sleep_ms, Clock.after_sleep_ms. cbn [now]. lia. }
    exists w1. unfold sleep_ms, Clock.after_sleep_ms in *. cbn [now trace] in *.
    repeat split; auto; lia.
  - exists w. repeat split; lia.
Qed.

(** An attempt on such an interface times out. *)
Lemma do_connect_down d w :
  exists w1,
    do_connect isconnected d w
    = Some (Raise (Exception_ "Connection timed out"), d, w1)
    /\ trace w1 = Attempt (now w) :: trace w
    /\ now w <= now w1.
Proof.
  unfold do_connect.
  destruct (wait_connected_down (wait_fuel d) (now w) d
              (emit (Attempt (now w)) w)) as (w1 & -> & Ht & Hn & Hm).
  { unfold wait_fuel, emit. cbn [now]. lia. }
  unfold emit in *. cbn [now trace] in *. unfold Clock.ticks_diff.
  destruct (Z.geb_spec (now w1 - now w) (timeout d * 1000)); [|lia].
  exists w1. repeat split; auto.
Qed.

(** From [failures] on, [connect] makes one attempt for each value of the
    counter up to and including [max_failures], the first of them at once,
    then writes status code 2 and waits for the backoff interval. *)
Lemma connect_down fuel :
  forall failures d w,
    (connect_fuel d failures <= fuel)%nat ->
    exists r w' ts t2,
      connect isconnected fuel failures d w = Some (r, set_status 2 d, w')
      /\ trace w' = (Status t2 2 :: map Attempt (ts ++ [now w]) ++ trace w)%list
      /\ List.length ts = connect_fuel d failures
      /\ now w' = t2 + Z.max 0 (backoff_interval d * 1000).
Proof.
  induction fuel as [|fuel IH]; intros failures d w Hfuel;
    unfold connect_fuel in *; simpl;
    destruct (do_connect_down d w) as (w1 & -> & Ht & Hn); simpl;
    destruct (Z.ltb_spec failures (max_failures d)) as [Hlt|Hge]; try lia.
  - exists (Some false), (sleep (backoff_interval d) (emit (Status (now w1) 2) w1)),
      [], (now w1).
    unfold sleep, emit, Clock.after_sleep. simpl. rewrite Ht.
    repeat split; auto. lia.
  - destruct (IH (failures + 1) d (sleep (retry_interval d) w1))
      as (r & w' & ts & t2 & -> & Htr & Hlen & Hnow).
    { unfold connect_fuel. lia. }
    exists None, w', (ts ++ [now (sleep (retry_interval d) w1)])%list, t2.
    unfold sleep in Htr at 2. cbn [trace] in Htr. rewrite Ht in Htr.
    repeat split; auto.
    + rewrite Htr, !map_app, <- !app_assoc. reflexivity.
    + rewrite length_app, Hlen. unfold connect_fuel. simpl. lia.
  - exists (Some false), (sleep (backoff_interval d) (emit (Status (now w1) 2) w1)),
      [], (now w1).
    unfold sleep, emit, Clock.after_sleep. simpl. rewrite Ht.
    repeat split; auto. lia.
Qed.

(** Two turns of the watchdog loop: the second cycle starts with the
    counter at zero again, so it makes as many attempts as the first, and
    its first attempt comes the backoff interval (and the 100 ms pause of
    the loop) after the status code 2 of the first cycle. *)
Lemma watchdog_second_cycle d w :
  exists d2 w2 ts ts' t2 t2',
    watchdog isconnected 2 d w = Some (d2, w2)
    /\ trace w2
       = (Status t2' 2
          :: map Attempt (ts' ++ [t2 + Z.max 0 (backoff_interval d * 1000) + 100])
          ++ Status t2 2 :: map Attempt (ts ++ [now w]) ++ trace w)%list
    /\ List.length ts = Z.to_nat (max_failures d)
    /\ List.length ts' = Z.to_nat (max_failures d).
Proof.
  unfold watchdog, watchdog_iter. rewrite never_connected. cbn [negb].
  destruct (connect_down (connect_fuel d 0) 0 d w (le_n _))
    as (r & w1 & ts & t2 & -> & Htr & Hlen & Hnow).
  rewrite never_connected. cbn [andb].
  rewrite never_connected. cbn [negb].
  destruct (connect_down (connect_fuel (set_status 2 d) 0) 0 (set_status 2 d)
              (sleep_ms 100 w1) (le_n _))
    as (r' & w2 & ts' & t2' & -> & Htr' & Hlen' & Hnow').
  rewrite never_connected. cbn [andb].
  exists (set_status 2 (set_status 2 d)), (sleep_ms 100 w2), ts, ts', t2, t2'.
  split; [reflexivity|].
  unfold sleep_ms, Clock.after_sleep_ms in *. cbn [trace now] in *.
  unfold connect_fuel in *. cbn [max_failures set_status] in *.
  repeat split.
  - rewrite Htr', Htr, Hnow. reflexivity.
  - rewrite Hlen. f_equal. lia.
  - rewrite Hlen'. f_equal. lia.
Qed.

End NeverConnected.

(** C2, as the code has it.  On an interface that never associates,
    [connect()] starts [max_failures + 1] connection attempts before it
    writes status code 2 (the test is made on the number of failures before
    the current one); it then waits for the backoff interval and
    returns. *)
Theorem connect_backs_off_after_one_more_attempt
    (isconnected : Z -> bool) (d : driver) (w : world) :
  (forall t, isconnected t = false) ->
  exists r d' w' ts t2,
    connect isconnected (connect_fuel d 0) 0 d w = Some (r, d', w')
    /\ status_code d' = 2
    /\ trace w' = (Status t2 2 :: map Attempt ts ++ trace w)%list
    /\ List.length ts = S (Z.to_nat (max_failures d))
    /\ now w' = t2 + Z.max 0 (backoff_interval d * 1000).
Proof.
  intros Hdown.
  destruct (connect_down isconnected Hdown (connect_fuel d 0) 0 d w (le_n _))
    as (r & w' & ts & t2 & E & Htr & Hlen & Hnow).
  exists r, (set_status 2 d), w', (ts ++ [now w])%list, t2.
  repeat split; auto.
  rewrite length_app, Hlen. unfold connect_fuel. simpl. f_equal. lia.
Qed.

(** The defaults ([max_failures = 5]) on an interface that is down. *)
Lemma connect_backs_off_after_one_more_attempt_witness :
  exists r d' w' ts t2,
    connect down (connect_fuel default 0) 0 default boot = Some (r, d', w')
    /\ status_code d' = 2
    /\ trace w' = (Status t2 2 :: map Attempt ts ++ trace boot)%list
    /\ List.length ts = S (Z.to_nat (max_failures default))
    /\ now w' = t2 + Z.max 0 (backoff_interval default * 1000).
Proof.
  apply (connect_backs_off_after_one_more_attempt down default boot).
  reflexivity.
Defined.

(** The same run, event by event: six attempts, fifteen seconds apart,
    come before the status code 2; the watchdog's next attempt follows the
    backoff interval. *)
Lemma watchdog_history_default :
  option_map (fun dw => history (snd dw)) (watchdog down 1 default boot)
  = Some [Attempt 0; Attempt 15000; Attempt 30000; Attempt 45000;
          Attempt 60000; Attempt 75000; Status 85000 2]
  /\ option_map (fun dw => firstn 8 (history (snd dw)))
       (watchdog down 2 default boot)
     = Some [Attempt 0; Attempt 15000; Attempt 30000; Attempt 45000;
             Attempt 60000; Attempt 75000; Status 85000 2; Attempt 385100].
Proof. split; vm_compute; reflexivity. Qed.

(** ** Success, the deadline, termination and the idle loop *)

(** The polling loop when the interface answers at the [j]-th poll from
    now and not before, the deadline not yet reached then. *)
Lemma wait_connected_up isconnected (j : nat) :
  forall fuel start d w,
    (j <= fuel)%nat ->
    (forall i, (i < j)%nat -> isconnected (now w + 100 * Z.of_nat i) = false) ->
    isconnected (now w + 100 * Z.of_nat j) = true ->
    now w + 100 * Z.of_nat j - start < timeout d * 1000 ->
    wait_connected isconnected fuel start d w
    = Some {| now := now w + 100 * Z.of_nat j; trace := trace w |}.
Proof.
  induction j as [|j IH]; intros fuel start d w Hfuel Hdown Hup Hlt.
  - replace (now w + 100 * Z.of_nat 0) with (now w) in * by lia.
    destruct fuel; simpl; rewrite Hup; simpl; destruct w; reflexivity.
  - destruct fuel as [|fuel]; [lia|]. simpl.
    pose proof (Hdown O ltac:(lia)) as H0.
    replace (now w + 100 * Z.of_nat 0) with (now w) in H0 by lia.
    rewrite H0. cbn [negb andb]. unfold Clock.ticks_diff.
    destruct (Z.ltb_spec (now w - start) (timeout d * 1000)); [|lia].
    rewrite (IH fuel start d (sleep_ms 100 w)).
    + unfold sleep_ms, Clock.after_sleep_ms. cbn [now trace].
      f_equal. f_equal. lia.
    + lia.
    + intros i Hi. unfold sleep_ms, Clock.after_sleep_ms. cbn [now].
      replace (now w + Z.max 0 100 + 100 * Z.of_nat i)
        with (now w + 100 * Z.of_nat (S i)) by lia.
      apply Hdown. lia.
    + unfold sleep_ms, Clock.after_sleep_ms. cbn [now].
      replace (now w + Z.max 0 100 + 100 * Z.of_nat j)
        with (now w + 100 * Z.of_nat (S j)) by lia.
      exact Hup.
    + unfold sleep_ms, Clock.after_sleep_ms. cbn [now]. lia.
Qed.

(** X20. When the interface is associated at one of the polls before the
    timeout has passed ([100 * j < timeout * 1000]), [connect] returns
    [True] after that one attempt, whatever its failure count: the status
    code is 1, [_was_connected] is set, and no retry wait is made. *)
Theorem connect_succeeds_when_associated
    (isconnected : Z -> bool) (j : nat) (fuel : nat) (failures : Z)
    (d : driver) (w : world) :
  (forall i, (i < j)%nat -> isconnected (now w + 100 * Z.of_nat i) = false) ->
  isconnected (now w + 100 * Z.of_nat j) = true ->
  100 * Z.of_nat j < timeout d * 1000 ->
  connect isconnected fuel failures d w
  = Some (Some true, set_connected d,
          {| now := now w + 100 * Z.of_nat j;
             trace := Status (now w + 100 * Z.of_nat j) 1
                      :: Attempt (now w) :: trace w |}).
Proof.
  intros Hdown Hup Hlt.
  assert (E : do_connect isconnected d w
              = Some (Ret tt, set_connected d,
                      {| now := now w + 100 * Z.of_nat j;
                         trace := Status (now w + 100 * Z.of_nat j) 1
                                  :: Attempt (now w) :: trace w |})).
  { unfold do_connect.
    rewrite (wait_connected_up isconnected j (wait_fuel d) (now w) d
               (emit (Attempt (now w)) w)); auto.
    - cbn [now trace emit]. unfold Clock.ticks_diff.
      destruct (Z.geb_spec (now w + 100 * Z.of_nat j - now w) (timeout d * 1000));
        [lia|reflexivity].
    - unfold wait_fuel. lia.
    - cbn [now emit]. lia. }
  destruct fuel; simpl; rewrite E; reflexivity.
Qed.

Lemma connect_succeeds_when_associated_witness :
  connect up_after_3s 0 0 default boot
  = Some (Some true, set_connected default,
          {| now := now boot + 100 * Z.of_nat 30;
             trace := Status (now boot + 100 * Z.of_nat 30) 1
                      :: Attempt (now boot) :: trace boot |}).
Proof.
  apply (connect_succeeds_when_associated up_after_3s 30 0 0 default boot).
  - intros i Hi. unfold up_after_3s. apply Z.leb_gt. simpl now. lia.
  - reflexivity.
  - simpl. lia.
Defined.

(** The polling loop when the interface does not answer before the
    deadline; [n] polls are left until then. *)
Lemma wait_connected_deadline isconnected (n : nat) :
  forall fuel start d w,
    (n <= fuel)%nat ->
    (forall t, t < start + timeout d * 1000 -> isconnected t = false) ->
    now w + 100 * Z.of_nat n = start + timeout d * 1000 ->
    wait_connected isconnected fuel start d w
    = Some {| now := start + timeout d * 1000; trace := trace w |}.
Proof.
  induction n as [|n IH]; intros fuel start d w Hfuel Hdown Hleft.
  - assert (Hge : (Clock.ticks_diff (now w) start <? timeout d * 1000) = false).
    { apply Z.ltb_ge. unfold Clock.ticks_diff. lia. }
    destruct fuel; simpl; rewrite Hge, andb_false_r; destruct w; simpl in *;
      do 2 f_equal; lia.
  - destruct fuel as [|fuel]; [lia|]. simpl.
    rewrite Hdown by lia. cbn [negb andb]. unfold Clock.ticks_diff.
    destruct (Z.ltb_spec (now w - start) (timeout d * 1000)); [|lia].
    rewrite (IH fuel start d (sleep_ms 100 w)); auto.
    + lia.
    + unfold sleep_ms, Clock.after_sleep_ms. cbn [now]. lia.
Qed.

(** X21. The deadline wins: when the interface is not associated at any
    time before [timeout] seconds have passed, the attempt ends with
    "Connection timed out" at the deadline, also when the interface is
    associated at that very poll. *)
Theorem do_connect_times_out_at_deadline
    (isconnected : Z -> bool) (d : driver) (w : world) :
  0 <= timeout d ->
  (forall t, t < now w + timeout d * 1000 -> isconnected t = false) ->
  do_connect isconnected d w
  = Some (Raise (Exception_ "Connection timed out"), d,
          {| now := now w + timeout d * 1000;
             trace := Attempt (now w) :: trace w |}).
Proof.
  intros Hpos Hdown. unfold do_connect.
  rewrite (wait_connected_deadline isconnected (Z.to_nat (timeout d * 10))
             (wait_fuel d) (now w) d (emit (Attempt (now w)) w)); auto.
  - cbn [now trace emit]. unfold Clock.ticks_diff.
    destruct (Z.geb_spec (now w + timeout d * 1000 - now w) (timeout d * 1000));
      [reflexivity|lia].
  - unfold wait_fuel. lia.
  - cbn [now emit]. lia.
Qed.

Lemma do_connect_times_out_at_deadline_witness :
  do_connect (fun t => 10000 <=? t) default boot
  = Some (Raise (Exception_ "Connection timed out"), default,
          {| now := now boot + timeout default * 1000;
             trace := Attempt (now boot) :: trace boot |}).
Proof.
  apply (do_connect_times_out_at_deadline (fun t => 10000 <=? t) default boot).
  - simpl. lia.
  - intros t Ht. apply Z.leb_gt. simpl in Ht. lia.
Defined.

(** The polling loop ends, whatever the interface does. *)
Lemma wait_connected_total isconnected fuel :
  forall start d w,
    timeout d * 1000 - (now w - start) <= 100 * Z.of_nat fuel ->
    exists w1,
      wait_connected isconnected fuel start d w = Some w1
      /\ trace w1 = trace w.
Proof.
  induction fuel as [|fuel IH]; intros start d w Hfuel; simpl;
    unfold Clock.ticks_diff;
    destruct (isconnected (now w)); cbn [negb andb]; eauto;
    destruct (Z.ltb_spec (now w - start) (timeout d * 1000)); eauto;
    try lia.
  destruct (IH start d (sleep_ms 100 w)) as (w1 & -> & Ht).
  { unfold sleep_ms, Clock.after_sleep_ms. cbn [now]. lia. }
  eauto.
Qed.

Lemma do_connect_total isconnected d w :
  exists r d1 w1,
    do_connect isconnected d w = Some (r, d1, w1)
    /\ match r with
       | Ret _ => d1 = set_connected d
                  /\ exists t, trace w1 = Status t 1 :: Attempt (now w) :: trace w
       | Raise _ => d1 = d /\ trace w1 = Attempt (now w) :: trace w
       end.
Proof.
  unfold do_connect.
  destruct (wait_connected_total isconnected (wait_fuel d) (now w) d
              (emit (Attempt (now w)) w)) as (w1 & -> & Ht).
  { unfold wait_fuel, emit. cbn [now]. lia. }
  destruct (Clock.ticks_diff (now w1) (now w) >=? timeout d * 1000).
  - do 3 eexists. split; [reflexivity|]. simpl. split; auto.
  - do 3 eexists. split; [reflexivity|]. simpl. split; auto.
    exists (now w1). unfold emit. cbn [trace]. now rewrite Ht.
Qed.

(** [connect] ends, whatever the interface does. *)
Lemma connect_total isconnected fuel :
  forall failures d w,
    (connect_fuel d failures <= fuel)%nat ->
    exists r d' w',
      connect isconnected fuel failures d w = Some (r, d', w')
      /\ (status_code d' = 1 \/ status_code d' = 2)
      /\ max_failures d' = max_failures d
      /\ (attempts (trace w) < attempts (trace w')
          <= attempts (trace w) + S (connect_fuel d failures))%nat.
Proof.
  induction fuel as [|fuel IH]; intros failures d w Hfuel;
    unfold connect_fuel in *; simpl;
    destruct (do_connect_total isconnected d w) as (r & d1 & w1 & -> & Hr);
    destruct r as [[]|e].
  - destruct Hr as (-> & t & Ht). do 3 eexists. split; [reflexivity|].
    rewrite Ht. unfold attempts. simpl. repeat split; auto; lia.
  - destruct Hr as (-> & Ht).
    destruct (Z.ltb_spec failures (max_failures d)); [lia|].
    do 3 eexists. split; [reflexivity|].
    unfold sleep, emit, attempts. simpl. rewrite Ht. simpl.
    repeat split; auto; lia.
  - destruct Hr as (-> & t & Ht). do 3 eexists. split; [reflexivity|].
    rewrite Ht. unfold attempts. simpl. repeat split; auto; lia.
  - destruct Hr as (-> & Ht).
    destruct (Z.ltb_spec failures (max_failures d)).
    + destruct (IH (failures + 1) d (sleep (retry_interval d) w1))
        as (r & d' & w' & -> & Hst & Hmf & Hat).
      { unfold connect_fuel. lia. }
      do 3 eexists. split; [reflexivity|].
      unfold sleep, connect_fuel in Hat. cbn [trace] in Hat.
      rewrite Ht in Hat. unfold attempts in *. simpl in Hat.
      repeat split; auto; lia.
    + do 3 eexists. split; [reflexivity|].
      unfold sleep, emit, attempts. simpl. rewrite Ht. simpl.
      repeat split; auto; lia.
Qed.

(** X22. Whatever the interface does, [connect()] ends after at least one
    and at most [max_failures + 1] connection attempts, and the exported
    status code is then 1 or 2. *)
Theorem connect_ends (isconnected : Z -> bool) (d : driver) (w : world) :
  exists r d' w',
    connect isconnected (connect_fuel d 0) 0 d w = Some (r, d', w')
    /\ (status_code d' = 1 \/ status_code d' = 2)
    /\ (attempts (trace w) < attempts (trace w')
        <= attempts (trace w) + S (Z.to_nat (max_failures d)))%nat.
Proof.
  destruct (connect_total isconnected (connect_fuel d 0) 0 d w (le_n _))
    as (r & d' & w' & E & Hst & _ & Hat).
  exists r, d', w'. repeat split; auto; try lia.
  unfold connect_fuel in Hat.
  replace (max_failures d - 0) with (max_failures d) in Hat by lia. lia.
Qed.

(** One turn of the watchdog loop of a driver that has not been
    connected ends with the status code 1 or 2, whatever the interface
    does: the wait of the application for one of these codes ends with the
    first turn. *)
Theorem watchdog_first_turn
    (isconnected : Z -> bool) (d : driver) (w : world) :
  was_connected d = false ->
  exists d' w',
    watchdog_iter isconnected d w = Some (d', w')
    /\ (status_code d' = 1 \/ status_code d' = 2).
Proof.
  intros Hwas. unfold watchdog_iter.
  destruct (isconnected (now w)) eqn:Hc; cbn [negb].
  - rewrite Hc, Hwas. cbn [negb andb]. do 2 eexists.
    split; [reflexivity|]. now left.
  - destruct (connect_total isconnected (connect_fuel d 0) 0 d w (le_n _))
      as (r & d1 & w1 & -> & Hst & _).
    destruct (isconnected (now w1) && negb (was_connected d1));
      do 2 eexists; (split; [reflexivity|]); auto.
Qed.

Lemma watchdog_first_turn_witness :
  exists d' w',
    watchdog_iter down default boot = Some (d', w')
    /\ (status_code d' = 1 \/ status_code d' = 2).
Proof. apply (watchdog_first_turn down default boot). reflexivity. Defined.

(** X23. While the interface is associated the watchdog makes no
    connection attempt.  Its first turn marks a driver that has not been
    connected (after a soft reset) as connected, with status code 1; apart
    from that the turns only wait. *)
Theorem watchdog_idle_while_associated
    (isconnected : Z -> bool) (n : nat) (d : driver) (w : world) :
  (forall t, isconnected t = true) ->
  watchdog isconnected (S n) d w
  = Some (if was_connected d then d else set_connected d,
          {| now := now w + 100 * Z.of_nat (S n);
             trace := if was_connected d then trace w
                      else Status (now w) 1 :: trace w |}).
Proof.
  intros Hup.
  assert (Hiter : forall d w,
    watchdog_iter isconnected d w
    = Some (if was_connected d then d else set_connected d,
            {| now := now w + 100;
               trace := if was_connected d then trace w
                        else Status (now w) 1 :: trace w |})).
  { intros d0 w0. unfold watchdog_iter. rewrite Hup. cbn [negb].
    rewrite Hup. cbn [andb].
    destruct (was_connected d0); cbn [negb]; unfold sleep_ms, emit,
      Clock.after_sleep_ms; cbn [now trace]; reflexivity. }
  revert d w. induction n as [|n IH]; intros d w.
  - cbn [watchdog]. rewrite Hiter. reflexivity.
  - change (watchdog isconnected (S (S n)) d w)
      with (match watchdog_iter isconnected d w with
            | Some (d1, w1) => watchdog isconnected (S n) d1 w1
            | None => None
            end).
    rewrite Hiter, IH.
    destruct (was_connected d) eqn:Hwas; cbn [now trace set_connected
      was_connected]; try rewrite Hwas; do 3 f_equal; lia.
Qed.

Lemma watchdog_idle_while_associated_witness :
  watchdog up 3 default boot
  = Some (set_connected default,
          {| now := 300; trace := [Status 0 1] |}).
Proof.
  apply (watchdog_idle_while_associated up 2 default boot). reflexivity.
Defined.

End WifiSpec.

(* ===================================================================== *)
(** * The status indicator engine *)
(* ===================================================================== *)

Module StatusLEDSpec.
Import StatusLED.

(** Sequencing, for properties of the heap that a computation leaves. *)
Lemma after_bind {A B} (P Q R : led -> Prop) (c : L A) (k : A -> L B) :
  (forall s, P s -> Q (snd (c s))) ->
  (forall a s, Q s -> R (snd (k a s))) ->
  (forall s, Q s -> R s) ->
  forall s, P s -> R (snd (bind c k s)).
Proof.
  intros Hc Hk Hq s Hs. unfold bind. specialize (Hc s Hs).
  destruct (c s) as [[a|e] s1]; simpl in *; auto.
Qed.

Lemma after_pure {A} (P : led -> Prop) (c : L A) :
  (forall s, snd (c s) = s) -> forall s, P s -> P (snd (c s)).
Proof. intros Hc s Hs. now rewrite Hc. Qed.

Lemma quiet_consistent s : quiet s -> consistent s.
Proof. intros [H1 H2]. split; auto. rewrite H2. intros t []. Qed.

Lemma filter_all_out t l :
  (forall u, In u l -> u = t) ->
  filter (fun u => negb (Nat.eqb u t)) l = [].
Proof.
  induction l as [|u l IH]; intros Hall; simpl; auto.
  rewrite (Hall u (or_introl eq_refl)), Nat.eqb_refl. simpl.
  apply IH. intros v Hv. apply Hall. now right.
Qed.

(** The first statement of [set]: the task in [_current_task], if any, is
    asked to stop; after that no effect task is live. *)
Lemma stop_current_quiet s :
  consistent s ->
  quiet (snd (match current_task s with
              | Some t => emit (Cancel t)
              | None => set_current None
              end s)).
Proof.
  intros [Hseq Hcur]. destruct (current_task s) as [t|] eqn:Ec; simpl.
  - assert (Hl : filter (fun u => negb (Nat.eqb u t)) (live (trace s)) = []).
    { apply filter_all_out. intros u Hu. specialize (Hcur u Hu). congruence. }
    split; simpl; rewrite ?Hl; simpl; auto.
  - assert (Hl : live (trace s) = []).
    { destruct (live (trace s)) as [|u l] eqn:El; auto.
      specialize (Hcur u (or_introl eq_refl)). discriminate. }
    split; simpl; auto.
Qed.

Lemma call_effect_quiet f args kwargs s :
  quiet s -> quiet (snd (call_effect f args kwargs s)).
Proof.
  intros [Hseq Hl]. unfold call_effect.
  destruct (accepts f args kwargs); [|split; auto].
  destruct f; unfold bind, emit, ret; simpl; split; simpl; rewrite ?Hl; auto.
Qed.

(** The creation of the new effect task, and the assignment to
    [_current_task] after it. *)
Lemma spawn_consistent v f s :
  quiet s ->
  consistent (snd ((t <- asyncio_create_task v f ;; set_current (Some t)) s)).
Proof.
  intros [Hseq Hl]. destruct v as [|fn]; unfold bind; simpl.
  - apply quiet_consistent. split; auto.
  - split; simpl; rewrite ?Hl; simpl; auto.
    intros t [<-|[]]. reflexivity.
Qed.

(** [set] keeps the engine consistent, whether it returns or raises. *)
Lemma set_consistent tc effect args kwargs s :
  consistent s -> consistent (snd (set tc effect args kwargs s)).
Proof.
  intros Hs. unfold set. unfold bind at 1, get at 1.
  revert s Hs.
  apply (after_bind consistent quiet consistent);
    [exact stop_current_quiet | | exact quiet_consistent].
  intros _.
  apply (after_bind quiet quiet consistent);
    [apply after_pure; intros s; unfold or_raise;
       now destruct (getattr_effect effect)
    | | exact quiet_consistent].
  intros f.
  apply (after_bind quiet quiet consistent);
    [apply call_effect_quiet | | exact quiet_consistent].
  intros func.
  apply (after_bind quiet quiet consistent);
    [apply after_pure; intros s; now destruct tc
    | | exact quiet_consistent].
  intros [|] s Hq; [|now apply quiet_consistent].
  revert s Hq.
  apply (after_bind quiet quiet consistent);
    [apply call_effect_quiet | | exact quiet_consistent].
  intros c s Hq. now apply spawn_consistent.
Qed.

Lemma check_status_code_consistent tc code s :
  consistent s -> consistent (snd (check_status_code tc code s)).
Proof.
  intros Hs. unfold check_status_code. unfold bind at 1, get at 1.
  destruct (negb (Z.eqb (status_code s) code)); [|exact Hs].
  revert s Hs.
  apply (after_bind consistent consistent consistent); auto.
  intros _.
  apply (after_bind consistent consistent consistent); auto.
  - apply after_pure. intros s. unfold or_raise.
    now destruct (dict_get (str code) StatusCodes).
  - intros row s Hs. now apply set_consistent.
Qed.

Lemma engine_consistent tc codes :
  forall s, consistent s -> consistent (snd (engine tc codes s)).
Proof.
  induction codes as [|code codes IH]; intros s Hs; simpl; auto.
  revert s Hs.
  apply (after_bind consistent consistent consistent);
    [ intros s Hs; now apply check_status_code_consistent
    | intros _ s Hs; now apply IH
    | auto ].
Qed.

Lemma one_at_a_time_point p tr :
  point_of p tr -> one_at_a_time tr -> one_at_a_time p.
Proof.
  intros [later ->]. induction later as [|e later IH]; simpl; auto.
  intros (_ & _ & H). auto.
Qed.

(** When [_current_task] holds a task, the first thing that [set] does is
    to ask it to stop. *)
Lemma set_cancels_first tc effect args kwargs s t :
  current_task s = Some t ->
  exists later,
    trace (snd (set tc effect args kwargs s)) = (later ++ Cancel t :: trace s)%list.
Proof.
  intros Ec. unfold set. unfold bind at 1, get at 1. rewrite Ec.
  unfold bind at 1. simpl.
  unfold bind, or_raise, call_effect, emit, ret, raise, isinstance,
    asyncio_create_task, set_current.
  destruct (getattr_effect effect) as [f|]; simpl; [|now exists []].
  destruct (accepts f args kwargs); [|now exists []].
  destruct f, tc as [inst|v]; simpl;
    repeat match goal with
           | |- context [if inst ?x then _ else _] => destruct (inst x); simpl
           end;
    try (now exists []);
    try (now exists [Duty 0]);
    try (now exists [Duty 0; Duty 0]);
    try (now exists [Duty 1023]);
    try (now exists [Duty 1023; Duty 1023]);
    try (now exists [Spawn (spawned s) FBlink]);
    try (now exists [Spawn (spawned s) FBreathe]).
Qed.

(** The invariant of the engine with the order of the events: the steps
    of [set] in turn. *)
Lemma stop_current_quiet_stop s :
  consistent_stop s ->
  quiet_stop (snd (match current_task s with
                   | Some t => emit (Cancel t)
                   | None => set_current None
                   end s)).
Proof.
  intros [Hc He]. split; [now apply stop_current_quiet|].
  destruct (current_task s); simpl; auto.
Qed.

Lemma call_effect_quiet_stop f args kwargs s :
  quiet_stop s -> quiet_stop (snd (call_effect f args kwargs s)).
Proof.
  intros [Hq He]. split; [now apply call_effect_quiet|].
  destruct Hq as [_ Hl]. unfold call_effect.
  destruct (accepts f args kwargs); [|exact He].
  destruct f; unfold bind, emit, ret; simpl; auto.
Qed.

Lemma spawn_consistent_stop v f s :
  quiet_stop s ->
  consistent_stop
    (snd ((t <- asyncio_create_task v f ;; set_current (Some t)) s)).
Proof.
  intros [Hq He]. split; [now apply spawn_consistent|].
  destruct Hq as [_ Hl]. destruct v as [|fn]; unfold bind; simpl; auto.
Qed.

Lemma quiet_consistent_stop s : quiet_stop s -> consistent_stop s.
Proof. intros [Hq He]. split; [now apply quiet_consistent | exact He]. Qed.

Lemma set_consistent_stop tc effect args kwargs s :
  consistent_stop s -> consistent_stop (snd (set tc effect args kwargs s)).
Proof.
  intros Hs. unfold set. unfold bind at 1, get at 1.
  revert s Hs.
  apply (after_bind consistent_stop quiet_stop consistent_stop);
    [exact stop_current_quiet_stop | | exact quiet_consistent_stop].
  intros _.
  apply (after_bind quiet_stop quiet_stop consistent_stop);
    [apply after_pure; intros s; unfold or_raise;
       now destruct (getattr_effect effect)
    | | exact quiet_consistent_stop].
  intros f.
  apply (after_bind quiet_stop quiet_stop consistent_stop);
    [apply call_effect_quiet_stop | | exact quiet_consistent_stop].
  intros func.
  apply (after_bind quiet_stop quiet_stop consistent_stop);
    [apply after_pure; intros s; now destruct tc
    | | exact quiet_consistent_stop].
  intros [|] s Hq; [|now apply quiet_consistent_stop].
  revert s Hq.
  apply (after_bind quiet_stop quiet_stop consistent_stop);
    [apply call_effect_quiet_stop | | exact quiet_consistent_stop].
  intros c s Hq. now apply spawn_consistent_stop.
Qed.

Lemma check_status_code_consistent_stop tc code s :
  consistent_stop s -> consistent_stop (snd (check_status_code tc code s)).
Proof.
  intros Hs. unfold check_status_code. unfold bind at 1, get at 1.
  destruct (negb (Z.eqb (status_code s) code)); [|exact Hs].
  revert s Hs.
  apply (after_bind consistent_stop consistent_stop consistent_stop); auto.
  intros _.
  apply (after_bind consistent_stop consistent_stop consistent_stop); auto.
  - apply after_pure. intros s. unfold or_raise.
    now destruct (dict_get (str code) StatusCodes).
  - intros row s Hs. now apply set_consistent_stop.
Qed.

Lemma engine_consistent_stop tc codes :
  forall s, consistent_stop s -> consistent_stop (snd (engine tc codes s)).
Proof.
  induction codes as [|code codes IH]; intros s Hs; simpl; auto.
  revert s Hs.
  apply (after_bind consistent_stop consistent_stop consistent_stop);
    [ intros s Hs; now apply check_status_code_consistent_stop
    | intros _ s Hs; now apply IH
    | auto ].
Qed.

Lemma established_after_stop_point p tr :
  point_of p tr -> established_after_stop tr -> established_after_stop p.
Proof.
  intros [later ->]. induction later as [|e later IH]; simpl; auto.
  intros (_ & H). auto.
Qed.

(** The readings [pre] and then [post]: the engine goes on with [post]
    when it is still alive after [pre]. *)
Lemma engine_app tc pre post s s1 :
  engine tc pre s = (Ret tt, s1) ->
  engine tc (pre ++ post) s = engine tc post s1.
Proof.
  revert s. induction pre as [|code pre IH]; intros s; cbn [engine app].
  - unfold ret. now intros [= ->].
  - unfold bind.
    destruct (check_status_code tc code s) as [[[]|e] s2]; [|discriminate].
    apply IH.
Qed.

(** A turn that sees a code of the table change asks the task in
    [_current_task] to stop before anything else. *)
Lemma check_status_code_cancels_first tc code row s t :
  status_code s <> code ->
  dict_get (str code) StatusCodes = Some row ->
  current_task s = Some t ->
  exists later,
    trace (snd (check_status_code tc code s))
    = (later ++ Cancel t :: trace s)%list.
Proof.
  intros Hne Hrow Ec. unfold check_status_code. unfold bind at 1, get at 1.
  destruct (Z.eqb_spec (status_code s) code) as [|_]; [contradiction|].
  cbn [negb]. unfold bind at 1, set_status_code at 1.
  unfold bind at 1. rewrite Hrow. unfold or_raise, ret.
  match goal with
  | |- context [set tc ?e ?a ?k ?s0] =>
      destruct (set_cancels_first tc e a k s0 t Ec) as [later Hl]
  end.
  exists later. exact Hl.
Qed.

(** C9. Whatever readings of the shared status code the engine gets: at
    every point of its history at most one effect task has been created and
    not asked to stop, and each effect, a task that is created or a duty
    cycle that is written at once, was established at a point where no
    effect task was live.  And whenever the engine, still alive after the
    readings [pre], reads a code of the table that differs from the one it
    holds while an effect task [t] is live, that task is the one in
    [_current_task] and the first event of the turn is the request to [t]
    to stop, after which no effect task is live; what the turn does to
    establish the new effect comes after it. *)
Theorem engine_one_effect_at_a_time (tc : classinfo) (code0 : Z) :
  (forall (codes : list Z) (p : list event),
     point_of p (trace (snd (engine tc codes (new code0)))) ->
     (List.length (live p) <= 1)%nat
     /\ (forall t f q, p = Spawn t f :: q -> live q = [])
     /\ (forall d q, p = Duty d :: q -> live q = []))
  /\ (forall (pre : list Z) (code : Z) (row : descriptor) (s : led) (t : nat),
        engine tc pre (new code0) = (Ret tt, s) ->
        status_code s <> code ->
        dict_get (str code) StatusCodes = Some row ->
        In t (live (trace s)) ->
        current_task s = Some t
        /\ live (Cancel t :: trace s) = []
        /\ exists later,
             trace (snd (engine tc (pre ++ [code]) (new code0)))
             = (later ++ Cancel t :: trace s)%list).
Proof.
  assert (H0 : consistent_stop (new code0)).
  { split; [split|]; simpl; auto. intros t []. }
  split.
  - intros codes p Hp.
    destruct (engine_consistent_stop tc codes (new code0) H0) as [[Hseq _] Hest].
    pose proof (one_at_a_time_point _ _ Hp Hseq) as Hone.
    pose proof (established_after_stop_point _ _ Hp Hest) as Hstop.
    destruct p as [|e q]; simpl in *.
    + split; [auto|]. split; discriminate.
    + destruct Hone as (Hlen & Hsp & _). destruct Hstop as [Hst _].
      split; [exact Hlen|]. split.
      * intros t f q' [= -> ->]. exact Hsp.
      * intros d q' [= -> ->]. exact Hst.
  - intros pre code row s t Hpre Hne Hrow Hlive.
    pose proof (engine_consistent_stop tc pre (new code0) H0) as Hc.
    rewrite Hpre in Hc. simpl in Hc. destruct Hc as [[Hseq Hcur] _].
    pose proof (Hcur t Hlive) as Ec.
    split; [exact Ec|]. split.
    + simpl. apply filter_all_out. intros u Hu.
      specialize (Hcur u Hu). congruence.
    + rewrite (engine_app tc pre [code] (new code0) s Hpre).
      destruct (check_status_code_cancels_first tc code row s t Hne Hrow Ec)
        as [later Hl].
      exists later. rewrite <- Hl. cbn [engine]. unfold bind, ret.
      now destruct (check_status_code tc code s) as [[[]|e] s2].
Qed.

(** The status code going 0, 1, 0 after a start at 0: the blink task is
    created, then asked to stop, and only then the LED is switched off. *)
Lemma engine_one_effect_at_a_time_witness :
  rev (trace (snd (engine type_coro [0; 1; 0]%Z (new 0))))
  = [Spawn 0 FBlink; Cancel 0; Duty 0]
  /\ ((List.length (live [Spawn 0 FBlink]) <= 1)%nat
      /\ (forall t f q, [Spawn 0 FBlink] = Spawn t f :: q -> live q = [])
      /\ (forall d q, [Spawn 0 FBlink] = Duty d :: q -> live q = []))
  /\ (current_task (snd (engine type_coro [0; 1]%Z (new 0))) = Some 0%nat
      /\ live [Cancel 0; Spawn 0 FBlink] = []
      /\ exists later,
           trace (snd (engine type_coro [0; 1; 0]%Z (new 0)))
           = (later ++ [Cancel 0; Spawn 0 FBlink])%list).
Proof.
  destruct (engine_one_effect_at_a_time type_coro 0) as [Hpoints Hturn].
  split; [reflexivity|]. split.
  - apply (Hpoints [0; 1; 0]%Z [Spawn 0 FBlink]).
    exists [Duty 0%Z; Cancel 0]. reflexivity.
  - apply (Hturn [0; 1]%Z 0%Z
             {| eff_name := "off"; eff_args := []; eff_kwargs := [] |}
             (snd (engine type_coro [0; 1]%Z (new 0))) 0%nat).
    + reflexivity.
    + simpl. discriminate.
    + reflexivity.
    + simpl. now left.
Defined.

(** ** The table, unknown codes and arguments that do not bind *)

Local Open Scope Z_scope.

(** [str] gives different integers different texts. *)
Lemma str_inj a b : str a = str b -> a = b.
Proof.
  unfold str. intros H.
  assert (Hnn : forall n, Z.to_int n <> Decimal.Pos Decimal.Nil
                          /\ Z.to_int n <> Decimal.Neg Decimal.Nil).
  { intros [|p|p]; simpl; split; intros E; try discriminate;
      injection E as E; now apply DecimalPos.Unsigned.to_uint_nonnil in E. }
  apply (f_equal DecimalString.NilZero.int_of_string) in H.
  destruct (Hnn a) as [Ha1 Ha2], (Hnn b) as [Hb1 Hb2].
  rewrite !DecimalString.NilZero.isi in H by assumption.
  injection H as H. now apply DecimalZ.to_int_inj.
Qed.

(** Only the codes 0 to 3 have a row in the table. *)
Lemma StatusCodes_unknown code :
  ~ (0 <= code <= 3)%Z -> dict_get (str code) StatusCodes = None.
Proof.
  intros Hout. unfold StatusCodes. cbn [dict_get].
  assert (Hne : forall k, (0 <= k <= 3)%Z -> keq (str code) (str k) = false).
  { intros k Hk. apply String.eqb_neq. intros E. apply str_inj in E. lia. }
  change "0" with (str 0). change "1" with (str 1).
  change "2" with (str 2). change "3" with (str 3).
  cbn [fst snd].
  rewrite !Hne by lia. reflexivity.
Qed.

(** X24. When the shared status code has changed to a code of the table,
    the turn of the engine takes the code over, asks the task in
    [_current_task] to stop and starts the effect of the table: a [blink]
    task for 1 and 3, a [breathe] task for 2, which becomes
    [_current_task] and is the only live effect task; for 0 the LED is
    switched off and no effect task is live. *)
Theorem check_status_code_starts_effect (code : Z) (s : led) :
  consistent s ->
  status_code s <> code ->
  (0 <= code <= 3)%Z ->
  exists s',
    check_status_code type_coro code s = (Ret tt, s')
    /\ status_code s' = code
    /\ trace s' = (set_events code s ++ trace s)%list
    /\ live (trace s') = match effect_task code with
                         | Some _ => [spawned s]
                         | None => []
                         end
    /\ current_task s' = match effect_task code with
                         | Some _ => Some (spawned s)
                         | None => current_task s
                         end.
Proof.
  intros Hcons Hne Hrange.
  pose proof (stop_current_quiet s Hcons) as [_ Hq].
  unfold check_status_code. unfold bind at 1, get at 1.
  destruct (Z.eqb_spec (status_code s) code) as [|_]; [contradiction|].
  cbn [negb].
  assert (Hc : (code = 0 \/ code = 1 \/ code = 2 \/ code = 3)%Z) by lia.
  destruct Hc as [ -> | [ -> | [ -> | -> ] ] ];
    destruct (current_task s) as [t|] eqn:Ec;
    (eexists; split; [unfold set_status_code, StatusLED.set, bind, get; simpl;
                      rewrite Ec; reflexivity|]);
    simpl in Hq |- *; unfold set_events; simpl; rewrite ?Ec; simpl;
    rewrite ?Hq; repeat split; auto.
Qed.

(** The status code goes from 1 to 2 while the blink task of code 1 runs:
    the blink task is asked to stop and a breathe task takes its place. *)
Lemma check_status_code_starts_effect_witness :
  let s := snd (engine type_coro [1] (new 0)) in
  (consistent s /\ status_code s <> 2 /\ 0 <= 2 <= 3)
  /\ exists s',
       check_status_code type_coro 2 s = (Ret tt, s')
       /\ status_code s' = 2
       /\ trace s' = [Spawn 1%nat FBreathe; Cancel 0; Spawn 0%nat FBlink]
       /\ live (trace s') = [1%nat]
       /\ current_task s' = Some 1%nat.
Proof.
  cbv zeta.
  assert (H : consistent (snd (engine type_coro [1] (new 0)))
              /\ status_code (snd (engine type_coro [1] (new 0))) <> 2
              /\ 0 <= 2 <= 3).
  { split; [|split; [vm_compute; discriminate | lia]].
    split; [vm_compute; repeat split; auto|].
    vm_compute. intros t [<-|[]]. reflexivity. }
  split; [exact H|].
  destruct H as (H1 & H2 & H3).
  exact (check_status_code_starts_effect 2 _ H1 H2 H3).
Defined.

(** X25. A status code outside the table ends the engine with [KeyError]
    at the turn that reads it: the code has been taken over, but the
    running effect is not asked to stop, no effect is started and the
    readings after it are never looked at. *)
Theorem engine_unknown_code_ends_engine
    (tc : classinfo) (code : Z) (codes : list Z) (s : led) :
  ~ (0 <= code <= 3) ->
  status_code s <> code ->
  engine tc (code :: codes) s
  = (Raise KeyError,
     {| status_code := code;
        current_task := current_task s;
        trace := trace s;
        spawned := spawned s |}).
Proof.
  intros Hout Hne. cbn [engine]. unfold bind at 1.
  unfold check_status_code. unfold bind at 1, get at 1.
  destruct (Z.eqb_spec (status_code s) code) as [|_]; [contradiction|].
  cbn [negb]. unfold bind at 1, set_status_code at 1.
  unfold bind at 1. rewrite (StatusCodes_unknown code Hout). reflexivity.
Qed.

Lemma engine_unknown_code_ends_engine_witness :
  let s := snd (engine type_coro [1] (new 0)) in
  (~ (0 <= 4 <= 3) /\ status_code s <> 4)
  /\ engine type_coro [4; 0; 2] s
     = (Raise KeyError,
        {| status_code := 4;
           current_task := Some 0%nat;
           trace := [Spawn 0%nat FBlink];
           spawned := 1 |}).
Proof.
  cbv zeta.
  assert (H : ~ (0 <= 4 <= 3)
              /\ status_code (snd (engine type_coro [1] (new 0))) <> 4)
    by (split; [lia | vm_compute; discriminate]).
  split; [exact H|]. destruct H as [H1 H2].
  exact (engine_unknown_code_ends_engine type_coro 4 [0; 2] _ H1 H2).
Defined.

(** X26. [set] with one of the four effects and arguments that the
    effect does not take (a surplus positional argument, or a keyword that
    names no parameter left free) raises [TypeError], yet only after the
    running effect has been asked to stop: the LED is left with no effect,
    and [_current_task] still holds the task that was asked to stop. *)
Theorem set_bad_arguments_stops_running_effect
    (tc : classinfo) (effect : string) (f : effect_fn) (args : list Z)
    (kwargs : list (string * Z)) (s : led) (t : nat) :
  getattr_effect effect = Some f ->
  accepts f args kwargs = false ->
  consistent s ->
  current_task s = Some t ->
  exists s',
    set tc effect args kwargs s = (Raise TypeError, s')
    /\ trace s' = Cancel t :: trace s
    /\ live (trace s') = []
    /\ current_task s' = Some t.
Proof.
  intros Hf Hno Hcons Ec.
  pose proof (stop_current_quiet s Hcons) as [_ Hq].
  rewrite Ec in Hq. simpl in Hq.
  eexists. split.
  - unfold set. unfold bind at 1, get at 1. rewrite Ec.
    unfold bind at 1. unfold emit at 1. cbv iota beta.
    unfold bind at 1. rewrite Hf. unfold or_raise, ret.
    unfold bind at 1. unfold call_effect. rewrite Hno. reflexivity.
  - simpl. auto.
Qed.

(** While the blink task of code 1 runs: [blink] with six positional
    arguments, and [breathe] with a keyword that it does not have. *)
Lemma set_bad_arguments_stops_running_effect_witness :
  let s := snd (engine type_coro [1] (new 0)) in
  (getattr_effect "breathe" = Some FBreathe
   /\ accepts FBreathe [] [("speed", 4)] = false
   /\ consistent s
   /\ current_task s = Some 0%nat)
  /\ accepts FBlink [2; 300; 200; 1000; 1; 0] [] = false
  /\ exists s',
       set type_coro "breathe" [] [("speed", 4)] s = (Raise TypeError, s')
       /\ trace s' = Cancel 0 :: trace s
       /\ live (trace s') = []
       /\ current_task s' = Some 0%nat.
Proof.
  cbv zeta.
  assert (H : getattr_effect "breathe" = Some FBreathe
              /\ accepts FBreathe [] [("speed", 4)] = false
              /\ consistent (snd (engine type_coro [1] (new 0)))
              /\ current_task (snd (engine type_coro [1] (new 0))) = Some 0%nat).
  { split; [reflexivity|]. split; [reflexivity|]. split; [|reflexivity].
    split; [vm_compute; repeat split; auto|].
    vm_compute. intros t [<-|[]]. reflexivity. }
  split; [exact H|]. split; [reflexivity|].
  destruct H as (H1 & H2 & H3 & H4).
  exact (set_bad_arguments_stops_running_effect
           type_coro "breathe" FBreathe [] [("speed", 4)] _ 0%nat H1 H2 H3 H4).
Defined.

(** ** The breathing effect *)

Lemma breathe_ticks_add steps a b st :
  breathe_ticks steps (a + b) st = breathe_ticks steps b (breathe_ticks steps a st).
Proof. revert st. induction a as [|a IH]; intros st; simpl; auto. Qed.

Lemma half_period_ceil steps :
  0 < steps ->
  let h := Z.of_nat (half_period steps) in
  1 <= h /\ (h - 1) * steps < 1023 <= h * steps.
Proof.
  intros Hs. unfold half_period. cbv zeta.
  assert (Hq : 0 <= (1023 + steps - 1) / steps) by (apply Z.div_pos; lia).
  rewrite Z2Nat.id by exact Hq.
  pose proof (Z.div_mod (1023 + steps - 1) steps ltac:(lia)) as Hdm.
  pose proof (Z.mod_pos_bound (1023 + steps - 1) steps Hs) as Hm.
  set (q := (1023 + steps - 1) / steps) in *.
  set (r := (1023 + steps - 1) mod steps) in *.
  nia.
Qed.

(** One turn on the way up, and one on the way down. *)
Lemma breathe_tick_up steps d dir :
  0 < steps -> 0 <= d < 1023 -> d = 0 \/ dir = 1 ->
  breathe_tick steps (d, dir) = (Z.min 1023 (d + steps), 1).
Proof.
  intros Hs Hd Hdir. unfold breathe_tick.
  destruct (Z.eqb_spec d 0) as [ -> | H0 ].
  - destruct (Z.gtb_spec (0 + 1 * steps) 1023), (Z.ltb_spec (0 + 1 * steps) 0);
      f_equal; lia.
  - destruct Hdir as [ | -> ]; [contradiction|].
    destruct (Z.eqb_spec d 1023); [lia|].
    destruct (Z.gtb_spec (d + 1 * steps) 1023), (Z.ltb_spec (d + 1 * steps) 0);
      f_equal; lia.
Qed.

Lemma breathe_tick_down steps d dir :
  0 < steps -> 0 < d <= 1023 -> d = 1023 \/ dir = -1 ->
  breathe_tick steps (d, dir) = (Z.max 0 (d - steps), -1).
Proof.
  intros Hs Hd Hdir. unfold breathe_tick.
  destruct (Z.eqb_spec d 0) as [ -> | H0 ]; [lia|].
  destruct (Z.eqb_spec d 1023) as [ -> | H1 ].
  - destruct (Z.gtb_spec (1023 + -1 * steps) 1023),
             (Z.ltb_spec (1023 + -1 * steps) 0); f_equal; lia.
  - destruct Hdir as [ | -> ]; [contradiction|].
    destruct (Z.gtb_spec (d + -1 * steps) 1023), (Z.ltb_spec (d + -1 * steps) 0);
      f_equal; lia.
Qed.

(** The way up: after [k] turns from 0, with a duty cycle still below the
    top before the last of them. *)
Lemma breathe_rise steps dir (k : nat) :
  0 < steps ->
  (1 <= k)%nat ->
  (Z.of_nat k - 1) * steps < 1023 ->
  breathe_ticks steps k (0, dir) = (Z.min 1023 (Z.of_nat k * steps), 1).
Proof.
  intros Hs. induction k as [|k IH]; intros Hk Hlt; [lia|].
  replace (S k) with (k + 1)%nat by lia. rewrite breathe_ticks_add.
  cbn [breathe_ticks].
  destruct k as [|k'].
  - cbn [breathe_ticks]. rewrite breathe_tick_up by lia. f_equal. lia.
  - rewrite IH by lia. rewrite Z.min_r by lia.
    rewrite breathe_tick_up by lia. f_equal. lia.
Qed.

(** The way down: after [k] turns from the top. *)
Lemma breathe_fall steps dir (k : nat) :
  0 < steps ->
  (1 <= k)%nat ->
  (Z.of_nat k - 1) * steps < 1023 ->
  breathe_ticks steps k (1023, dir) = (Z.max 0 (1023 - Z.of_nat k * steps), -1).
Proof.
  intros Hs. induction k as [|k IH]; intros Hk Hlt; [lia|].
  replace (S k) with (k + 1)%nat by lia. rewrite breathe_ticks_add.
  cbn [breathe_ticks].
  destruct k as [|k'].
  - cbn [breathe_ticks]. rewrite breathe_tick_down by lia. f_equal. lia.
  - rewrite IH by lia. rewrite Z.max_r by lia.
    rewrite breathe_tick_down by lia. f_equal. lia.
Qed.

(** X27. With a positive step, breathing from a dark LED rises by [steps]
    a turn to the top of the range, reached after [half_period steps]
    turns, and then falls by [steps] a turn back to 0: [k] turns into the
    rise the duty cycle is [min 1023 (k * steps)], [k] turns into the fall
    it is [max 0 (1023 - k * steps)]. *)
Theorem breathe_rises_then_falls (steps dir : Z) (k : nat) :
  0 < steps ->
  (1 <= k <= half_period steps)%nat ->
  breathe_ticks steps k (0, dir) = (Z.min 1023 (Z.of_nat k * steps), 1)
  /\ breathe_ticks steps (half_period steps + k) (0, dir)
     = (Z.max 0 (1023 - Z.of_nat k * steps), -1).
Proof.
  intros Hs Hk. pose proof (half_period_ceil steps Hs) as (Hh1 & Hh2 & Hh3).
  assert (Hlt : (Z.of_nat k - 1) * steps < 1023) by nia.
  split; [apply breathe_rise; lia|].
  rewrite breathe_ticks_add, breathe_rise by lia.
  rewrite Z.min_l by lia. apply breathe_fall; lia.
Qed.

Lemma breathe_rises_then_falls_witness :
  (0 < 4 /\ (1 <= 100 <= half_period 4)%nat)
  /\ breathe_ticks 4 100 (0, 1) = (400, 1)
  /\ breathe_ticks 4 (half_period 4 + 100) (0, 1) = (623, -1).
Proof.
  assert (H : 0 < 4 /\ (1 <= 100 <= half_period 4)%nat)
    by (split; [lia | vm_compute; lia]).
  split; [exact H|].
  destruct H as [H1 H2]. exact (breathe_rises_then_falls 4 1 100 H1 H2).
Defined.

(** X28. With a positive step the duty cycle of a breathing LED that
    starts dark repeats every [2 * half_period steps] turns, whatever
    direction was left in [fade_direction]. *)
Theorem breathe_is_periodic (steps dir : Z) (n : nat) :
  0 < steps ->
  fst (breathe_ticks steps (2 * half_period steps + n) (0, dir))
  = fst (breathe_ticks steps n (0, dir)).
Proof.
  intros Hs. pose proof (half_period_ceil steps Hs) as (Hh1 & Hh2 & Hh3).
  assert (Hend : breathe_ticks steps (2 * half_period steps) (0, dir) = (0, -1)).
  { replace (2 * half_period steps)%nat
      with (half_period steps + half_period steps)%nat by lia.
    rewrite breathe_ticks_add, breathe_rise by lia.
    rewrite Z.min_l by lia. rewrite breathe_fall by lia.
    f_equal. lia. }
  rewrite breathe_ticks_add, Hend.
  destruct n as [|n]; reflexivity.
Qed.

Lemma breathe_is_periodic_witness :
  0 < 4
  /\ fst (breathe_ticks 4 (2 * half_period 4 + 7) (0, 1))
     = fst (breathe_ticks 4 7 (0, 1)).
Proof.
  assert (H : 0 < 4) by lia.
  split; [exact H|]. exact (breathe_is_periodic 4 1 7 H).
Defined.

(** With a step of 0 or below a breathing LED that starts dark stays
    dark: every turn writes a duty cycle of 0. *)
Theorem breathe_nonpositive_steps_stays_dark (steps dir : Z) (n : nat) :
  steps <= 0 ->
  fst (breathe_ticks steps n (0, dir)) = 0.
Proof.
  intros Hs. revert dir. induction n as [|n IH]; intros dir; [reflexivity|].
  cbn [breathe_ticks]. unfold breathe_tick. rewrite Z.eqb_refl.
  destruct (Z.gtb_spec (0 + 1 * steps) 1023); [lia|].
  destruct (Z.ltb_spec (0 + 1 * steps) 0).
  - apply IH.
  - replace (0 + 1 * steps) with 0 by lia. apply IH.
Qed.

Lemma breathe_nonpositive_steps_stays_dark_witness :
  -4 <= 0 /\ fst (breathe_ticks (-4) 50 (0, 1)) = 0.
Proof.
  assert (H : -4 <= 0) by lia.
  split; [exact H|]. exact (breathe_nonpositive_steps_stays_dark (-4) 1 50 H).
Defined.

End StatusLEDSpec.

(** * The relay *)

Module RelaySpec.
Import Relay.

(** Induction on a pin argument, with the property for every member of a
    group. *)
Lemma pin_ind' (P : pin -> Prop) :
  (forall id, P (Pin id)) ->
  (forall ps, Forall P ps -> P (Pins ps)) ->
  forall p, P p.
Proof.
  intros HP HPs. fix IH 1. intros [id|ps]; [apply HP|]. apply HPs.
  induction ps as [|p ps IHps]; constructor; [apply IH | exact IHps].
Qed.

Lemma set_pin_group state ps :
  Forall (fun p => forall r, driven p state r (_set_pin p state r)) ps ->
  forall r, _state r = state ->
  driven (Pins ps) state r (fold_left (fun r p' => _set_pin p' state r) ps r).
Proof.
  induction 1 as [|p ps Hp _ IH]; intros r Hst.
  - simpl. repeat split; auto.
  - cbn [fold_left]. destruct (Hp r) as (H1 & H2 & H3).
    destruct (IH _ H1) as (G1 & G2 & G3).
    split; [exact G1|]. split; [congruence|].
    intros id. rewrite G3. cbn [leaves flat_map] in *.
    rewrite existsb_app, H3.
    destruct (existsb (Nat.eqb id) (flat_map leaves ps));
      destruct (existsb (Nat.eqb id) (leaves p)); reflexivity.
Qed.

Lemma set_pin_driven state p : forall r, driven p state r (_set_pin p state r).
Proof.
  induction p as [id|ps IH] using pin_ind'; intros r.
  - simpl. repeat split. intros j. unfold set_value. simpl.
    now rewrite Bool.orb_false_r.
  - cbn [_set_pin].
    destruct (set_pin_group state ps IH
                {| _pin := _pin r; _state := state; pins := pins r |} eq_refl)
      as (H1 & H2 & H3).
    repeat split; auto.
Qed.

Lemma get_pin_leaves b p : _get_pin b p = forallb b (leaves p).
Proof.
  induction p as [id|ps IH] using pin_ind'.
  - simpl. unfold value. now rewrite Bool.andb_true_r.
  - cbn [_get_pin leaves]. induction IH as [|p ps Hp _ IHps]; [reflexivity|].
    cbn [forallb flat_map]. now rewrite forallb_app, Hp, IHps.
Qed.

(** X29. [_set_pin], and with it [on], [off], [toggle] and the setter of
    [state], drives every pin of the argument, however the groups are
    nested, to the level asked for, leaves every other pin of the board
    as it was, and remembers the level in [_state]. *)
Theorem set_pin_drives_exactly_its_pins (p : pin) (state : bool) (r : relay) :
  let r' := _set_pin p state r in
  _state r' = state
  /\ _pin r' = _pin r
  /\ forall id, pins r' id
                = if existsb (Nat.eqb id) (leaves p) then state else pins r id.
Proof.
  cbv zeta. revert r.
  induction p as [id|ps IH] using pin_ind'; intros r.
  - simpl. repeat split. intros j. unfold set_value. simpl.
    now rewrite Bool.orb_false_r.
  - cbn [_set_pin].
    destruct (set_pin_group state ps IH
                {| _pin := _pin r; _state := state; pins := pins r |} eq_refl)
      as (H1 & H2 & H3).
    repeat split; auto.
Qed.

(** X30. A relay goes by its remembered [_state], not by its pins: built
    on a group whose pins are not all high it reports off, and its first
    [toggle] drives every pin of the group high, those that were high
    too; a second [toggle] drives them all low. *)
Theorem toggle_goes_by_remembered_state (p : pin) (b : board) (id : nat) :
  In id (leaves p) ->
  _get_pin b p = false ->
  let r := new p b in
  _state r = false
  /\ pins (toggle r) id = true
  /\ pins (toggle (toggle r)) id = false.
Proof.
  intros Hin Hoff. cbv zeta.
  assert (Hmem : existsb (Nat.eqb id) (leaves p) = true).
  { apply existsb_exists. exists id. split; [exact Hin | apply Nat.eqb_refl]. }
  split; [exact Hoff|].
  unfold toggle.
  destruct (set_pin_driven (negb (_state (new p b))) (_pin (new p b)) (new p b))
    as (H1 & H2 & H3).
  split.
  - rewrite H3. cbn [new _pin _state]. now rewrite Hmem, Hoff.
  - set (r1 := _set_pin (_pin (new p b)) (negb (_state (new p b))) (new p b)) in *.
    destruct (set_pin_driven (negb (_state r1)) (_pin r1) r1) as (_ & _ & G3).
    rewrite G3, H2, H1. cbn [new _pin _state]. now rewrite Hmem, Hoff.
Qed.

Lemma toggle_goes_by_remembered_state_witness :
  let p := Pins [Pin 4; Pin 5] in
  let b := fun j => Nat.eqb j 4 in
  (In 4 (leaves p) /\ _get_pin b p = false)
  /\ _state (new p b) = false
  /\ pins (toggle (new p b)) 4 = true
  /\ pins (toggle (toggle (new p b))) 4 = false.
Proof.
  cbv zeta.
  assert (H : In 4 (leaves (Pins [Pin 4; Pin 5]))
              /\ _get_pin (fun j => Nat.eqb j 4) (Pins [Pin 4; Pin 5]) = false)
    by (split; [simpl; auto | reflexivity]).
  split; [exact H|]. destruct H as [H1 H2].
  exact (toggle_goes_by_remembered_state
           (Pins [Pin 4; Pin 5]) (fun j => Nat.eqb j 4) 4 H1 H2).
Defined.

(** After [_set_pin] the pins read back the level that [_state]
    remembers, provided that the argument has a pin at all; an argument
    without pins, such as an empty list, reads back as on whatever was
    set. *)
Theorem set_pin_reads_back (p : pin) (state : bool) (r : relay) :
  _get_pin (pins (_set_pin p state r)) p
  = match leaves p with
    | [] => true
    | _ :: _ => _state (_set_pin p state r)
    end.
Proof.
  destruct (set_pin_driven state p r) as (H1 & _ & H3).
  rewrite get_pin_leaves, H1.
  assert (Hall : forall l,
            (forall id, In id l -> existsb (Nat.eqb id) (leaves p) = true) ->
            forallb (pins (_set_pin p state r)) l
            = match l with [] => true | _ :: _ => state end).
  { induction l as [|id l IH]; intros Hl; [reflexivity|].
    cbn [forallb]. rewrite H3, (Hl id (or_introl eq_refl)).
    rewrite IH by (intros j Hj; apply Hl; now right).
    destruct l, state; reflexivity. }
  apply Hall. intros id Hin. apply existsb_exists. exists id.
  split; [exact Hin | apply Nat.eqb_refl].
Qed.

End RelaySpec.
